(** * Sistema Inteligente de Busqueda: crawl, clean and index pipeline

    A shallow embedding of [vectoria.py] (class [MultiSiteVectorDB]) and of
    the result conversion of [app.py], followed by the properties proved of
    them.  Python [str] values that carry page text are sequences of Unicode
    code points ([texto]); URLs are ASCII strings ([string]).  Part I holds
    the definitions, Part II the theorems. *)

From Stdlib Require Import ZArith NArith List Ascii String DecimalString.
From Stdlib Require Import Lia Floats.
From stdpp Require Import base option list gmap sets strings.

Local Open Scope N_scope.

(** ** Part I. Definitions *)

(** *** Text: Python [str] as a list of code points *)

Definition texto : Type := list N.

(** [str.isspace] for one code point; [re]'s [\s] on [str] patterns uses
    the same table. *)
Definition es_espacio (c : N) : bool :=
  ((0x09 <=? c) && (c <=? 0x0D)) || ((0x1C <=? c) && (c <=? 0x20))
  || (c =? 0x85) || (c =? 0xA0) || (c =? 0x1680)
  || ((0x2000 <=? c) && (c <=? 0x200A))
  || (c =? 0x2028) || (c =? 0x2029) || (c =? 0x202F) || (c =? 0x205F)
  || (c =? 0x3000).

Definition texto_eqb (a b : texto) : bool := bool_decide (a = b).

(** [es_prefijo p t]: [t.startswith(p)]. *)
Fixpoint es_prefijo (p t : texto) : bool :=
  match p, t with
  | [], _ => true
  | _ :: _, [] => false
  | a :: p', b :: t' => (a =? b) && es_prefijo p' t'
  end.

(** [mal in t], for a non-empty [mal]. *)
Fixpoint ocurre (mal t : texto) : bool :=
  match t with
  | [] => es_prefijo mal []
  | _ :: r => es_prefijo mal t || ocurre mal r
  end.

(** [t.replace(mal, bien)] for a non-empty [mal]: occurrences are taken
    left to right and do not overlap.  [salto] counts the code points of the
    occurrence just replaced that are still to be skipped. *)
Fixpoint replace_desde (mal bien : texto) (salto : nat) (t : texto) : texto :=
  match t with
  | [] => []
  | c :: r =>
      match salto with
      | S k => replace_desde mal bien k r
      | O =>
          if es_prefijo mal t
          then bien ++ replace_desde mal bien (pred (length mal)) r
          else c :: replace_desde mal bien O r
      end
  end.

Definition replace (mal bien t : texto) : texto := replace_desde mal bien O t.

(** The dict literal [correcciones] of [_limpiar_texto], entry by entry as
    the source file spells it, each string given by its code points (several
    keys are written more than once). *)
Definition correcciones_literal : list (texto * texto) :=
  [
    ([0xC3; 0xA1], [0xE1]);
    ([0xC3; 0xA9], [0xE9]);
    ([0xC3; 0xAD], [0xED]);
    ([0xC3; 0xB3], [0xF3]);
    ([0xC3; 0xBA], [0xFA]);
    ([0xC3; 0xB1], [0xF1]);
    ([0xC3; 0xBC], [0xFC]);
    ([0xC3; 0xA3], [0xE3]);
    ([0xC3; 0xB6], [0xF6]);
    ([0xC3; 0xA4], [0xE4]);
    ([0xC3; 0xA2], [0xE2]);
    ([0xC3; 0xBB], [0xFB]);
    ([0xC3; 0xAE], [0xEE]);
    ([0xC3; 0xA8], [0xE8]);
    ([0xC3; 0xAA], [0xEA]);
    ([0xC3; 0xA7], [0xE7]);
    ([0xC3; 0x20], [0xE0]);
    ([0xC3; 0xB4], [0xF4]);
    ([0xC3; 0xB9], [0xF9]);
    ([0xC3; 0xAB], [0xEB]);
    ([0xC3; 0xAF], [0xEF]);
    ([0xC3; 0xBD], [0xFD]);
    ([0xC3; 0xBE], [0xFE]);
    ([0xC3; 0xBF], [0xFF]);
    ([0xC3], [0xC1]);
    ([0xC3; 0x2030], [0xC9]);
    ([0xC3], [0xCD]);
    ([0xC3; 0x22], [0xD3]);
    ([0xC3; 0x161], [0xDA]);
    ([0xC3], [0xD1]);
    ([0xC3; 0x153], [0xDC]);
    ([0xC2; 0xBF], [0xBF]);
    ([0xC2; 0xA1], [0xA1]);
    ([0xE2; 0x201A; 0xAC], [0x20AC]);
    ([0xC3; 0x201A], [0xC2]);
    ([0xC3; 0x192], [0xC3]);
    ([0xC3; 0x201E], [0xC4]);
    ([0xC3; 0x2026], [0xC5]);
    ([0xC3; 0x2020], [0xC6]);
    ([0xC3; 0x2021], [0xC7]);
    ([0xC3; 0x2C6], [0xC8]);
    ([0xC3; 0x160], [0xCA]);
    ([0xC3; 0x2039], [0xCB]);
    ([0xC3; 0x152], [0xCC]);
    ([0xC3; 0x17D], [0xCE]);
    ([0xC3], [0xD2]);
    ([0xC3; 0x22], [0xD4]);
    ([0xC3; 0x2022], [0xD5]);
    ([0xC3; 0x2013], [0xD6]);
    ([0xC3; 0x2014], [0xD7]);
    ([0xC3; 0x2DC], [0xD8]);
    ([0xC3; 0x2122], [0xD9]);
    ([0xC3; 0x203A], [0xDB]);
    ([0xC3; 0x17E], [0xDE]);
    ([0xC3; 0x178], [0xDF]);
    ([0xC3; 0xA2], [0xE2]);
    ([0xC3; 0xA5], [0xE5]);
    ([0xC3; 0xA6], [0xE6]);
    ([0xC3; 0xA8], [0xE8]);
    ([0xC3; 0xAC], [0xEC]);
    ([0xC3; 0xB0], [0xF0]);
    ([0xC3; 0xB2], [0xF2]);
    ([0xC3; 0xB5], [0xF5]);
    ([0xC3; 0xB7], [0xF7]);
    ([0xC3; 0xB8], [0xF8]);
    ([0xC3; 0xBB], [0xFB])
  ].

(** A Python dict display: a repeated key keeps the position of its first
    occurrence and the value of its last. *)
Fixpoint dict_poner (k v : texto) (d : list (texto * texto))
  : list (texto * texto) :=
  match d with
  | [] => [(k, v)]
  | (k', v') :: d' =>
      if texto_eqb k k' then (k', v) :: d' else (k', v') :: dict_poner k v d'
  end.

Definition dict_de_literal (l : list (texto * texto)) : list (texto * texto) :=
  fold_left (fun d kv => dict_poner (fst kv) (snd kv) d) l [].

(** [correcciones.items()], in iteration order. *)
Definition correcciones : list (texto * texto) :=
  Eval vm_compute in dict_de_literal correcciones_literal.

(** [for mal, bien in tabla: texto = texto.replace(mal, bien)]. *)
Definition aplicar_correcciones (tabla : list (texto * texto)) (t : texto)
  : texto :=
  fold_left (fun acc kv => replace (fst kv) (snd kv) acc) tabla t.

(** The same entries with the one for the mis-decoded euro sign moved to
    the front. *)
Definition correcciones_euro_primero : list (texto * texto) :=
  ([0xE2; 0x201A; 0xAC], [0x20AC])
    :: (firstn 31 correcciones ++ skipn 32 correcciones).

(** No key of the table occurs in the text. *)
Definition sin_mojibake (t : texto) : bool :=
  forallb (fun kv => negb (ocurre (fst kv) t)) correcciones.

(** [c] completes a two-character key of the table that starts with
    U+00C3. *)
Definition completa_clave (c : N) : bool :=
  existsb (fun kv => texto_eqb (fst kv) [0xC3; c]) correcciones.

(** The text [r] that follows a U+00C3 starts neither with a character
    that completes a key nor, when [q] is set, with the mis-decoded inverted
    question mark nor, when [e] is set, with the mis-decoded inverted
    exclamation mark. *)
Definition sigue_suelta (q e : bool) (r : texto) : bool :=
  match r with
  | [] => true
  | d :: _ =>
      negb (completa_clave d)
      && negb (q && es_prefijo [0xC2; 0xBF] r)
      && negb (e && es_prefijo [0xC2; 0xA1] r)
  end.

(** Every U+00C3 of the text is followed by such a text. *)
Fixpoint a_tilde_suelta_con (q e : bool) (t : texto) : bool :=
  match t with
  | [] => true
  | c :: r =>
      (negb (c =? 0xC3) || sigue_suelta q e r) && a_tilde_suelta_con q e r
  end.

(** Every U+00C3 of the text is followed neither by a character that
    completes a key of the table, nor by the mis-decoded inverted question
    mark, nor by the mis-decoded inverted exclamation mark. *)
Definition a_tilde_suelta (t : texto) : bool := a_tilde_suelta_con true true t.

(** The four entries of the table that can act on such a text. *)
Definition entrada_a_tilde : texto * texto := ([0xC3], [0xD2]).
Definition entrada_interrogacion : texto * texto := ([0xC2; 0xBF], [0xBF]).
Definition entrada_exclamacion : texto * texto := ([0xC2; 0xA1], [0xA1]).
Definition entrada_euro : texto * texto := ([0xE2; 0x201A; 0xAC], [0x20AC]).

Definition entradas_activas : list (texto * texto) :=
  [entrada_a_tilde; entrada_interrogacion; entrada_exclamacion; entrada_euro].

(** An entry is one of those four, or its key is U+00C3 and a character
    that completes a key. *)
Definition entrada_clasificada (kv : texto * texto) : bool :=
  bool_decide (kv ∈ entradas_activas)
  || match fst kv with
     | [c0; c] => (c0 =? 0xC3) && completa_clave c
     | _ => false
     end.

(** What holds of the text while the entries of [l], each once, are still
    to be applied: the two marks matter as long as their entries are
    pending. *)
Definition pendiente (l : list (texto * texto)) (t : texto) : Prop :=
  NoDup l
  /\ Forall (fun kv => entrada_clasificada kv = true) l
  /\ a_tilde_suelta_con (bool_decide (entrada_interrogacion ∈ l))
       (bool_decide (entrada_exclamacion ∈ l)) t = true.

(** The text without every [a] that stands right before an [x]: what
    [t.replace(a + x, x)] gives. *)
Fixpoint sin_a_ante (a x : N) (t : texto) : texto :=
  match t with
  | [] => []
  | c :: r =>
      if (c =? a) && bool_decide (head r = Some x) then sin_a_ante a x r
      else c :: sin_a_ante a x r
  end.

(** The character [c] with [a] changed into [b]: what [t.replace(a, b)]
    does to each character. *)
Definition cambiar (a b c : N) : N := if c =? a then b else c.

(** The same entries with the one for the mis-decoded inverted exclamation
    mark moved to the front. *)
Definition correcciones_exclamacion_primero : list (texto * texto) :=
  entrada_exclamacion :: (firstn 30 correcciones ++ skipn 31 correcciones).

(** [re.sub(r'[\x00-\x1f\x7f-\x9f]', '', texto)]. *)
Definition es_control (c : N) : bool :=
  (c <=? 0x1F) || ((0x7F <=? c) && (c <=? 0x9F)).

Definition quitar_controles (t : texto) : texto :=
  List.filter (fun c => negb (es_control c)) t.

(** [re.sub] of the replacement character U+FFFD by nothing. *)
Definition quitar_reemplazo (t : texto) : texto :=
  List.filter (fun c => negb (c =? 0xFFFD)) t.

(** [re.sub(r'\s+', ' ', texto)]; [en_blanco] tells that the run of
    whitespace being read has already produced its space. *)
Fixpoint colapsar (en_blanco : bool) (t : texto) : texto :=
  match t with
  | [] => []
  | c :: r =>
      if es_espacio c
      then (if en_blanco then colapsar true r else 0x20 :: colapsar true r)
      else c :: colapsar false r
  end.

Fixpoint lstrip (t : texto) : texto :=
  match t with
  | [] => []
  | c :: r => if es_espacio c then lstrip r else t
  end.

Fixpoint rstrip (t : texto) : texto :=
  match t with
  | [] => []
  | c :: r =>
      match rstrip r with
      | [] => if es_espacio c then [] else [c]
      | r' => c :: r'
      end
  end.

Definition strip (t : texto) : texto := rstrip (lstrip t).

Definition normalizar_espacios (t : texto) : texto := strip (colapsar false t).

(** [_limpiar_texto].  [nfkc] stands for [unicodedata.normalize('NFKC', .)],
    a function of the Python library; the [try] around it never fires on a
    [str]. *)
Definition _limpiar_texto (nfkc : texto -> texto) (t : texto) : texto :=
  match t with
  | [] => []
  | _ =>
      let t1 := aplicar_correcciones correcciones t in
      let t2 := nfkc t1 in
      let t3 := quitar_reemplazo (quitar_controles t2) in
      normalizar_espacios t3
  end.

(** [len(t.split())]: the number of maximal runs of non-whitespace. *)
Fixpoint contar_palabras (en_palabra : bool) (t : texto) : nat :=
  match t with
  | [] => O
  | c :: r =>
      if es_espacio c then contar_palabras false r
      else if en_palabra then contar_palabras true r
      else S (contar_palabras true r)
  end.

Definition num_palabras (t : texto) : nat := contar_palabras false t.

(** *** A normaliser for Latin-1 text *)

(** [unicodedata.normalize('NFKC', .)] on text whose code points all lie
    below U+0100: there it acts code point by code point, the fourteen
    compatibility characters of that range being replaced and every other
    one kept.  Above U+0100 the definition keeps the code point and is not
    the library's function. *)
Definition nfkc_punto (c : N) : texto :=
  if c =? 0xA0 then [0x20]
  else if c =? 0xA8 then [0x20; 0x308]
  else if c =? 0xAA then [0x61]
  else if c =? 0xAF then [0x20; 0x304]
  else if c =? 0xB2 then [0x32]
  else if c =? 0xB3 then [0x33]
  else if c =? 0xB4 then [0x20; 0x301]
  else if c =? 0xB5 then [0x3BC]
  else if c =? 0xB8 then [0x20; 0x327]
  else if c =? 0xB9 then [0x31]
  else if c =? 0xBA then [0x6F]
  else if c =? 0xBC then [0x31; 0x2044; 0x34]
  else if c =? 0xBD then [0x31; 0x2044; 0x32]
  else if c =? 0xBE then [0x33; 0x2044; 0x34]
  else [c].

Definition nfkc_latin1 (t : texto) : texto := flat_map nfkc_punto t.

(** *** URLs: the part of [urllib.parse.urlparse] the program reads *)

(** [urlparse] is library code.  Its computation of [scheme], [netloc] and
    [path] is written out after CPython 3.11's [urlsplit] and [urlparse],
    for ASCII URLs, together with the checks that make it raise
    [ValueError] and the message of that error. *)

Record ParseResult := {
  scheme : string;
  netloc : string;
  path : string
}.

Local Open Scope char_scope.

Definition en_rango (a b c : ascii) : bool :=
  ((N_of_ascii a <=? N_of_ascii c) && (N_of_ascii c <=? N_of_ascii b))%N.

Definition es_letra (c : ascii) : bool := en_rango "a" "z" c || en_rango "A" "Z" c.

Definition es_scheme_char (c : ascii) : bool :=
  es_letra c || en_rango "0" "9" c
  || Ascii.eqb c "+" || Ascii.eqb c "-" || Ascii.eqb c ".".

Definition minuscula (c : ascii) : ascii :=
  if en_rango "A" "Z" c then ascii_of_N (N_of_ascii c + 32) else c.

Fixpoint lower (s : string) : string :=
  match s with
  | EmptyString => EmptyString
  | String c r => String (minuscula c) (lower r)
  end.

Fixpoint todos (f : ascii -> bool) (s : string) : bool :=
  match s with
  | EmptyString => true
  | String c r => f c && todos f r
  end.

Fixpoint quitar (f : ascii -> bool) (s : string) : string :=
  match s with
  | EmptyString => EmptyString
  | String c r => if f c then quitar f r else String c (quitar f r)
  end.

Fixpoint tiene (c : ascii) (s : string) : bool :=
  match s with
  | EmptyString => false
  | String d r => Ascii.eqb c d || tiene c r
  end.

(** [s.partition(c)] without the separator: the text before the first [c]
    and the text after it, or [None] when [c] does not occur. *)
Fixpoint partir (c : ascii) (s : string) : option (string * string) :=
  match s with
  | EmptyString => None
  | String d r =>
      if Ascii.eqb c d then Some (EmptyString, r)
      else match partir c r with
           | Some (a, b) => Some (String d a, b)
           | None => None
           end
  end.

(** [s.split(c)[0]]. *)
Definition antes_de (c : ascii) (s : string) : string :=
  match partir c s with Some (a, _) => a | None => s end.

(** [s.split(c)[-1]]: the text after the last [c]. *)
Fixpoint ultimo_segmento (c : ascii) (s : string) : string :=
  match s with
  | EmptyString => EmptyString
  | String d r =>
      if tiene c s then ultimo_segmento c r else s
  end.

(** [sub in s]. *)
Fixpoint contiene (sub s : string) : bool :=
  match s with
  | EmptyString => String.prefix sub EmptyString
  | String _ r => String.prefix sub s || contiene sub r
  end.

(** [url.lstrip(_WHATWG_C0_CONTROL_OR_SPACE)]. *)
Fixpoint lstrip_c0 (s : string) : string :=
  match s with
  | EmptyString => EmptyString
  | String c r => if (N_of_ascii c <=? 0x20)%N then lstrip_c0 r else s
  end.

(** The characters of [_UNSAFE_URL_BYTES_TO_REMOVE]: tab, CR, LF. *)
Definition es_inseguro (c : ascii) : bool :=
  let n := N_of_ascii c in ((n =? 9) || (n =? 13) || (n =? 10))%N.

(** [_splitnetloc(url, 2)] on the text after the two slashes: the netloc
    runs up to the first of [/], [?], [#]. *)
Fixpoint _splitnetloc (s : string) : string * string :=
  match s with
  | EmptyString => (EmptyString, EmptyString)
  | String c r =>
      if Ascii.eqb c "/" || Ascii.eqb c "?" || Ascii.eqb c "#"
      then (EmptyString, s)
      else let '(n, u) := _splitnetloc r in (String c n, u)
  end.

Local Open Scope string_scope.

Definition uses_params : list string :=
  [""; "ftp"; "hdl"; "prospero"; "http"; "imap"; "https"; "shttp"; "rtsp";
   "rtspu"; "sip"; "sips"; "mms"; "sftp"; "tel"].

Definition en_lista (s : string) (l : list string) : bool :=
  existsb (String.eqb s) l.

(** The path half of [_splitparams(url)]. *)
Definition sin_params (url : string) : string :=
  if tiene "/" url
  then
    let ult := ultimo_segmento "/" url in
    let cabeza := substring 0 (String.length url - String.length ult) url in
    cabeza ++ antes_de ";" ult
  else antes_de ";" url.

(** The scheme split of [urlsplit]: the text before the first colon is a
    scheme when it starts with a letter and holds scheme characters only. *)
Definition separar_scheme (url : string) : string * string :=
  match partir ":" url with
  | Some (String c0 pre, post) =>
      if es_letra c0 && todos es_scheme_char (String c0 pre)
      then (lower (String c0 pre), post)
      else ("", url)
  | _ => ("", url)
  end.

(** What is left for [path] once fragment, query and parameters are cut. *)
Definition ruta (sch url : string) : string :=
  let url := antes_de "?" (antes_de "#" url) in
  if en_lista sch uses_params && tiene ";" url then sin_params url else url.

Definition corchetes_mal (net : string) : bool :=
  (tiene "[" net && negb (tiene "]" net))
  || (tiene "]" net && negb (tiene "[" net)).

(** **** The host between brackets: [ipaddress.ip_address]

    [urlsplit] hands the text between the brackets of a netloc to
    [ipaddress.ip_address] and reads two things of the answer: whether it
    raises, and whether the address is an IPv4 one.  These are written out
    after the [ipaddress] module; the value of the address is not
    computed. *)

(** [s.split(c)]: the first piece and the pieces after it. *)
Fixpoint split_desde (c : ascii) (s : string) : string * list string :=
  match s with
  | EmptyString => (EmptyString, [])
  | String d r =>
      let '(p, ps) := split_desde c r in
      if Ascii.eqb c d then (EmptyString, p :: ps) else (String d p, ps)
  end.

Definition split (c : ascii) (s : string) : list string :=
  let '(p, ps) := split_desde c s in p :: ps.

Definition es_digito (c : ascii) : bool := en_rango "0" "9" c.

Definition es_hex (c : ascii) : bool :=
  es_digito c || en_rango "a" "f" c || en_rango "A" "F" c.

(** [int(s, 10)] for a string of decimal digits. *)
Definition decimal (s : string) : N :=
  fold_left (fun n c => (10 * n + (N_of_ascii c - 48))%N)
    (list_ascii_of_string s) 0%N.

(** [_parse_octet(octet_str)] does not raise. *)
Definition _parse_octet (octet_str : string) : bool :=
  negb (String.eqb octet_str "")
  && todos es_digito octet_str
  && (String.length octet_str <=? 3)%nat
  && (String.eqb octet_str "0" || negb (String.prefix "0" octet_str))
  && (decimal octet_str <=? 255)%N.

(** [IPv4Address(address)] does not raise. *)
Definition es_ipv4 (address : string) : bool :=
  negb (tiene "/" address)
  && negb (String.eqb address "")
  && (length (split "." address) =? 4)%nat
  && forallb _parse_octet (split "." address).

(** [_parse_hextet(hextet_str)] does not raise ([int('', 16)] does). *)
Definition _parse_hextet (hextet_str : string) : bool :=
  todos es_hex hextet_str
  && (String.length hextet_str <=? 4)%nat
  && negb (String.eqb hextet_str "").

(** The indices [i] of [range(desde, desde + len(parts))] with
    [parts[i]] empty. *)
Fixpoint vacias (desde : nat) (parts : list string) : list nat :=
  match parts with
  | [] => []
  | p :: r =>
      if String.eqb p "" then desde :: vacias (S desde) r
      else vacias (S desde) r
  end.

(** [IPv6Address._ip_int_from_string(ip_str)] does not raise.  The two
    hextets that replace an IPv4 suffix always parse; they are written [0]
    here. *)
Definition _ip_int_from_string (ip_str : string) : bool :=
  negb (String.eqb ip_str "")
  && let parts := split ":" ip_str in
     (3 <=? length parts)%nat
     && let ultima := List.last parts "" in
        (negb (tiene "." ultima) || es_ipv4 ultima)
        && let parts :=
             if tiene "." ultima then (removelast parts ++ ["0"; "0"])%list
             else parts in
           let n := length parts in
           (n <=? 9)%nat
           && match vacias 1 (firstn (n - 2) (skipn 1 parts)) with
              | _ :: _ :: _ => false
              | [skip_index] =>
                  let cabeza_vacia := String.eqb (List.hd "" parts) "" in
                  let cola_vacia := String.eqb (List.last parts "") "" in
                  let parts_hi :=
                    if cabeza_vacia then (skip_index - 1)%nat
                    else skip_index in
                  let parts_lo :=
                    if cola_vacia then (n - skip_index - 1 - 1)%nat
                    else (n - skip_index - 1)%nat in
                  (negb cabeza_vacia || (parts_hi =? 0)%nat)
                  && (negb cola_vacia || (parts_lo =? 0)%nat)
                  && (parts_hi + parts_lo <=? 7)%nat
                  && forallb _parse_hextet (firstn parts_hi parts)
                  && forallb _parse_hextet (skipn (n - parts_lo) parts)
              | [] =>
                  (n =? 8)%nat && forallb _parse_hextet parts
              end.

(** [IPv6Address(address)] does not raise: the scope after a [%] is cut
    off first, and has to be non-empty and without a second [%]. *)
Definition es_ipv6 (address : string) : bool :=
  negb (tiene "/" address)
  && match partir "%" address with
     | Some (addr, scope_id) =>
         negb (String.eqb scope_id "") && negb (tiene "%" scope_id)
         && _ip_int_from_string addr
     | None => _ip_int_from_string address
     end.

Inductive Direccion := IPv4Address | IPv6Address.

(** [ip_address(address)]; [None]: it raises [ValueError]. *)
Definition ip_address (address : string) : option Direccion :=
  if es_ipv4 address then Some IPv4Address
  else if es_ipv6 address then Some IPv6Address
  else None.

(** [repr(s)] of a [str]. *)
Definition hex_digito (n : N) : ascii :=
  if (n <? 10)%N then ascii_of_N (48 + n) else ascii_of_N (87 + n).

Definition comilla_doble : ascii := ascii_of_N 34.

Definition repr_caracter (comilla c : ascii) : string :=
  let n := N_of_ascii c in
  if Ascii.eqb c comilla || Ascii.eqb c "\"
  then String "\" (String c EmptyString)
  else if (n =? 9)%N then "\t"
  else if (n =? 10)%N then "\n"
  else if (n =? 13)%N then "\r"
  else if (n <? 32)%N || ((127 <=? n) && (n <=? 160))%N || (n =? 173)%N
  then String "\" (String "x" (String (hex_digito (n / 16))
                                 (String (hex_digito (n mod 16)) EmptyString)))
  else String c EmptyString.

Definition repr (s : string) : string :=
  let comilla : ascii :=
    if tiene "'" s && negb (tiene comilla_doble s) then comilla_doble
    else "'"%char in
  String comilla
    (String.concat "" (List.map (repr_caracter comilla) (list_ascii_of_string s))
     ++ String comilla EmptyString).

(** [re.match(r"\Av[a-fA-F0-9]+\..+\Z", hostname)] succeeds: a [v], hex
    digits, a dot, and up to the end one character or more, none of them a
    line feed. *)
Fixpoint tras_hex (s : string) : string :=
  match s with
  | EmptyString => EmptyString
  | String c r => if es_hex c then tras_hex r else s
  end.

Definition es_ipvfuture (hostname : string) : bool :=
  match hostname with
  | String "v" (String c r) =>
      es_hex c
      && match tras_hex r with
         | String "." (String d resto) =>
             todos (fun x => negb (N_of_ascii x =? 10)%N) (String d resto)
         | _ => false
         end
  | _ => false
  end.

(** [_check_bracketed_host(hostname)]: the message of the [ValueError]
    raised, if any. *)
Definition _check_bracketed_host (hostname : string) : option string :=
  if String.prefix "v" hostname then
    if es_ipvfuture hostname then None
    else Some "IPvFuture address is invalid"
  else
    match ip_address hostname with
    | Some IPv4Address => Some "An IPv4 address cannot be in brackets"
    | Some IPv6Address => None
    | None =>
        Some (repr hostname ++ " does not appear to be an IPv4 or IPv6 address")
    end.

(** [_check_bracketed_netloc(netloc)], likewise. *)
Definition _check_bracketed_netloc (net : string) : option string :=
  let hostname_and_port := ultimo_segmento "@" net in
  match partir "[" hostname_and_port with
  | Some (before_bracket, bracketed) =>
      if negb (String.eqb before_bracket "") then Some "Invalid IPv6 URL"
      else
        let '(hostname, port) :=
          match partir "]" bracketed with
          | Some (h, p) => (h, p)
          | None => (bracketed, "")
          end in
        if negb (String.eqb port "") && negb (String.prefix ":" port)
        then Some "Invalid IPv6 URL"
        else _check_bracketed_host hostname
  | None => _check_bracketed_host (antes_de ":" hostname_and_port)
  end.

(** The checks of [urlsplit] on the netloc: the message of the
    [ValueError] raised, if any. *)
Definition error_de_netloc (net : string) : option string :=
  if corchetes_mal net then Some "Invalid IPv6 URL"
  else if tiene "[" net && tiene "]" net then _check_bracketed_netloc net
  else None.

(** [url[:2] == '//']: the text after the two slashes. *)
Definition tras_barras (url : string) : option string :=
  match url with
  | String "/" (String "/" resto) => Some resto
  | _ => None
  end.

(** [urlparse(url0)]: the three fields read of the result, or the message
    of the [ValueError] raised. *)
Definition intentar_urlparse (url0 : string) : string + ParseResult :=
  let '(sch, url) := separar_scheme (quitar es_inseguro (lstrip_c0 url0)) in
  match tras_barras url with
  | Some resto =>
      let '(net, url) := _splitnetloc resto in
      match error_de_netloc net with
      | Some msg => inl msg
      | None => inr {| scheme := sch; netloc := net; path := ruta sch url |}
      end
  | None => inr {| scheme := sch; netloc := ""; path := ruta sch url |}
  end.

(** [urlparse(url0)], [None] standing for the [ValueError]. *)
Definition urlparse (url0 : string) : option ParseResult :=
  match intentar_urlparse url0 with
  | inr p => Some p
  | inl _ => None
  end.

(** [str(e)] for the [ValueError] [e] that [urlparse(url0)] raises. *)
Definition error_de_urlparse (url0 : string) : option string :=
  match intentar_urlparse url0 with
  | inl msg => Some msg
  | inr _ => None
  end.

(** *** Pages and the outside world *)

(** What the program reads of a parsed document (a [BeautifulSoup] tree).
    [select_one sel] is the text ([get_text]) of the first element matching
    the selector, taken after the program has removed the [script], [style],
    [nav], [footer], [aside], [header] and [form] elements below it; [body]
    likewise for the [body] element. *)
Record Soup := {
  title : option (option texto);
  select_one : string -> option texto;
  body : option texto;
  meta_description : option (option texto);
  anchors : list string
}.

Record Pagina := {
  url : string;
  titulo : texto;
  contenido : texto;
  descripcion : texto;
  ultima_actualizacion : string
}.

(** The collaborators of a crawl.  [red n u] is what the [n]-th request of
    the crawl gets for [u] ([requests.get], decoding and parsing, [None] on
    any failure), [ahora n] the formatted clock at that moment, [nfkc] and
    [urljoin] the library functions of those names ([None]: it raises). *)
Record Mundo := {
  nfkc : texto -> texto;
  urljoin : string -> string -> option string;
  red : nat -> string -> option Soup;
  ahora : nat -> string
}.

Definition texto_de_cadena (s : string) : texto :=
  List.map N_of_ascii (list_ascii_of_string s).

Definition _obtener_contenido (m : Mundo) (n : nat) (u : string) : option Soup :=
  red m n u.

Definition selectors : list string :=
  ["main"; "article"; ".content"; ".documentation";
   ".doc-content"; ".markdown-body"; ".page-content";
   "#content"; "#main-content"; ".body"].

Fixpoint primer_selector (soup : Soup) (sels : list string) : option texto :=
  match sels with
  | [] => None
  | sel :: r =>
      match select_one soup sel with
      | Some text => Some text
      | None => primer_selector soup r
      end
  end.

Definition _extraer_contenido_principal (m : Mundo) (soup : Soup) : option texto :=
  match primer_selector soup selectors with
  | Some text => Some (_limpiar_texto (nfkc m) text)
  | None =>
      match body soup with
      | Some text => Some (_limpiar_texto (nfkc m) text)
      | None => None
      end
  end.

Definition es_vacio {A} (l : list A) : bool :=
  match l with [] => true | _ => false end.

(** [not content or len(content.split()) < 20]. *)
Definition contenido_insuficiente (content : option texto) : bool :=
  match content with
  | None => true
  | Some c => es_vacio c || (num_palabras c <? 20)%nat
  end.

(** The extracted main content is absent or has fewer than 20 words. *)
Definition contenido_pobre (content : option texto) : Prop :=
  content = None
  \/ exists c, content = Some c /\ (num_palabras c < 20)%nat.

(** [extraer_pagina_individual]; every exception inside it ends in
    [return None]. *)
Definition extraer_pagina_individual (m : Mundo) (n : nat) (u : string)
  : option Pagina :=
  match _obtener_contenido m n u with
  | None => None
  | Some soup =>
      let title0 :=
        match title soup with
        | Some st => _limpiar_texto (nfkc m) (default [] st)
        | None => []
        end in
      let title1 :=
        if es_vacio title0 then
          match urlparse u with
          | Some p =>
              let seg := ultimo_segmento "/" (path p) in
              Some (texto_de_cadena (if String.eqb seg "" then u else seg))
          | None => None
          end
        else Some title0 in
      match title1 with
      | None => None
      | Some tit =>
          let content := _extraer_contenido_principal m soup in
          if contenido_insuficiente content then None
          else
            let description :=
              match meta_description soup with
              | Some c => _limpiar_texto (nfkc m) (default [] c)
              | None => []
              end in
            Some {| url := u;
                    titulo := tit;
                    contenido := default [] content;
                    descripcion := description;
                    ultima_actualizacion := ahora m n |}
      end
  end.

Definition extensiones : list string :=
  [".pdf"; ".jpg"; ".png"; ".zip"; ".exe"; ".dmg"].

Definition _es_url_valida (u dominio_base : string) : bool :=
  match urlparse u with
  | None => false
  | Some parsed =>
      if String.eqb (scheme parsed) "" || String.eqb (netloc parsed) ""
      then false
      else
        match urlparse dominio_base with
        | None => false
        | Some base =>
            if negb (String.eqb (netloc parsed) (netloc base)) then false
            else if existsb (fun ext => contiene ext (lower u)) extensiones
            then false
            else true
        end
  end.

Definition _procesar_enlaces (m : Mundo) (u : string) (soup : Soup)
    (dominio_base : string) : gset string :=
  fold_left
    (fun (links : gset string) (h : string) =>
       let href := antes_de "#" h in
       match urljoin m u href with
       | Some full_url =>
           if _es_url_valida full_url dominio_base
           then {[full_url]} ∪ links else links
       | None => links
       end)
    (anchors soup) ∅.

(** *** The crawl *)

Record Estado := {
  to_visit : gset string;
  visited : gset string;
  results : list Pagina;
  peticiones : nat
}.

Definition inicial (url_inicio : string) : Estado :=
  {| to_visit := {[url_inicio]}; visited := ∅; results := []; peticiones := O |}.

(** [max_paginas == 0 or len(results) < max_paginas]. *)
Definition faltan_paginas (max_paginas : Z) (res : list Pagina) : bool :=
  ((max_paginas =? 0) || (Z.of_nat (length res) <? max_paginas))%Z.

(** The condition of the [while]. *)
Definition continua (max_paginas : Z) (e : Estado) : bool :=
  bool_decide (to_visit e ≠ ∅) && faltan_paginas max_paginas (results e).

(** One turn of the loop, for the element [current_url] that
    [to_visit.pop()] hands out. *)
Definition iterar (m : Mundo) (max_paginas : Z) (dominio_base : string)
    (current_url : string) (e : Estado) : Estado :=
  let resto := to_visit e ∖ {[current_url]} in
  if bool_decide (current_url ∈ visited e) then
    {| to_visit := resto; visited := visited e;
       results := results e; peticiones := peticiones e |}
  else
    let vistos := {[current_url]} ∪ visited e in
    match extraer_pagina_individual m (peticiones e) current_url with
    | Some page_data =>
        let res := (results e ++ [page_data])%list in
        if faltan_paginas max_paginas res then
          match _obtener_contenido m (S (peticiones e)) current_url with
          | Some soup =>
              let new_links :=
                _procesar_enlaces m current_url soup dominio_base in
              {| to_visit := resto ∪ (new_links ∖ vistos); visited := vistos;
                 results := res; peticiones := S (S (peticiones e)) |}
          | None =>
              {| to_visit := resto; visited := vistos;
                 results := res; peticiones := S (S (peticiones e)) |}
          end
        else
          {| to_visit := resto; visited := vistos;
             results := res; peticiones := S (peticiones e) |}
    | None =>
        {| to_visit := resto; visited := vistos;
           results := results e; peticiones := S (peticiones e) |}
    end.

(** The loop.  [to_visit.pop()] gives some element of the set, any of
    them, so a run is a derivation and not a function of the state. *)
Inductive bucle (m : Mundo) (max_paginas : Z) (dominio_base : string)
  : Estado -> Estado -> Prop :=
| bucle_fin e :
    continua max_paginas e = false ->
    bucle m max_paginas dominio_base e e
| bucle_paso e current_url e' :
    continua max_paginas e = true ->
    current_url ∈ to_visit e ->
    bucle m max_paginas dominio_base
      (iterar m max_paginas dominio_base current_url e) e' ->
    bucle m max_paginas dominio_base e e'.

(** [rastrear_sitio_web m url_inicio max_paginas res]: the call can return
    the list [res]. *)
Definition rastrear_sitio_web (m : Mundo) (url_inicio : string)
    (max_paginas : Z) (res : list Pagina) : Prop :=
  exists p e,
    urlparse url_inicio = Some p
    /\ bucle m max_paginas (netloc p) (inicial url_inicio) e
    /\ res = results e.

(** The same loop run to the end with a fixed choice for [pop] (the first
    element of the set's enumeration); [None] when [pasos] turns do not
    finish it or [urlparse] raises. *)
Fixpoint bucle_con (m : Mundo) (max_paginas : Z) (dominio_base : string)
    (pasos : nat) (e : Estado) : option Estado :=
  if continua max_paginas e then
    match pasos with
    | O => None
    | S k =>
        match elements (to_visit e) with
        | current_url :: _ =>
            bucle_con m max_paginas dominio_base k
              (iterar m max_paginas dominio_base current_url e)
        | [] => None
        end
    end
  else Some e.

Definition rastrear_sitio_web_con (m : Mundo) (pasos : nat)
    (url_inicio : string) (max_paginas : Z) : option (list Pagina) :=
  match urlparse url_inicio with
  | Some p =>
      results <$> bucle_con m max_paginas (netloc p) pasos (inicial url_inicio)
  | None => None
  end.

(** One turn of the loop, as a relation between states. *)
Definition paso (m : Mundo) (max_paginas : Z) (dominio_base : string)
    (e e' : Estado) : Prop :=
  continua max_paginas e = true
  /\ exists c, c ∈ to_visit e /\ e' = iterar m max_paginas dominio_base c e.

(** The URLs of the results are pairwise distinct and all visited. *)
Definition sin_repetidos (e : Estado) : Prop :=
  NoDup (url <$> results e) /\ forall p, p ∈ results e -> url p ∈ visited e.

(** *** Ingestion and the indexing record *)

Record Metadata := {
  md_url : string;
  md_titulo : texto;
  md_fuente : string;
  md_descripcion : texto;
  md_ultima_actualizacion : string;
  md_idioma : string
}.

(** One call of [collection.add]. *)
Record Lote := {
  ids : list string;
  docs : list texto;
  metadatas : list Metadata
}.

Fixpoint termina_en (suf s : string) : bool :=
  String.eqb suf s
  || match s with
     | EmptyString => false
     | String _ r => termina_en suf r
     end.

Definition _detectar_idioma (u : string) : string :=
  if contiene "/es/" u || termina_en ".es" u then "es"
  else if contiene "/en/" u || termina_en ".com" u then "en"
  else "es".

(** [str(n)] for [n >= 0]. *)
Definition str_de_N (n : N) : string :=
  DecimalString.NilZero.string_of_uint (N.to_uint n).

(** [f"doc_{abs(hash(doc['url']))}"]; [hash] is the interpreter's, the one
    of the running process. *)
Definition doc_id (hash : string -> Z) (u : string) : string :=
  "doc_" ++ str_de_N (Z.abs_N (hash u)).

Definition metadata_de (doc : Pagina) : option Metadata :=
  match urlparse (url doc) with
  | Some p =>
      Some {| md_url := url doc;
              md_titulo := titulo doc;
              md_fuente := netloc p;
              md_descripcion := descripcion doc;
              md_ultima_actualizacion := ultima_actualizacion doc;
              md_idioma := _detectar_idioma (url doc) |}
  | None => None
  end.

(** The three parallel lists built for one batch; [None] when [urlparse]
    raises on a document's URL. *)
Fixpoint armar_lote (hash : string -> Z) (batch : list Pagina) : option Lote :=
  match batch with
  | [] => Some {| ids := []; docs := []; metadatas := [] |}
  | doc :: r =>
      match metadata_de doc, armar_lote hash r with
      | Some md, Some l =>
          Some {| ids := doc_id hash (url doc) :: ids l;
                  docs := contenido doc :: docs l;
                  metadatas := md :: metadatas l |}
      | _, _ => None
      end
  end.

Definition batch_size : nat := 100.

(** [documentos[i:i+batch_size] for i in range(0, len(documentos),
    batch_size)]; [n] bounds the number of batches. *)
Fixpoint trocear (n : nat) (documentos : list Pagina) : list (list Pagina) :=
  match n, documentos with
  | _, [] => []
  | O, _ => []
  | S k, _ =>
      firstn batch_size documentos :: trocear k (skipn batch_size documentos)
  end.

(** [agregar_a_base_vectorial]: the batches handed to [collection.add], in
    order ([None]: an exception leaves the method before the end).  Whether
    the collaborator accepts a batch does not change the ones that follow. *)
Definition agregar_a_base_vectorial (hash : string -> Z)
    (documentos : list Pagina) : option (list Lote) :=
  mapM (armar_lote hash) (trocear (length documentos) documentos).

(** *** The registry of sources *)

Record Fuente := {
  fuente_url : string;
  fuente_nombre : texto;
  fuente_descripcion : texto;
  fuente_categoria : texto;
  fuente_fecha_agregada : string;
  fuente_estado : string;
  fuente_idioma : string
}.

(** The object's fields that the registry and the index record use, and the
    two files behind them ([None]: the file does not exist). *)
Record BaseDatos := {
  sources : list Fuente;
  indexados : gmap string string;
  fuentes_json : option (list Fuente);
  indexados_json : option (gmap string string)
}.

Record Respuesta := {
  exito : bool;
  mensaje : string;
  fuente : option Fuente
}.

(** [_guardar_fuentes] and [_guardar_indexados]; [escribe] tells whether the
    write to disk succeeds (a failure is logged and swallowed). *)
Definition _guardar_fuentes (escribe : bool) (bd : BaseDatos) : BaseDatos :=
  if escribe
  then {| sources := sources bd; indexados := indexados bd;
          fuentes_json := Some (sources bd);
          indexados_json := indexados_json bd |}
  else bd.

Definition _guardar_indexados (escribe : bool) (bd : BaseDatos) : BaseDatos :=
  if escribe
  then {| sources := sources bd; indexados := indexados bd;
          fuentes_json := fuentes_json bd;
          indexados_json := Some (indexados bd) |}
  else bd.

Definition ya_existe (u : string) (l : list Fuente) : bool :=
  existsb (fun f => String.eqb (fuente_url f) u) l.

Definition fallo (msg : string) : Respuesta :=
  {| exito := false; mensaje := msg; fuente := None |}.

(** The URL is the URL of a source of the list. *)
Definition registrada (u : string) (bd : BaseDatos) : Prop :=
  u ∈ fuente_url <$> sources bd.

(** The URL parses to a scheme and a host. *)
Definition tiene_esquema_y_host (u : string) : Prop :=
  exists p, urlparse u = Some p /\ scheme p <> "" /\ netloc p <> "".

(** [agregar_fuente]; [hoy] is the formatted date of the call. *)
Definition agregar_fuente (escribe : bool) (hoy : string)
    (u : string) (nombre descripcion categoria : texto) (idioma : string)
    (bd : BaseDatos) : Respuesta * BaseDatos :=
  match intentar_urlparse u with
  | inl e => (fallo ("Error: " ++ e), bd)
  | inr parsed_url =>
      if String.eqb (scheme parsed_url) "" || String.eqb (netloc parsed_url) ""
      then (fallo "URL inválida", bd)
      else if ya_existe u (sources bd)
      then (fallo "La fuente ya existe", bd)
      else
        let nueva_fuente :=
          {| fuente_url := u;
             fuente_nombre := nombre;
             fuente_descripcion := descripcion;
             fuente_categoria := categoria;
             fuente_fecha_agregada := hoy;
             fuente_estado := "activo";
             fuente_idioma := idioma |} in
        let bd1 :=
          {| sources := (sources bd ++ [nueva_fuente])%list;
             indexados := indexados bd;
             fuentes_json := fuentes_json bd;
             indexados_json := indexados_json bd |} in
        ({| exito := true; mensaje := "Fuente agregada exitosamente";
            fuente := Some nueva_fuente |},
         _guardar_fuentes escribe bd1)
  end.

(** [self.sources.pop(i)] at the first [i] whose source has the URL. *)
Fixpoint quitar_primera (u : string) (l : list Fuente)
  : option (Fuente * list Fuente) :=
  match l with
  | [] => None
  | f :: r =>
      if String.eqb (fuente_url f) u then Some (f, r)
      else match quitar_primera u r with
           | Some (g, r') => Some (g, f :: r')
           | None => None
           end
  end.

Definition eliminar_fuente (escribe_fuentes escribe_indexados : bool)
    (u : string) (bd : BaseDatos) : Respuesta * BaseDatos :=
  match quitar_primera u (sources bd) with
  | Some (_, resto) =>
      let bd1 :=
        _guardar_fuentes escribe_fuentes
          {| sources := resto; indexados := indexados bd;
             fuentes_json := fuentes_json bd;
             indexados_json := indexados_json bd |} in
      let bd2 :=
        match indexados bd1 !! u with
        | Some _ =>
            _guardar_indexados escribe_indexados
              {| sources := sources bd1; indexados := delete u (indexados bd1);
                 fuentes_json := fuentes_json bd1;
                 indexados_json := indexados_json bd1 |}
        | None => bd1
        end in
      ({| exito := true; mensaje := "Fuente eliminada exitosamente";
          fuente := None |}, bd2)
  | None => (fallo "Fuente no encontrada", bd)
  end.

Record ResultadoIndexar := {
  idx_exito : bool;
  idx_documentos_indexados : nat;
  idx_paginas_procesadas : nat;
  idx_mensaje : string;
  idx_url : string
}.

(** [max_paginas] as [indexar_fuente] passes it to the crawl. *)
Definition paginas_pedidas (max_paginas : Z) (profundidad : option Z) : Z :=
  match profundidad with Some p => p | None => max_paginas end.

(** What [indexar_fuente] does once the crawl has returned [documentos];
    [marca] is the formatted clock at that moment.  The third component is
    what was handed to the search collaborator.  The elapsed time of the
    reply is left out. *)
Definition indexar_documentos (hash : string -> Z) (escribe : bool)
    (marca : string) (u : string) (documentos : list Pagina)
    (bd : BaseDatos) : option (ResultadoIndexar * BaseDatos * list Lote) :=
  match documentos with
  | [] =>
      Some ({| idx_exito := false; idx_documentos_indexados := O;
               idx_paginas_procesadas := O;
               idx_mensaje := "No se pudo indexar el sitio";
               idx_url := u |}, bd, [])
  | _ =>
      match agregar_a_base_vectorial hash documentos with
      | None => None
      | Some lotes =>
          let bd1 :=
            {| sources := sources bd;
               indexados := <[u := marca]> (indexados bd);
               fuentes_json := fuentes_json bd;
               indexados_json := indexados_json bd |} in
          Some ({| idx_exito := true;
                   idx_documentos_indexados := length documentos;
                   idx_paginas_procesadas := length documentos;
                   idx_mensaje := "";
                   idx_url := u |},
                _guardar_indexados escribe bd1, lotes)
      end
  end.

(** [indexar_fuente]: a crawl, then the above on what it returned. *)
Definition indexar_fuente (m : Mundo) (hash : string -> Z) (escribe : bool)
    (marca : string) (u : string) (max_paginas : Z) (profundidad : option Z)
    (bd : BaseDatos)
    (salida : option (ResultadoIndexar * BaseDatos * list Lote)) : Prop :=
  exists documentos,
    rastrear_sitio_web m u (paginas_pedidas max_paginas profundidad) documentos
    /\ salida = indexar_documentos hash escribe marca u documentos bd.
(** *** Search *)

(** The reply of [collection.query] to one query text: the first row of
    each of its three tables. *)
Record QueryResult := {
  q_documents : list texto;
  q_metadatas : list Metadata;
  q_distances : list float
}.

Record Resultado := {
  res_titulo : texto;
  res_contenido : texto;
  res_fuente : string;
  res_url : string;
  puntuacion : float
}.

Definition puntos_suspensivos : texto := [0x2E; 0x2E; 0x2E].

(** [doc[:500] + "..." if len(doc) > 500 else doc]. *)
Definition recortar (doc : texto) : texto :=
  if (500 <? length doc)%nat then (firstn 500 doc ++ puntos_suspensivos)%list
  else doc.

(** The body of the [for] of [buscar_en_todos_sitios] from index [i] on;
    [None] when an index is out of range (the [IndexError] that the method
    turns into an empty reply). *)
Fixpoint formatear (r : QueryResult) (i : nat) (documents : list texto)
  : option (list Resultado) :=
  match documents with
  | [] => Some []
  | doc :: resto =>
      match q_metadatas r !! i, q_distances r !! i, formatear r (S i) resto with
      | Some md, Some distance, Some l =>
          Some ({| res_titulo := md_titulo md;
                   res_contenido := recortar doc;
                   res_fuente := md_fuente md;
                   res_url := md_url md;
                   puntuacion := (1 - distance)%float |} :: l)
      | _, _, _ => None
      end
  end.

(** [buscar_en_todos_sitios]; [query] is the collaborator's method ([None]:
    it raises). *)
Definition buscar_en_todos_sitios (query : texto -> Z -> option QueryResult)
    (consulta : texto) (n_resultados : Z) : list Resultado :=
  match query consulta n_resultados with
  | Some r => default [] (formatear r O (q_documents r))
  | None => []
  end.

(** [max(0, x)] for a float [x]. *)
Definition max0 (x : float) : float :=
  if (0 <? x)%float then x else 0%float.

(** The record that [convertir_resultados_chromadb] of [app.py] builds for
    one document. *)
Record ResultadoApp := {
  app_contenido : texto;
  app_titulo : texto;
  app_url : string;
  app_fuente : string;
  app_idioma : string;
  app_categoria : string;
  app_descripcion : texto;
  app_ultima_actualizacion : string;
  app_puntuacion : float
}.

Definition sin_titulo : texto :=
  (texto_de_cadena "Sin t" ++ [0xED] ++ texto_de_cadena "tulo")%list.

(** The [for] of [convertir_resultados_chromadb] from index [i] on: a
    missing metadata record or distance is replaced by a default.  The
    records the program stores hold no category. *)
Fixpoint convertir_desde (r : QueryResult) (i : nat) (documents : list texto)
  : list ResultadoApp :=
  match documents with
  | [] => []
  | doc :: resto =>
      let metadata := q_metadatas r !! i in
      let distance := default 1%float (q_distances r !! i) in
      {| app_contenido := doc;
         app_titulo := from_option md_titulo sin_titulo metadata;
         app_url := from_option md_url "" metadata;
         app_fuente := from_option md_fuente "Desconocida" metadata;
         app_idioma := from_option md_idioma "es" metadata;
         app_categoria := "General";
         app_descripcion := from_option md_descripcion [] metadata;
         app_ultima_actualizacion :=
           from_option md_ultima_actualizacion "Desconocido" metadata;
         app_puntuacion := max0 (1 - distance)%float |}
      :: convertir_desde r (S i) resto
  end.

(** [convertir_resultados_chromadb]; [None] is an empty reply. *)
Definition convertir_resultados_chromadb (results : option QueryResult)
  : list ResultadoApp :=
  match results with
  | Some r => convertir_desde r O (q_documents r)
  | None => []
  end.

(** *** The interpreter's [hash] of a [str] *)

(** CPython 3.11 hashes an ASCII [str] with SipHash-1-3 over its bytes,
    keyed by the two 64-bit words of the process's hash secret; the secret
    is drawn at start-up ([PYTHONHASHSEED=0] makes it zero, [PYTHONHASHSEED=n]
    derives it from [n]). *)
Module SipHash.
Local Open Scope Z_scope.

Definition m64 (x : Z) : Z := x mod 2 ^ 64.
Definition rotl (x b : Z) : Z :=
  m64 (Z.lor (Z.shiftl x b) (Z.shiftr x (64 - b))).

Definition v4 : Type := (Z * Z * Z * Z)%type.

Definition half_round (a b c d s t : Z) : v4 :=
  let a := m64 (a + b) in
  let c := m64 (c + d) in
  let b := Z.lxor (rotl b s) a in
  let d := Z.lxor (rotl d t) c in
  let a := rotl a 32 in
  (a, b, c, d).

Definition single_round (v : v4) : v4 :=
  let '(v0, v1, v2, v3) := v in
  let '(v0, v1, v2, v3) := half_round v0 v1 v2 v3 13 16 in
  let '(v2, v1, v0, v3) := half_round v2 v1 v0 v3 17 21 in
  (v0, v1, v2, v3).

(** A little-endian word of up to eight bytes. *)
Fixpoint le_word (bs : list Z) : Z :=
  match bs with
  | [] => 0
  | b :: r => b + 256 * le_word r
  end.

Definition absorber (v : v4) (mi : Z) : v4 :=
  let '(v0, v1, v2, v3) := v in
  let '(v0, v1, v2, v3) := single_round (v0, v1, v2, Z.lxor v3 mi) in
  (Z.lxor v0 mi, v1, v2, v3).

(** The loop over whole words, then the tail; [n] bounds the number of
    words. *)
Fixpoint bloques (n : nat) (v : v4) (bs : list Z) : v4 * list Z :=
  match n with
  | O => (v, bs)
  | S k =>
      if (8 <=? length bs)%nat
      then bloques k (absorber v (le_word (firstn 8 bs))) (skipn 8 bs)
      else (v, bs)
  end.

Definition siphash13 (k0 k1 : Z) (bs : list Z) : Z :=
  let b := m64 (Z.shiftl (Z.of_nat (length bs)) 56) in
  let v := (Z.lxor k0 0x736f6d6570736575, Z.lxor k1 0x646f72616e646f6d,
            Z.lxor k0 0x6c7967656e657261, Z.lxor k1 0x7465646279746573) in
  let '(v, cola) := bloques (length bs) v bs in
  let b := Z.lor b (le_word cola) in
  let '(v0, v1, v2, v3) := absorber v b in
  let v2 := Z.lxor v2 0xff in
  let '(v0, v1, v2, v3) :=
    single_round (single_round (single_round (v0, v1, v2, v3))) in
  Z.lxor (Z.lxor v0 v1) (Z.lxor v2 v3).

(** [lcg_urandom]: the bytes of the secret for [PYTHONHASHSEED=n]. *)
Fixpoint lcg_urandom (n : nat) (x : Z) : list Z :=
  match n with
  | O => []
  | S k =>
      let x := (x * 214013 + 2531011) mod 2 ^ 32 in
      Z.land (Z.shiftr x 16) 0xff :: lcg_urandom k x
  end.

(** The key for a given [PYTHONHASHSEED]. *)
Definition clave (seed : Z) : Z * Z :=
  if seed =? 0 then (0, 0)
  else
    let bs := lcg_urandom 16 seed in
    (le_word (firstn 8 bs), le_word (skipn 8 bs)).

(** [hash(s)] for an ASCII [s]: the word read as a signed [Py_hash_t],
    with [-1] reserved. *)
Definition hash (k : Z * Z) (s : string) : Z :=
  match s with
  | EmptyString => 0
  | _ =>
      let bs := List.map (fun c => Z.of_N (N_of_ascii c)) (list_ascii_of_string s) in
      let x := siphash13 (fst k) (snd k) bs in
      let x := if 2 ^ 63 <=? x then x - 2 ^ 64 else x in
      if x =? -1 then -2 else x
  end.
End SipHash.

(** *** A sample site *)

Definition veinte_palabras : texto :=
  texto_de_cadena
    ("uno dos tres cuatro cinco seis siete ocho nueve diez "
     ++ "once doce trece catorce quince dieciseis diecisiete "
     ++ "dieciocho diecinueve veinte").

Definition url_portada : string := "https://docs.python.org/es/3/".
Definition url_tutorial : string := "https://docs.python.org/es/3/tutorial/".
Definition url_breve : string := "https://docs.python.org/es/3/breve".

(** The front page, with a body of twenty words and three links. *)
Definition sopa_portada : Soup :=
  {| title := Some (Some (texto_de_cadena "Portada"));
     select_one := fun _ => None;
     body := Some veinte_palabras;
     meta_description := None;
     anchors := [url_tutorial; "https://docs.python.org/es/3/breve#inicio";
                 "https://www.python.org/"] |}.

Definition sopa_tutorial : Soup :=
  {| title := None;
     select_one := fun sel =>
       if String.eqb sel "main" then Some veinte_palabras else None;
     body := Some [];
     meta_description := Some None;
     anchors := [url_portada] |}.

(** A page of two words. *)
Definition sopa_breve : Soup :=
  {| title := Some None;
     select_one := fun _ => None;
     body := Some (texto_de_cadena "Hola mundo");
     meta_description := None;
     anchors := [] |}.

(** The site answers every request the same way; its pages hold absolute
    links only, which [urljoin] gives back as they are. *)
Definition mundo_ejemplo : Mundo :=
  {| nfkc := nfkc_latin1;
     urljoin := fun _ href => Some href;
     red := fun _ u =>
       if String.eqb u url_portada then Some sopa_portada
       else if String.eqb u url_tutorial then Some sopa_tutorial
       else if String.eqb u url_breve then Some sopa_breve
       else None;
     ahora := fun _ => "2024-05-01 12:00:00" |}.

(** A reply of the collaborator with one document at distance 1.5. *)
Definition metadata_portada : Metadata :=
  {| md_url := url_portada;
     md_titulo := texto_de_cadena "Portada";
     md_fuente := "docs.python.org";
     md_descripcion := [];
     md_ultima_actualizacion := "2024-05-01 12:00:00";
     md_idioma := "es" |}.

Definition respuesta_lejana : QueryResult :=
  {| q_documents := [veinte_palabras];
     q_metadatas := [metadata_portada];
     q_distances := [1.5%float] |}.

Definition pagina_portada : Pagina :=
  {| url := url_portada;
     titulo := texto_de_cadena "Portada";
     contenido := veinte_palabras;
     descripcion := [];
     ultima_actualizacion := "2024-05-01 12:00:00" |}.

Definition fuente_python : Fuente :=
  {| fuente_url := url_portada;
     fuente_nombre := texto_de_cadena "Python";
     fuente_descripcion := [];
     fuente_categoria := texto_de_cadena "Python";
     fuente_fecha_agregada := "2024-05-01";
     fuente_estado := "activo";
     fuente_idioma := "es" |}.

(** A registry with one source, indexed once, both files written. *)
Definition bd_ejemplo : BaseDatos :=
  {| sources := [fuente_python];
     indexados := {[url_portada := "2024-05-01 12:00:00"]};
     fuentes_json := Some [fuente_python];
     indexados_json := Some {[url_portada := "2024-05-01 12:00:00"]} |}.

(** *** Updating a source *)

(** One keyword argument of [actualizar_fuente]: a value for one of the
    five fields it may set, or a keyword [campo] of another name, whose
    value plays no part. *)
Inductive Cambio :=
| CambioNombre (valor : texto)
| CambioDescripcion (valor : texto)
| CambioCategoria (valor : texto)
| CambioEstado (valor : string)
| CambioIdioma (valor : string)
| CambioOtro (campo : string).

Definition campo_de (c : Cambio) : string :=
  match c with
  | CambioNombre _ => "nombre"
  | CambioDescripcion _ => "descripcion"
  | CambioCategoria _ => "categoria"
  | CambioEstado _ => "estado"
  | CambioIdioma _ => "idioma"
  | CambioOtro campo => campo
  end.

Definition campos_permitidos : list string :=
  ["nombre"; "descripcion"; "categoria"; "estado"; "idioma"].

(** [fuente[campo] = valor]. *)
Definition poner_campo (f : Fuente) (c : Cambio) : Fuente :=
  match c with
  | CambioNombre v =>
      {| fuente_url := fuente_url f; fuente_nombre := v;
         fuente_descripcion := fuente_descripcion f;
         fuente_categoria := fuente_categoria f;
         fuente_fecha_agregada := fuente_fecha_agregada f;
         fuente_estado := fuente_estado f; fuente_idioma := fuente_idioma f |}
  | CambioDescripcion v =>
      {| fuente_url := fuente_url f; fuente_nombre := fuente_nombre f;
         fuente_descripcion := v;
         fuente_categoria := fuente_categoria f;
         fuente_fecha_agregada := fuente_fecha_agregada f;
         fuente_estado := fuente_estado f; fuente_idioma := fuente_idioma f |}
  | CambioCategoria v =>
      {| fuente_url := fuente_url f; fuente_nombre := fuente_nombre f;
         fuente_descripcion := fuente_descripcion f;
         fuente_categoria := v;
         fuente_fecha_agregada := fuente_fecha_agregada f;
         fuente_estado := fuente_estado f; fuente_idioma := fuente_idioma f |}
  | CambioEstado v =>
      {| fuente_url := fuente_url f; fuente_nombre := fuente_nombre f;
         fuente_descripcion := fuente_descripcion f;
         fuente_categoria := fuente_categoria f;
         fuente_fecha_agregada := fuente_fecha_agregada f;
         fuente_estado := v; fuente_idioma := fuente_idioma f |}
  | CambioIdioma v =>
      {| fuente_url := fuente_url f; fuente_nombre := fuente_nombre f;
         fuente_descripcion := fuente_descripcion f;
         fuente_categoria := fuente_categoria f;
         fuente_fecha_agregada := fuente_fecha_agregada f;
         fuente_estado := fuente_estado f; fuente_idioma := v |}
  | CambioOtro _ => f
  end.

(** [for campo, valor in kwargs.items(): if campo in campos_permitidos:
    fuente[campo] = valor]. *)
Definition aplicar_cambios (kwargs : list Cambio) (f : Fuente) : Fuente :=
  fold_left
    (fun f c => if en_lista (campo_de c) campos_permitidos
                then poner_campo f c else f)
    kwargs f.

(** The first source with the URL, changed in place. *)
Fixpoint actualizar_primera (u : string) (kwargs : list Cambio)
    (l : list Fuente) : option (Fuente * list Fuente) :=
  match l with
  | [] => None
  | f :: r =>
      if String.eqb (fuente_url f) u
      then let f' := aplicar_cambios kwargs f in Some (f', f' :: r)
      else match actualizar_primera u kwargs r with
           | Some (g, r') => Some (g, f :: r')
           | None => None
           end
  end.

Definition actualizar_fuente (escribe : bool) (u : string)
    (kwargs : list Cambio) (bd : BaseDatos) : Respuesta * BaseDatos :=
  match actualizar_primera u kwargs (sources bd) with
  | Some (f, l) =>
      ({| exito := true; mensaje := "Fuente actualizada exitosamente";
          fuente := Some f |},
       _guardar_fuentes escribe
         {| sources := l; indexados := indexados bd;
            fuentes_json := fuentes_json bd;
            indexados_json := indexados_json bd |})
  | None => (fallo "Fuente no encontrada", bd)
  end.

(** *** Loading the two files *)

Definition nombre_por_defecto : texto :=
  (texto_de_cadena "Documentaci" ++ [0xF3]
   ++ texto_de_cadena "n Python (Espa" ++ [0xF1] ++ texto_de_cadena "ol)")%list.

Definition descripcion_por_defecto : texto :=
  (texto_de_cadena "Documentaci" ++ [0xF3]
   ++ texto_de_cadena "n oficial de Python en espa" ++ [0xF1]
   ++ texto_de_cadena "ol")%list.

Definition fuente_por_defecto (hoy : string) : Fuente :=
  {| fuente_url := "https://docs.python.org/es/3/";
     fuente_nombre := nombre_por_defecto;
     fuente_descripcion := descripcion_por_defecto;
     fuente_categoria := texto_de_cadena "Python";
     fuente_fecha_agregada := hoy;
     fuente_estado := "activo";
     fuente_idioma := "es" |}.

(** [_cargar_fuentes] and [_cargar_indexados]: the content of the file, or
    the default when the file is absent or cannot be read ([None]). *)
Definition _cargar_fuentes (hoy : string) (archivo : option (list Fuente))
  : list Fuente :=
  match archivo with
  | Some l => l
  | None => [fuente_por_defecto hoy]
  end.

Definition _cargar_indexados (archivo : option (gmap string string))
  : gmap string string :=
  match archivo with
  | Some d => d
  | None => ∅
  end.

(** What [__init__] reads from the two files. *)
Definition iniciar (hoy : string) (archivo_fuentes : option (list Fuente))
    (archivo_indexados : option (gmap string string)) : BaseDatos :=
  {| sources := _cargar_fuentes hoy archivo_fuentes;
     indexados := _cargar_indexados archivo_indexados;
     fuentes_json := archivo_fuentes;
     indexados_json := archivo_indexados |}.

(** A new object started on the files of [bd] would hold what [bd] holds. *)
Definition coherente (hoy : string) (bd : BaseDatos) : Prop :=
  _cargar_fuentes hoy (fuentes_json bd) = sources bd
  /\ _cargar_indexados (indexados_json bd) = indexados bd.

(** *** Statistics *)

Record Estadisticas := {
  total_fuentes : nat;
  fuentes_activas : nat;
  fuentes_indexadas : nat;
  documentos_total : Z;
  categorias : gmap texto nat;
  idiomas : gmap string nat;
  est_ultima_actualizacion : string
}.

(** [for k in claves: d[k] = d.get(k, 0) + 1]. *)
Definition contar `{Countable K} (claves : list K) : gmap K nat :=
  fold_left (fun d k => <[k := (default O (d !! k) + 1)%nat]> d) claves ∅.

(** [sum(d.values())]. *)
Definition suma_valores `{Countable K} (d : gmap K nat) : nat :=
  map_fold (fun _ n acc => (n + acc)%nat) O d.

Definition es_activa (f : Fuente) : bool := String.eqb (fuente_estado f) "activo".

(** [obtener_estadisticas]; [count] is [collection.count()] ([None]: it
    raises, and the total is reported as 0). *)
Definition obtener_estadisticas (count : option Z) (marca : string)
    (bd : BaseDatos) : Estadisticas :=
  {| total_fuentes := length (sources bd);
     fuentes_activas := length (List.filter es_activa (sources bd));
     fuentes_indexadas := size (indexados bd);
     documentos_total := default 0%Z count;
     categorias := contar (fuente_categoria <$> sources bd);
     idiomas := contar (fuente_idioma <$> sources bd);
     est_ultima_actualizacion := marca |}.

(** *** Indexing every source *)

(** [str(e)] for the exception that leaves [agregar_a_base_vectorial]: the
    [ValueError] of [urlparse] on the first document whose URL it rejects. *)
Definition error_de_documentos (documentos : list Pagina) : option string :=
  head (omap (fun doc => error_de_urlparse (url doc)) documentos).

(** A call of [indexar_fuente] as its callers see it: the reply, or the
    message [str(e)] of the exception that leaves it, raised by [urlparse]
    on the seed URL when the crawl starts or on a document's URL during
    ingestion. *)
Definition llamar_indexar_fuente (m : Mundo) (hash : string -> Z)
    (escribe : bool) (marca : string) (u : string) (max_paginas : Z)
    (profundidad : option Z) (bd : BaseDatos)
    (salida : string + ResultadoIndexar * BaseDatos * list Lote) : Prop :=
  (exists e, error_de_urlparse u = Some e /\ salida = inl e)
  \/ exists documentos,
       rastrear_sitio_web m u (paginas_pedidas max_paginas profundidad)
         documentos
       /\ match indexar_documentos hash escribe marca u documentos bd with
          | Some respuesta => salida = inr respuesta
          | None =>
              exists e, error_de_documentos documentos = Some e
                        /\ salida = inl e
          end.

Record Detalle := {
  det_fuente : texto;
  det_documentos : nat;
  det_estado : string;
  det_error : option string
}.

(** The reply of [indexar_todas_fuentes], the times left out. *)
Record Resumen := {
  res_total_fuentes : nat;
  exitosas : nat;
  fallidas : nat;
  total_documentos : nat;
  detalles : list Detalle
}.

(** The body of the [for] once the call for source [f] has ended with
    [salida]: the state to go on with and the updated tallies. *)
Definition anotar (f : Fuente) (bd : BaseDatos)
    (salida : string + ResultadoIndexar * BaseDatos * list Lote)
    (r : Resumen) : BaseDatos * Resumen :=
  match salida with
  | inr (result, bd', _) =>
      if idx_exito result then
        (bd',
         {| res_total_fuentes := res_total_fuentes r;
            exitosas := S (exitosas r);
            fallidas := fallidas r;
            total_documentos :=
              (total_documentos r + idx_documentos_indexados result)%nat;
            detalles :=
              (detalles r
               ++ [{| det_fuente := fuente_nombre f;
                      det_documentos := idx_documentos_indexados result;
                      det_estado := "exitoso"; det_error := None |}])%list |})
      else
        (bd',
         {| res_total_fuentes := res_total_fuentes r;
            exitosas := exitosas r;
            fallidas := S (fallidas r);
            total_documentos := total_documentos r;
            detalles :=
              (detalles r
               ++ [{| det_fuente := fuente_nombre f;
                      det_documentos := O;
                      det_estado := "fallido";
                      det_error := Some (idx_mensaje result) |}])%list |})
  | inl e =>
      (bd,
       {| res_total_fuentes := res_total_fuentes r;
          exitosas := exitosas r;
          fallidas := S (fallidas r);
          total_documentos := total_documentos r;
          detalles :=
            (detalles r
             ++ [{| det_fuente := fuente_nombre f;
                    det_documentos := O;
                    det_estado := "error";
                    det_error := Some e |}])%list |})
  end.

(** The [for] of [indexar_todas_fuentes] over the sources still to do, the
    [i]-th of them in the world [mundos i], at the time [marcas i] and with
    the write to disk going as [escrituras i] says.  Every call is made
    with [profundidad=10]. *)
Inductive indexar_lista (mundos : nat -> Mundo) (hash : string -> Z)
    (escrituras : nat -> bool) (marcas : nat -> string)
    (max_paginas_por_sitio : Z)
  : nat -> list Fuente -> BaseDatos -> Resumen -> BaseDatos -> Resumen -> Prop :=
| indexar_lista_fin i bd r :
    indexar_lista mundos hash escrituras marcas max_paginas_por_sitio
      i [] bd r bd r
| indexar_lista_paso i f fs bd r salida bd' r' :
    llamar_indexar_fuente (mundos i) hash (escrituras i) (marcas i)
      (fuente_url f) max_paginas_por_sitio (Some 10%Z) bd salida ->
    indexar_lista mundos hash escrituras marcas max_paginas_por_sitio
      (S i) fs (anotar f bd salida r).1 (anotar f bd salida r).2 bd' r' ->
    indexar_lista mundos hash escrituras marcas max_paginas_por_sitio
      i (f :: fs) bd r bd' r'.

Definition indexar_todas_fuentes (mundos : nat -> Mundo) (hash : string -> Z)
    (escrituras : nat -> bool) (marcas : nat -> string)
    (max_paginas_por_sitio : Z) (bd bd' : BaseDatos) (r : Resumen) : Prop :=
  let fuentes_activas := List.filter es_activa (sources bd) in
  indexar_lista mundos hash escrituras marcas max_paginas_por_sitio O
    fuentes_activas bd
    {| res_total_fuentes := length fuentes_activas; exitosas := O;
       fallidas := O; total_documentos := O; detalles := [] |}
    bd' r.

(** [indexar_fuente_segura] of [app.py]: the reply of [indexar_fuente], or a
    failure in its place when the call raises. *)
Definition indexar_fuente_segura (m : Mundo) (hash : string -> Z)
    (escribe : bool) (marca : string) (u : string) (max_paginas : Z)
    (bd : BaseDatos) (respuesta : ResultadoIndexar) (bd' : BaseDatos) : Prop :=
  exists salida,
    llamar_indexar_fuente m hash escribe marca u max_paginas None bd salida
    /\ match salida with
       | inr (r, bd1, _) => respuesta = r /\ bd' = bd1
       | inl e =>
           respuesta
           = {| idx_exito := false; idx_documentos_indexados := O;
                idx_paginas_procesadas := O;
                idx_mensaje := "Error en indexación: " ++ e;
                idx_url := "" |}
           /\ bd' = bd
       end.

(** *** Guessing the encoding of a response *)

(** Bytes are numbers below 256.  [utf8_valido b]: [b.decode('utf-8')]
    succeeds. *)
Definition es_continuacion (c : N) : bool := ((0x80 <=? c) && (c <=? 0xBF))%N.

Fixpoint utf8_desde (pendientes : nat) (b : list N) : bool :=
  match b with
  | [] => match pendientes with O => true | _ => false end
  | c :: r =>
      match pendientes with
      | S k => es_continuacion c && utf8_desde k r
      | O =>
          if (c <=? 0x7F)%N then utf8_desde O r
          else if ((0xC2 <=? c) && (c <=? 0xDF))%N then utf8_desde 1 r
          else if ((0xE0 <=? c) && (c <=? 0xEF))%N then
            match r with
            | c2 :: r2 =>
                (if (c =? 0xE0)%N then ((0xA0 <=? c2) && (c2 <=? 0xBF))%N
                 else if (c =? 0xED)%N then ((0x80 <=? c2) && (c2 <=? 0x9F))%N
                 else es_continuacion c2)
                && utf8_desde 1 r2
            | [] => false
            end
          else if ((0xF0 <=? c) && (c <=? 0xF4))%N then
            match r with
            | c2 :: r2 =>
                (if (c =? 0xF0)%N then ((0x90 <=? c2) && (c2 <=? 0xBF))%N
                 else if (c =? 0xF4)%N then ((0x80 <=? c2) && (c2 <=? 0x8F))%N
                 else es_continuacion c2)
                && utf8_desde 2 r2
            | [] => false
            end
          else false
      end
  end.

Definition utf8_valido (b : list N) : bool := utf8_desde O b.

(** The bytes that the [windows-1252] codec of Python does not decode. *)
Definition sin_cp1252 (c : N) : bool :=
  ((c =? 0x81) || (c =? 0x8D) || (c =? 0x8F) || (c =? 0x90) || (c =? 0x9D))%N.

(** [b.decode(encoding)] succeeds, for the four encodings the program
    tries. *)
Definition decodifica (encoding : string) (b : list N) : bool :=
  if String.eqb encoding "utf-8" then utf8_valido b
  else if String.eqb encoding "windows-1252"
  then negb (existsb sin_cp1252 b)
  else true.

Definition encodings : list string :=
  ["utf-8"; "latin-1"; "iso-8859-1"; "windows-1252"].

Fixpoint primera_que_decodifica (candidatas : list string) (b : list N)
  : option string :=
  match candidatas with
  | [] => None
  | encoding :: r =>
      if decodifica encoding b then Some encoding
      else primera_que_decodifica r b
  end.

(** [_detectar_codificacion]; [detect] is [chardet.detect], giving the
    encoding (which can be [None]) and the confidence, or raising
    ([None]); the threshold is 0.8 as a binary64 number.  The result is the
    name returned, or Python's [None]. *)
Definition _detectar_codificacion
    (detect : list N -> option (option string * float))
    (response_content : list N) : option string :=
  match detect response_content with
  | None => Some "utf-8"
  | Some (encoding, confidence) =>
      if (0x1.999999999999ap-1 <? confidence)%float then encoding
      else
        match primera_que_decodifica encodings response_content with
        | Some e => Some e
        | None => Some "utf-8"
        end
  end.

(** *** More sample data *)

Definition fuente_inactiva : Fuente :=
  {| fuente_url := "https://example.org/docs/";
     fuente_nombre := texto_de_cadena "Ejemplo";
     fuente_descripcion := [];
     fuente_categoria := texto_de_cadena "General";
     fuente_fecha_agregada := "2024-05-02";
     fuente_estado := "inactivo";
     fuente_idioma := "en" |}.

Definition bd_dos_fuentes : BaseDatos :=
  {| sources := [fuente_python; fuente_inactiva];
     indexados := ∅;
     fuentes_json := Some [fuente_python; fuente_inactiva];
     indexados_json := None |}.

(** A page whose [article] element holds two words and whose body holds
    twenty, and a site that serves it at every address. *)
Definition sopa_articulo_breve : Soup :=
  {| title := Some (Some (texto_de_cadena "Aviso"));
     select_one := fun sel =>
       if String.eqb sel "article" then Some (texto_de_cadena "Hola mundo")
       else None;
     body := Some veinte_palabras;
     meta_description := None;
     anchors := [] |}.

Definition mundo_articulo : Mundo :=
  {| nfkc := nfkc_latin1;
     urljoin := fun _ href => Some href;
     red := fun _ _ => Some sopa_articulo_breve;
     ahora := fun _ => "2024-05-01 12:00:00" |}.

(** ** Part II. Properties *)

(** *** The models of the library functions, on known values *)

(** [urlparse] on the inputs below, as CPython 3.11 answers. *)
Example urlparse_url_completa :
  urlparse "https://docs.python.org/es/3/"
  = Some {| scheme := "https"; netloc := "docs.python.org"; path := "/es/3/" |}.
Proof. reflexivity. Qed.

Example urlparse_solo_host :
  urlparse "docs.python.org"
  = Some {| scheme := ""; netloc := ""; path := "docs.python.org" |}.
Proof. reflexivity. Qed.

Example urlparse_host_y_puerto :
  urlparse "localhost:8000"
  = Some {| scheme := "localhost"; netloc := ""; path := "8000" |}.
Proof. reflexivity. Qed.

Example urlparse_mayusculas_y_parametros :
  urlparse "HTTP://A.b/c;p?q#f"
  = Some {| scheme := "http"; netloc := "A.b"; path := "/c" |}.
Proof. reflexivity. Qed.

Example urlparse_corchete_suelto : urlparse "http://[::1" = None.
Proof. reflexivity. Qed.

(** A host between brackets has to be an IPv6 or IPvFuture address. *)
Example urlparse_corchetes :
  intentar_urlparse "http://[::1]:8080/x"
  = inr {| scheme := "http"; netloc := "[::1]:8080"; path := "/x" |}
  /\ intentar_urlparse "http://[fe80::1%eth0]/"
     = inr {| scheme := "http"; netloc := "[fe80::1%eth0]"; path := "/" |}
  /\ intentar_urlparse "http://[::ffff:1.2.3.4]/p"
     = inr {| scheme := "http"; netloc := "[::ffff:1.2.3.4]"; path := "/p" |}
  /\ intentar_urlparse "http://[v1.x]/"
     = inr {| scheme := "http"; netloc := "[v1.x]"; path := "/" |}
  /\ intentar_urlparse "http://[abc]/"
     = inl "'abc' does not appear to be an IPv4 or IPv6 address"
  /\ intentar_urlparse "http://[1.2.3.4]/"
     = inl "An IPv4 address cannot be in brackets"
  /\ intentar_urlparse "http://[v1]/" = inl "IPvFuture address is invalid"
  /\ intentar_urlparse "http://a[::1]/" = inl "Invalid IPv6 URL"
  /\ intentar_urlparse "http://[::1" = inl "Invalid IPv6 URL".
Proof. repeat split; vm_compute; reflexivity. Qed.

(** [hash('a')] under [PYTHONHASHSEED=0] and [PYTHONHASHSEED=1]. *)
Example hash_de_a :
  SipHash.hash (SipHash.clave 0) "a" = 4644417185603328019%Z
  /\ SipHash.hash (SipHash.clave 1) "a" = (-3012895188637184397)%Z.
Proof. split; vm_compute; reflexivity. Qed.

(** The first element of [correcciones.items()] whose key is a single code
    point, with the value the last spelling of that key gave it. *)
Example correcciones_clave_suelta :
  length correcciones = 59%nat
  /\ correcciones !! 24%nat = Some ([0xC3], [0xD2]).
Proof. split; reflexivity. Qed.

(** Line breaks are control characters: they are deleted before the
    whitespace is collapsed, and the words around them join. *)
Example _limpiar_texto_salto_de_linea :
  _limpiar_texto nfkc_latin1
    (texto_de_cadena "uno" ++ [0x0A] ++ texto_de_cadena "dos  tres ")%list
  = texto_de_cadena "unodos tres".
Proof. vm_compute. reflexivity. Qed.

(** *** The text normaliser *)

Lemma replace_sin_ocurrencia mal bien t :
  ocurre mal t = false -> replace mal bien t = t.
Proof.
  unfold replace. induction t as [|c r IH]; simpl; [done|].
  intros [Hp Ho]%orb_false_iff. rewrite Hp. f_equal. by apply IH.
Qed.

Lemma aplicar_sin_ocurrencia (tabla : list (texto * texto)) t :
  Forall (fun kv => ocurre (fst kv) t = false) tabla ->
  aplicar_correcciones tabla t = t.
Proof.
  unfold aplicar_correcciones. induction 1 as [|kv tabla Hkv _ IH]; simpl; [done|].
  by rewrite replace_sin_ocurrencia.
Qed.

Lemma sin_mojibake_Forall t :
  sin_mojibake t = true ->
  Forall (fun kv => ocurre (fst kv) t = false) correcciones.
Proof.
  unfold sin_mojibake. rewrite forallb_forall, Forall_forall.
  intros H kv Hin. apply negb_true_iff, H. by apply list_elem_of_In.
Qed.

Lemma colapsar_length b t : (length (colapsar b t) <= length t)%nat.
Proof.
  revert b. induction t as [|c r IH]; intros b; simpl; [done|].
  pose proof (IH true). pose proof (IH false).
  destruct (es_espacio c), b; simpl; lia.
Qed.

(** A second pass of the whitespace collapse changes nothing. *)
Lemma colapsar_idem b t : colapsar b (colapsar b t) = colapsar b t.
Proof.
  revert b. induction t as [|c r IH]; intros b; simpl; [done|].
  destruct (es_espacio c) eqn:Hc.
  - destruct b; simpl; [apply IH|]. by rewrite IH.
  - simpl. rewrite Hc. by rewrite IH.
Qed.

Lemma colapsar_fijo_cabeza b c r :
  colapsar b (c :: r) = c :: r ->
  (es_espacio c = true -> b = false /\ c = 0x20 /\ colapsar true r = r)
  /\ (es_espacio c = false -> colapsar false r = r).
Proof.
  simpl. intros H. split; intros Hc; rewrite Hc in H.
  - destruct b.
    + pose proof (colapsar_length true r) as Hl. rewrite H in Hl. simpl in Hl. lia.
    + by simplify_eq.
  - by simplify_eq.
Qed.

Lemma colapsar_fijo_lstrip b t :
  colapsar b t = t -> colapsar false (lstrip t) = lstrip t.
Proof.
  revert b. induction t as [|c r IH]; intros b H; [done|].
  destruct (colapsar_fijo_cabeza _ _ _ H) as [Hs Hn].
  simpl. destruct (es_espacio c) eqn:Hc.
  - destruct Hs as (_ & _ & Hr); [done|]. by eapply IH.
  - simpl. rewrite Hc. by rewrite Hn.
Qed.

Lemma colapsar_cons b c r :
  colapsar b (c :: r) =
  if es_espacio c
  then (if b then colapsar true r else 0x20 :: colapsar true r)
  else c :: colapsar false r.
Proof. reflexivity. Qed.

Lemma colapsar_fijo_rstrip b t :
  colapsar b t = t -> colapsar b (rstrip t) = rstrip t.
Proof.
  revert b. induction t as [|c r IH]; intros b H; [done|].
  destruct (colapsar_fijo_cabeza _ _ _ H) as [Hs Hn].
  cbn [rstrip]. destruct (es_espacio c) eqn:Hc.
  - destruct Hs as (-> & -> & Hr); [done|].
    specialize (IH _ Hr). destruct (rstrip r) as [|d r'] eqn:Hrs; [done|].
    rewrite colapsar_cons, Hc. by rewrite IH.
  - specialize (IH _ (Hn eq_refl)).
    destruct (rstrip r) as [|d r'] eqn:Hrs; rewrite colapsar_cons, Hc; [done|].
    by rewrite IH.
Qed.

Lemma lstrip_fijo_rstrip t : lstrip t = t -> lstrip (rstrip t) = rstrip t.
Proof.
  destruct t as [|c r]; [done|]. simpl.
  destruct (es_espacio c) eqn:Hc.
  - intros H. assert (length (lstrip r) <= length r)%nat as Hl.
    { clear. induction r as [|d r IH]; simpl; [done|].
      destruct (es_espacio d); simpl; lia. }
    rewrite H in Hl. simpl in Hl. lia.
  - intros _. destruct (rstrip r); simpl; by rewrite Hc.
Qed.

Lemma lstrip_idem t : lstrip (lstrip t) = lstrip t.
Proof.
  induction t as [|c r IH]; simpl; [done|].
  destruct (es_espacio c) eqn:Hc; [done|]. simpl. by rewrite Hc.
Qed.

Lemma rstrip_idem t : rstrip (rstrip t) = rstrip t.
Proof.
  induction t as [|c r IH]; simpl; [done|].
  destruct (rstrip r) as [|d r'] eqn:Hr.
  - destruct (es_espacio c) eqn:Hc; simpl; [done|]. by rewrite Hc.
  - simpl in *. by rewrite IH.
Qed.

Lemma normalizar_espacios_idem t :
  normalizar_espacios (normalizar_espacios t) = normalizar_espacios t.
Proof.
  unfold normalizar_espacios, strip.
  set (u := colapsar false t).
  assert (colapsar false u = u) as Hu by apply colapsar_idem.
  assert (colapsar false (rstrip (lstrip u)) = rstrip (lstrip u)) as ->.
  { apply colapsar_fijo_rstrip. by eapply colapsar_fijo_lstrip. }
  rewrite lstrip_fijo_rstrip by apply lstrip_idem.
  apply rstrip_idem.
Qed.

(** What the last step lets through: code points of its input, and the
    plain space. *)
Lemma colapsar_Forall (P : N -> Prop) b t :
  P 0x20 -> Forall P t -> Forall P (colapsar b t).
Proof.
  intros Hsp Ht. revert b. induction Ht as [|c r Hc _ IH]; intros b; simpl; [done|].
  destruct (es_espacio c), b; auto.
Qed.

Lemma lstrip_Forall (P : N -> Prop) t : Forall P t -> Forall P (lstrip t).
Proof.
  induction 1 as [|c r Hc Hr IH]; simpl; [done|].
  destruct (es_espacio c); auto.
Qed.

Lemma rstrip_Forall (P : N -> Prop) t : Forall P t -> Forall P (rstrip t).
Proof.
  induction 1 as [|c r Hc Hr IH]; simpl; [done|].
  destruct (rstrip r); [destruct (es_espacio c); auto | auto].
Qed.

Lemma normalizar_espacios_Forall (P : N -> Prop) t :
  P 0x20 -> Forall P t -> Forall P (normalizar_espacios t).
Proof.
  intros. by apply rstrip_Forall, lstrip_Forall, colapsar_Forall.
Qed.

Lemma filter_Forall_id (f : N -> bool) t :
  Forall (fun c => f c = true) t -> List.filter f t = t.
Proof.
  induction 1 as [|c r Hc _ IH]; simpl; [done|]. by rewrite Hc, IH.
Qed.

Lemma filter_Forall (f : N -> bool) t :
  Forall (fun c => f c = true) (List.filter f t).
Proof.
  induction t as [|c r IH]; simpl; [done|].
  destruct (f c) eqn:Hc; auto.
Qed.

Lemma filter_Forall_keep (P : N -> Prop) (f : N -> bool) t :
  Forall P t -> Forall P (List.filter f t).
Proof.
  induction 1 as [|c r Hc _ IH]; simpl; [done|]. destruct (f c); auto.
Qed.

(** The normaliser fixes a text that holds no key of the table, that NFKC
    leaves alone, and that came out of the normaliser's last two steps. *)
Lemma _limpiar_texto_fijo nfkc t :
  sin_mojibake (normalizar_espacios (quitar_reemplazo (quitar_controles t))) = true ->
  nfkc (normalizar_espacios (quitar_reemplazo (quitar_controles t)))
  = normalizar_espacios (quitar_reemplazo (quitar_controles t)) ->
  _limpiar_texto nfkc (normalizar_espacios (quitar_reemplazo (quitar_controles t)))
  = normalizar_espacios (quitar_reemplazo (quitar_controles t)).
Proof.
  set (y := normalizar_espacios _). intros Hm Hn.
  unfold _limpiar_texto. destruct y as [|c r] eqn:Hy; [done|]. rewrite <- Hy in *.
  rewrite aplicar_sin_ocurrencia by by apply sin_mojibake_Forall.
  rewrite Hn.
  assert (quitar_controles y = y) as ->.
  { apply filter_Forall_id. subst y. apply normalizar_espacios_Forall; [done|].
    apply filter_Forall_keep, filter_Forall. }
  assert (quitar_reemplazo y = y) as ->.
  { apply filter_Forall_id. subst y. apply normalizar_espacios_Forall; [done|].
    apply filter_Forall. }
  subst y. apply normalizar_espacios_idem.
Qed.

(** C4, as stated, fails: one pass over the doubly mis-decoded
    inverted exclamation mark leaves a text that a second pass changes again. *)
Lemma limpiar_texto_no_idempotente :
  _limpiar_texto nfkc_latin1 [0xC2; 0xC2; 0xA1] = [0xC2; 0xA1]
  /\ _limpiar_texto nfkc_latin1 (_limpiar_texto nfkc_latin1 [0xC2; 0xC2; 0xA1])
     = [0xA1].
Proof. split; vm_compute; reflexivity. Qed.

(** C4, amended: a second pass of [_limpiar_texto] changes nothing whenever
    the result of the first holds no key of the correction table and is
    left alone by the NFKC normalisation. *)
Theorem limpiar_texto_idempotente_sin_mojibake (nfkc : texto -> texto) (x : texto) :
  sin_mojibake (_limpiar_texto nfkc x) = true ->
  nfkc (_limpiar_texto nfkc x) = _limpiar_texto nfkc x ->
  _limpiar_texto nfkc (_limpiar_texto nfkc x) = _limpiar_texto nfkc x.
Proof.
  destruct x as [|c r]; [done|].
  unfold _limpiar_texto at 1 2 4 5.
  cbv zeta. apply _limpiar_texto_fijo.
Qed.

Lemma limpiar_texto_idempotente_ejemplo :
  let x := texto_de_cadena "  Hola,   mundo " in
  _limpiar_texto nfkc_latin1 x = texto_de_cadena "Hola, mundo"
  /\ _limpiar_texto nfkc_latin1 (_limpiar_texto nfkc_latin1 x)
     = _limpiar_texto nfkc_latin1 x.
Proof.
  split; [vm_compute; reflexivity|].
  apply (limpiar_texto_idempotente_sin_mojibake nfkc_latin1
           (texto_de_cadena "  Hola,   mundo ")); vm_compute; reflexivity.
Defined.

(** *** The correction table *)

Lemma correcciones_euro_primero_perm :
  Permutation correcciones_euro_primero correcciones.
Proof.
  unfold correcciones_euro_primero.
  rewrite <- (firstn_skipn 31 correcciones) at 3.
  apply Permutation_middle.
Qed.

(** C5, as stated, fails: the output of the entry for the mis-decoded
    [a] with circumflex starts the key of the entry for the mis-decoded
    euro sign, so the program's order turns the text below into the euro
    sign and the order with the euro entry first does not; and the key of
    one entry is a prefix of another's. *)
Lemma correcciones_dependen_del_orden :
  Permutation correcciones_euro_primero correcciones
  /\ aplicar_correcciones correcciones [0xC3; 0xA2; 0x201A; 0xAC] = [0x20AC]
  /\ aplicar_correcciones correcciones_euro_primero [0xC3; 0xA2; 0x201A; 0xAC]
     = [0xE2; 0x201A; 0xAC]
  /\ ([0xC3], [0xD2]) ∈ correcciones
  /\ ([0xC3; 0xA1], [0xE1]) ∈ correcciones
  /\ es_prefijo [0xC3] [0xC3; 0xA1] = true.
Proof.
  split; [apply correcciones_euro_primero_perm|].
  split; [vm_compute; reflexivity|].
  split; [vm_compute; reflexivity|].
  split; [|split; [|reflexivity]]; apply list_elem_of_In; vm_compute; tauto.
Qed.

Section Permutaciones.
Context {E T : Type} (op : T -> E -> T) (I : list E -> T -> Prop).
Context (I_perm : forall l l' t, Permutation l l' -> I l t -> I l' t).
Context (I_paso : forall e l t, I (e :: l) t -> I l (op t e)).
Context (I_conmuta : forall e1 e2 l t,
           I (e1 :: e2 :: l) t -> op (op t e1) e2 = op (op t e2) e1).

(** Operations that commute two by two as long as an invariant of the
    operations still to come holds give the same result in any order. *)
Lemma fold_left_permutacion (l1 l2 : list E) :
  Permutation l1 l2 ->
  forall t, I l1 t -> fold_left op l1 t = fold_left op l2 t.
Proof.
  induction 1 as [|x l l' Hp IH|x y l|l l' l'' Hp1 IH1 Hp2 IH2]; intros t Ht.
  - done.
  - simpl. apply IH. by apply I_paso.
  - simpl. f_equal. by apply (I_conmuta y x l).
  - rewrite IH1 by done. apply IH2. by apply (I_perm l).
Qed.
End Permutaciones.

(** *** One replacement *)

Lemma replace_desde_uno mal bien t :
  replace_desde mal bien 1 t = replace_desde mal bien 0 (tail t).
Proof. by destruct t. Qed.

Section DosCaracteres.
Context (a x : N) (Hax : a <> x).

Lemma replace_sin_a_ante t : replace [a; x] [x] t = sin_a_ante a x t.
Proof.
  unfold replace.
  assert (replace_desde [a; x] [x] 0 t = sin_a_ante a x t
          /\ replace_desde [a; x] [x] 1 t = sin_a_ante a x (tail t)) as [H _];
    [|done].
  induction t as [|c r [IH0 IH1]]; [done|].
  split; [|by simpl].
  cbn [replace_desde es_prefijo length pred sin_a_ante].
  destruct (N.eqb_spec a c) as [<-|Hc].
  - rewrite N.eqb_refl. cbn [andb].
    destruct r as [|d r']; [done|]. cbn [es_prefijo head].
    destruct (N.eqb_spec x d) as [<-|Hd].
    + rewrite bool_decide_eq_true_2 by done. cbn [andb app].
      rewrite IH1. cbn [tail sin_a_ante].
      destruct (N.eqb_spec x a) as [?|_]; [congruence|]. done.
    + rewrite bool_decide_eq_false_2 by congruence. cbn [andb].
      by rewrite IH0.
  - destruct (N.eqb_spec c a) as [?|_]; [congruence|]. cbn [andb].
    by rewrite IH0.
Qed.

Lemma sin_a_ante_cons c r :
  c <> a -> sin_a_ante a x (c :: r) = c :: sin_a_ante a x r.
Proof. intros Hc. simpl. by destruct (N.eqb_spec c a). Qed.

Lemma sin_a_ante_a r :
  sin_a_ante a x (a :: r)
  = if bool_decide (head r = Some x) then sin_a_ante a x r
    else a :: sin_a_ante a x r.
Proof. simpl. by rewrite N.eqb_refl. Qed.

(** The first character after the pass is the first before it, unless the
    text starts with [a]. *)
Lemma head_sin_a_ante r :
  head r <> Some a -> head (sin_a_ante a x r) = head r.
Proof.
  destruct r as [|c r]; [done|]. intros Hc.
  rewrite sin_a_ante_cons; [done|]. intros ->. done.
Qed.

Lemma head_sin_a_ante_otro r y :
  y <> a -> y <> x ->
  head (sin_a_ante a x r) = Some y <-> head r = Some y.
Proof.
  intros Hya Hyx. destruct r as [|c r]; [done|].
  destruct (N.eqb_spec c a) as [->|Hc].
  - rewrite sin_a_ante_a. case_bool_decide as Hh.
    + destruct r as [|d r]; [done|]. simpl in Hh. injection Hh as ->.
      rewrite sin_a_ante_cons by done. simpl. split; intros [= ?]; congruence.
    + simpl. done.
  - rewrite sin_a_ante_cons by done. done.
Qed.

End DosCaracteres.

Lemma sin_a_ante_conmutan (a x x' : N) (t : texto) :
  a <> x -> a <> x' -> x <> x' ->
  sin_a_ante a x (sin_a_ante a x' t) = sin_a_ante a x' (sin_a_ante a x t).
Proof.
  intros Hax Hax' Hxx'. induction t as [|c r IH]; [done|].
  destruct (N.eqb_spec c a) as [->|Hc].
  2: { rewrite !sin_a_ante_cons by done. by rewrite IH. }
  rewrite (sin_a_ante_a a x' r), (sin_a_ante_a a x r).
  destruct (bool_decide (head r = Some x')) eqn:H1;
    destruct (bool_decide (head r = Some x)) eqn:H2.
  - apply bool_decide_eq_true in H1, H2. congruence.
  - apply bool_decide_eq_true in H1.
    rewrite sin_a_ante_a.
    rewrite bool_decide_eq_true_2; [done|].
    apply head_sin_a_ante_otro; [done|intros ->; done|intros ->; done|done].
  - apply bool_decide_eq_true in H2.
    rewrite sin_a_ante_a.
    rewrite bool_decide_eq_true_2; [done|].
    apply head_sin_a_ante_otro; [done|intros ->; done|intros ->; done|done].
  - apply bool_decide_eq_false in H1, H2.
    rewrite !sin_a_ante_a.
    rewrite !bool_decide_eq_false_2; [by rewrite IH| |].
    + intros H. apply H1.
      apply (head_sin_a_ante_otro a x Hax r x') in H; [done|congruence..].
    + intros H. apply H2.
      apply (head_sin_a_ante_otro a x' Hax' r x) in H; [done|congruence..].
Qed.

(** *** A pass of the first kind and a replacement on other characters *)

Lemma es_prefijo_firstn (k t : texto) :
  es_prefijo k t = true -> firstn (length k) t = k.
Proof.
  revert t. induction k as [|c k IH]; intros [|d t]; simpl; try done.
  intros [Hc Hk]%andb_true_iff. apply N.eqb_eq in Hc as ->.
  by rewrite IH.
Qed.

Section OtrosCaracteres.
Context (a x : N) (Hax : a <> x).
Context (k0 : N) (k : texto) (w : N).
Context (Hk : Forall (fun c => c <> a /\ c <> x) (k0 :: k)).
Context (Hwa : w <> a) (Hwx : w <> x).

Lemma es_prefijo_sin_a_ante (k' t : texto) :
  Forall (fun c => c <> a /\ c <> x) k' ->
  es_prefijo k' (sin_a_ante a x t) = es_prefijo k' t.
Proof.
  intros Hk'. revert t.
  induction Hk' as [|c k' [Hca Hcx] _ IH]; intros t; [by destruct t|].
  destruct t as [|d r]; [done|].
  destruct (N.eqb_spec d a) as [->|Hd].
  - rewrite sin_a_ante_a. cbn [es_prefijo].
    destruct (N.eqb_spec c a) as [?|_]; [done|]. cbn [andb].
    case_bool_decide as Hh.
    + destruct r as [|e r]; [done|]. simpl in Hh. injection Hh as ->.
      rewrite sin_a_ante_cons by done. cbn [es_prefijo].
      by destruct (N.eqb_spec c x).
    + cbn [es_prefijo]. by destruct (N.eqb_spec c a).
  - rewrite sin_a_ante_cons by done. cbn [es_prefijo]. by rewrite IH.
Qed.

Lemma head_replace_desde (r : texto) (y : N) :
  head (replace_desde (k0 :: k) [w] 0 r) = Some y -> y = w \/ head r = Some y.
Proof.
  destruct r as [|c r]; [done|]. cbn [replace_desde].
  destruct (es_prefijo (k0 :: k) (c :: r)); simpl.
  - intros [= <-]. by left.
  - by right.
Qed.

Lemma sin_a_ante_replace_desde (t : texto) (s : nat) :
  Forall (fun c => c <> a) (firstn s t) ->
  replace_desde (k0 :: k) [w] s (sin_a_ante a x t)
  = sin_a_ante a x (replace_desde (k0 :: k) [w] s t).
Proof.
  pose proof Hk as [[Hk0a Hk0x] Hk']%Forall_cons.
  revert s. induction t as [|c r IH]; intros s Hs; [by destruct s|].
  destruct s as [|s].
  - destruct (N.eqb_spec c a) as [->|Hc].
    + assert (es_prefijo (k0 :: k) (a :: r) = false) as Hp.
      { cbn [es_prefijo]. by destruct (N.eqb_spec k0 a). }
      cbn [replace_desde]. rewrite Hp.
      rewrite !sin_a_ante_a. case_bool_decide as Hh.
      * rewrite bool_decide_eq_true_2; [by apply IH|].
        destruct r as [|e r]; [done|]. simpl in Hh. injection Hh as ->.
        cbn [replace_desde es_prefijo].
        by destruct (N.eqb_spec k0 x).
      * rewrite bool_decide_eq_false_2.
        2: { intros [->|H]%head_replace_desde; done. }
        cbn [replace_desde es_prefijo].
        destruct (N.eqb_spec k0 a) as [?|_]; [done|]. cbn [andb].
        f_equal. by apply IH.
    + rewrite sin_a_ante_cons by done. cbn [replace_desde].
      change (es_prefijo (k0 :: k) (c :: sin_a_ante a x r))
        with ((k0 =? c)%N && es_prefijo k (sin_a_ante a x r)).
      rewrite es_prefijo_sin_a_ante by done.
      change ((k0 =? c)%N && es_prefijo k r)
        with (es_prefijo (k0 :: k) (c :: r)).
      destruct (es_prefijo (k0 :: k) (c :: r)) eqn:Hp.
      * cbn [app]. rewrite sin_a_ante_cons by done. f_equal.
        apply IH. cbn [es_prefijo] in Hp.
        apply andb_true_iff in Hp as [_ Hp].
        cbn [length pred]. rewrite (es_prefijo_firstn _ _ Hp).
        eapply Forall_impl; [exact Hk'|]. by intros ? [? _].
      * rewrite sin_a_ante_cons by done. f_equal. by apply IH.
  - cbn [firstn] in Hs. apply Forall_cons in Hs as [Hc Hs].
    rewrite sin_a_ante_cons by done. cbn [replace_desde]. by apply IH.
Qed.

Lemma sin_a_ante_replace (t : texto) :
  replace (k0 :: k) [w] (sin_a_ante a x t)
  = sin_a_ante a x (replace (k0 :: k) [w] t).
Proof. apply sin_a_ante_replace_desde. constructor. Qed.

End OtrosCaracteres.

(** *** The replacement of one character *)

Section UnCaracter.
Context (a b : N).

Lemma replace_un_caracter (t : texto) : replace [a] [b] t = cambiar a b <$> t.
Proof.
  unfold replace. induction t as [|c r IH]; [done|].
  cbn [replace_desde es_prefijo length pred fmap list_fmap]. unfold cambiar at 1.
  rewrite (N.eqb_sym a c), andb_true_r.
  destruct (c =? a)%N; simpl; by rewrite IH.
Qed.

Lemma es_prefijo_cambiar (k t : texto) :
  Forall (fun c => c <> a /\ c <> b) k ->
  es_prefijo k (cambiar a b <$> t) = es_prefijo k t.
Proof.
  intros Hk. revert t.
  induction Hk as [|c k [Hca Hcb] _ IH]; intros t; [by destruct t|].
  destruct t as [|d r]; [done|]. rewrite fmap_cons. cbn [es_prefijo].
  rewrite IH. f_equal.
  unfold cambiar. destruct (N.eqb_spec d a) as [->|Hd]; [|done].
  destruct (N.eqb_spec c b), (N.eqb_spec c a); done.
Qed.

Lemma cambiar_fijo (v : texto) :
  Forall (fun c => c <> a) v -> cambiar a b <$> v = v.
Proof.
  induction 1 as [|d v Hd _ IHv]; [done|].
  rewrite fmap_cons, IHv. f_equal. unfold cambiar. by destruct (N.eqb_spec d a).
Qed.

Lemma replace_desde_cambiar (k v t : texto) (s : nat) :
  Forall (fun c => c <> a /\ c <> b) k ->
  Forall (fun c => c <> a) v ->
  replace_desde k v s (cambiar a b <$> t) = cambiar a b <$> replace_desde k v s t.
Proof.
  intros Hk Hv. revert s. induction t as [|c r IH]; intros s; [by destruct s|].
  destruct s as [|s].
  - rewrite fmap_cons. cbn [replace_desde].
    assert (es_prefijo k (cambiar a b c :: (cambiar a b <$> r)) = es_prefijo k (c :: r))
      as -> by (rewrite <- fmap_cons; by apply es_prefijo_cambiar).
    destruct (es_prefijo k (c :: r)).
    + by rewrite fmap_app, IH, (cambiar_fijo v).
    + by rewrite fmap_cons, IH.
  - rewrite fmap_cons. cbn [replace_desde]. apply IH.
Qed.

Lemma replace_un_caracter_conmuta (k v t : texto) :
  Forall (fun c => c <> a /\ c <> b) k ->
  Forall (fun c => c <> a) v ->
  replace k v (replace [a] [b] t) = replace [a] [b] (replace k v t).
Proof.
  intros Hk Hv. rewrite !replace_un_caracter. by apply replace_desde_cambiar.
Qed.

End UnCaracter.

(** *** The texts on which the order of the table does not matter *)

Lemma es_prefijo_uno (x : N) (r : texto) :
  es_prefijo [x] r = bool_decide (head r = Some x).
Proof.
  destruct r as [|d r]; [done|]. simpl. rewrite andb_true_r.
  destruct (N.eqb_spec x d) as [->|Hd].
  - by rewrite bool_decide_eq_true_2.
  - rewrite bool_decide_eq_false_2; [done|]. by intros [= ->].
Qed.

Lemma a_tilde_suelta_con_sin_a_tilde (q e : bool) (t : texto) :
  Forall (fun c => c <> 0xC3) t -> a_tilde_suelta_con q e t = true.
Proof.
  induction 1 as [|c r Hc _ IH]; [done|]. simpl.
  destruct (N.eqb_spec c 0xC3); [done|]. by rewrite IH.
Qed.

Lemma a_tilde_suelta_con_cambiar (q e : bool) (t : texto) :
  a_tilde_suelta_con q e (cambiar 0xC3 0xD2 <$> t) = true.
Proof.
  apply a_tilde_suelta_con_sin_a_tilde, Forall_fmap, Forall_forall.
  intros c _. simpl. unfold cambiar. by destruct (N.eqb_spec c 0xC3).
Qed.

Lemma es_prefijo_cons (a b : N) (p t : texto) :
  es_prefijo (a :: p) (b :: t) = ((a =? b)%N && es_prefijo p t).
Proof. done. Qed.

Lemma sigue_suelta_cons (q e : bool) (d : N) (r : texto) :
  sigue_suelta q e (d :: r)
  = negb (completa_clave d)
    && negb (q && ((0xC2 =? d)%N && bool_decide (head r = Some 0xBF)))
    && negb (e && ((0xC2 =? d)%N && bool_decide (head r = Some 0xA1))).
Proof.
  unfold sigue_suelta. by rewrite !es_prefijo_cons, !es_prefijo_uno.
Qed.

(** After the pass for the question mark, that mark does not matter any
    more. *)
Lemma sigue_suelta_interrogacion (e : bool) (r : texto) :
  sigue_suelta true e r = true ->
  sigue_suelta false e (sin_a_ante 0xC2 0xBF r) = true.
Proof.
  destruct r as [|d r]; [done|]. rewrite sigue_suelta_cons.
  intros [[Hd Hq]%andb_true_iff He]%andb_true_iff.
  destruct (N.eqb_spec d 0xC2) as [->|Hd2].
  - rewrite N.eqb_refl in Hq, He. cbn [andb] in Hq, He.
    rewrite sin_a_ante_a. apply negb_true_iff in Hq. rewrite Hq.
    rewrite sigue_suelta_cons, Hd, N.eqb_refl. cbn [andb negb].
    destruct e; [|done]. cbn [andb] in *.
    apply negb_true_iff in He. apply negb_true_iff.
    apply bool_decide_eq_false in He. apply bool_decide_eq_false.
    intros H. apply He.
    by apply (head_sin_a_ante_otro 0xC2 0xBF ltac:(done) r 0xA1).
  - rewrite sin_a_ante_cons by done. rewrite sigue_suelta_cons, Hd.
    destruct (N.eqb_spec 0xC2 d) as [?|_]; [congruence|].
    by rewrite !andb_false_r.
Qed.

Lemma sigue_suelta_exclamacion (q : bool) (r : texto) :
  sigue_suelta q true r = true ->
  sigue_suelta q false (sin_a_ante 0xC2 0xA1 r) = true.
Proof.
  destruct r as [|d r]; [done|]. rewrite sigue_suelta_cons.
  intros [[Hd Hq]%andb_true_iff He]%andb_true_iff.
  destruct (N.eqb_spec d 0xC2) as [->|Hd2].
  - rewrite N.eqb_refl in Hq, He. cbn [andb] in Hq, He.
    rewrite sin_a_ante_a. apply negb_true_iff in He. rewrite He.
    rewrite sigue_suelta_cons, Hd, N.eqb_refl. cbn [andb negb].
    rewrite andb_true_r.
    destruct q; [|done]. cbn [andb] in *.
    apply negb_true_iff in Hq. apply negb_true_iff.
    apply bool_decide_eq_false in Hq. apply bool_decide_eq_false.
    intros H. apply Hq.
    by apply (head_sin_a_ante_otro 0xC2 0xA1 ltac:(done) r 0xBF).
  - rewrite sin_a_ante_cons by done. rewrite sigue_suelta_cons, Hd.
    destruct (N.eqb_spec 0xC2 d) as [?|_]; [congruence|].
    by rewrite !andb_false_r.
Qed.

Lemma a_tilde_suelta_con_interrogacion (e : bool) (t : texto) :
  a_tilde_suelta_con true e t = true ->
  a_tilde_suelta_con false e (sin_a_ante 0xC2 0xBF t) = true.
Proof.
  induction t as [|c r IH]; [done|].
  cbn [a_tilde_suelta_con]. intros [Hc Hr]%andb_true_iff.
  destruct (N.eqb_spec c 0xC2) as [->|Hc2].
  - rewrite sin_a_ante_a. case_bool_decide; [by apply IH|].
    cbn [a_tilde_suelta_con]. by rewrite IH.
  - rewrite sin_a_ante_cons by done. cbn [a_tilde_suelta_con].
    rewrite IH by done. rewrite andb_true_r.
    destruct (N.eqb_spec c 0xC3) as [->|_]; [|done]. simpl in Hc. simpl.
    by apply sigue_suelta_interrogacion.
Qed.

Lemma a_tilde_suelta_con_exclamacion (q : bool) (t : texto) :
  a_tilde_suelta_con q true t = true ->
  a_tilde_suelta_con q false (sin_a_ante 0xC2 0xA1 t) = true.
Proof.
  induction t as [|c r IH]; [done|].
  cbn [a_tilde_suelta_con]. intros [Hc Hr]%andb_true_iff.
  destruct (N.eqb_spec c 0xC2) as [->|Hc2].
  - rewrite sin_a_ante_a. case_bool_decide; [by apply IH|].
    cbn [a_tilde_suelta_con]. by rewrite IH.
  - rewrite sin_a_ante_cons by done. cbn [a_tilde_suelta_con].
    rewrite IH by done. rewrite andb_true_r.
    destruct (N.eqb_spec c 0xC3) as [->|_]; [|done]. simpl in Hc. simpl.
    by apply sigue_suelta_exclamacion.
Qed.

(** The pass for the euro sign changes nothing of what follows a
    U+00C3. *)
Lemma sigue_suelta_euro (q e : bool) (r : texto) :
  sigue_suelta q e r = true ->
  sigue_suelta q e (replace_desde [0xE2; 0x201A; 0xAC] [0x20AC] 0 r) = true.
Proof.
  destruct r as [|d r]; [done|]. cbn [replace_desde].
  destruct (es_prefijo [0xE2; 0x201A; 0xAC] (d :: r)) eqn:Hp.
  - intros _. cbn [app]. rewrite sigue_suelta_cons.
    replace (completa_clave 0x20AC) with false by (vm_compute; reflexivity).
    cbn. by rewrite !andb_false_r.
  - rewrite !sigue_suelta_cons.
    intros [[Hd Hq]%andb_true_iff He]%andb_true_iff. rewrite Hd.
    destruct (N.eqb_spec 0xC2 d) as [<-|_]; [|by rewrite !andb_false_r].
    cbn [andb] in *.
    assert (forall y, y <> 0x20AC ->
              bool_decide (head r = Some y) = false ->
              bool_decide
                (head (replace_desde [0xE2; 0x201A; 0xAC] [0x20AC] 0 r)
                 = Some y) = false) as Hh.
    { intros y Hy Hr. apply bool_decide_eq_false in Hr.
      apply bool_decide_eq_false.
      intros [->|H]%head_replace_desde; done. }
    destruct q, e; cbn [andb negb] in *; try done.
    + apply negb_true_iff in Hq, He. by rewrite !Hh.
    + apply negb_true_iff in Hq. by rewrite !Hh.
    + apply negb_true_iff in He. by rewrite !Hh.
Qed.

Lemma a_tilde_suelta_con_euro (q e : bool) (s : nat) (t : texto) :
  a_tilde_suelta_con q e t = true ->
  a_tilde_suelta_con q e (replace_desde [0xE2; 0x201A; 0xAC] [0x20AC] s t)
  = true.
Proof.
  revert s. induction t as [|c r IH]; intros s; [by destruct s|].
  cbn [a_tilde_suelta_con]. intros [Hc Hr]%andb_true_iff.
  destruct s as [|s]; cbn [replace_desde]; [|by apply IH].
  destruct (es_prefijo [0xE2; 0x201A; 0xAC] (c :: r)).
  - cbn [app a_tilde_suelta_con]. by rewrite IH.
  - cbn [a_tilde_suelta_con]. rewrite IH by done. rewrite andb_true_r.
    destruct (N.eqb_spec c 0xC3) as [->|_]; [|done]. simpl in Hc. simpl.
    by apply sigue_suelta_euro.
Qed.

Lemma a_tilde_suelta_con_sin_ocurrencia (q e : bool) (c : N) (t : texto) :
  completa_clave c = true ->
  a_tilde_suelta_con q e t = true -> ocurre [0xC3; c] t = false.
Proof.
  intros Hc. induction t as [|d r IH]; [done|].
  cbn [a_tilde_suelta_con ocurre].
  intros [Hd Hr]%andb_true_iff. rewrite IH by done. rewrite orb_false_r.
  rewrite es_prefijo_cons, es_prefijo_uno.
  destruct (N.eqb_spec 0xC3 d) as [<-|_]; [|done]. simpl in Hd. simpl.
  destruct r as [|f r]; [done|]. rewrite sigue_suelta_cons in Hd.
  apply bool_decide_eq_false. intros [= ->].
  by rewrite Hc in Hd.
Qed.

(** *** The table *)

Lemma correcciones_sin_repetir : NoDup correcciones.
Proof. apply (bool_decide_unpack _). by vm_compute. Qed.

Lemma correcciones_clasificadas :
  Forall (fun kv => entrada_clasificada kv = true) correcciones.
Proof.
  apply Forall_forall. intros kv Hkv%list_elem_of_In. revert kv Hkv.
  apply forallb_forall. vm_compute. reflexivity.
Qed.

Lemma entrada_clasificada_casos (kv : texto * texto) :
  entrada_clasificada kv = true ->
  kv ∈ entradas_activas
  \/ exists c, fst kv = [0xC3; c] /\ completa_clave c = true.
Proof.
  unfold entrada_clasificada. intros [Hkv|Hkv]%orb_true_iff.
  - left. by apply bool_decide_eq_true in Hkv.
  - right. destruct (fst kv) as [|c0 [|c [|? ?]]]; try done.
    apply andb_true_iff in Hkv as [->%N.eqb_eq Hc]. by exists c.
Qed.

Lemma entradas_activas_conmutan (kv1 kv2 : texto * texto) (t : texto) :
  kv1 ∈ entradas_activas -> kv2 ∈ entradas_activas ->
  replace (fst kv2) (snd kv2) (replace (fst kv1) (snd kv1) t)
  = replace (fst kv1) (snd kv1) (replace (fst kv2) (snd kv2) t).
Proof.
  unfold entradas_activas. intros H1 H2.
  repeat (apply elem_of_cons in H1 as [->|H1]);
    [| | | |by apply elem_of_nil in H1];
    (repeat (apply elem_of_cons in H2 as [->|H2]);
       [| | | |by apply elem_of_nil in H2]);
    unfold entrada_a_tilde, entrada_interrogacion, entrada_exclamacion,
      entrada_euro; cbn [fst snd]; try reflexivity.
  - apply replace_un_caracter_conmuta; by repeat constructor.
  - apply replace_un_caracter_conmuta; by repeat constructor.
  - apply replace_un_caracter_conmuta; by repeat constructor.
  - symmetry. apply replace_un_caracter_conmuta; by repeat constructor.
  - rewrite !replace_sin_a_ante by done. by apply sin_a_ante_conmutan.
  - rewrite !replace_sin_a_ante by done.
    apply sin_a_ante_replace; by repeat constructor.
  - symmetry. apply replace_un_caracter_conmuta; by repeat constructor.
  - rewrite !replace_sin_a_ante by done. by apply sin_a_ante_conmutan.
  - rewrite !replace_sin_a_ante by done.
    apply sin_a_ante_replace; by repeat constructor.
  - symmetry. apply replace_un_caracter_conmuta; by repeat constructor.
  - rewrite !replace_sin_a_ante by done. symmetry.
    apply sin_a_ante_replace; by repeat constructor.
  - rewrite !replace_sin_a_ante by done. symmetry.
    apply sin_a_ante_replace; by repeat constructor.
Qed.

Lemma entrada_inerte (q e : bool) (kv : texto * texto) (c : N) (t : texto) :
  fst kv = [0xC3; c] -> completa_clave c = true ->
  a_tilde_suelta_con q e t = true ->
  replace (fst kv) (snd kv) t = t.
Proof.
  intros -> Hc Ht.
  by apply replace_sin_ocurrencia, (a_tilde_suelta_con_sin_ocurrencia q e).
Qed.

Lemma pendiente_otra (x kv : texto * texto) (l : list (texto * texto)) :
  x <> kv -> bool_decide (x ∈ kv :: l) = bool_decide (x ∈ l).
Proof.
  intros Hx. apply bool_decide_ext. rewrite elem_of_cons. naive_solver.
Qed.

Lemma pendiente_permutacion (l l' : list (texto * texto)) (t : texto) :
  Permutation l l' -> pendiente l t -> pendiente l' t.
Proof.
  intros Hp (Hnd & Hf & Ht). split; [by rewrite <- Hp|].
  split; [by rewrite <- Hp|].
  rewrite <- Ht. f_equal; apply bool_decide_ext; by rewrite Hp.
Qed.

(** One entry more applied: what is left of the table is pending on the
    new text. *)
Lemma pendiente_paso (kv : texto * texto) (l : list (texto * texto))
    (t : texto) :
  pendiente (kv :: l) t -> pendiente l (replace (fst kv) (snd kv) t).
Proof.
  intros ([Hkv Hnd]%NoDup_cons & [Hc Hf]%Forall_cons & Ht).
  split; [done|]. split; [done|].
  destruct (entrada_clasificada_casos kv Hc) as [Ha|(c & Hk & Hcc)].
  - unfold entradas_activas in Ha.
    repeat (apply elem_of_cons in Ha as [->|Ha]);
      [| | | |by apply elem_of_nil in Ha].
    + unfold entrada_a_tilde. cbn [fst snd].
      rewrite replace_un_caracter. apply a_tilde_suelta_con_cambiar.
    + rewrite (bool_decide_eq_true_2
                 (entrada_interrogacion ∈ entrada_interrogacion :: l))
        in Ht by left.
      rewrite (pendiente_otra entrada_exclamacion) in Ht by done.
      rewrite (bool_decide_eq_false_2 (entrada_interrogacion ∈ l)) by done.
      unfold entrada_interrogacion. cbn [fst snd].
      rewrite replace_sin_a_ante by done.
      by apply a_tilde_suelta_con_interrogacion.
    + rewrite (bool_decide_eq_true_2
                 (entrada_exclamacion ∈ entrada_exclamacion :: l))
        in Ht by left.
      rewrite (pendiente_otra entrada_interrogacion) in Ht by done.
      rewrite (bool_decide_eq_false_2 (entrada_exclamacion ∈ l)) by done.
      unfold entrada_exclamacion. cbn [fst snd].
      rewrite replace_sin_a_ante by done.
      by apply a_tilde_suelta_con_exclamacion.
    + rewrite !(pendiente_otra _ entrada_euro) in Ht by done.
      unfold entrada_euro. cbn [fst snd].
      by apply a_tilde_suelta_con_euro.
  - rewrite (entrada_inerte _ _ kv c t Hk Hcc Ht).
    rewrite !(pendiente_otra _ kv) in Ht; [done|..].
    + intros <-. done.
    + intros <-. done.
Qed.

Lemma pendiente_conmuta (kv1 kv2 : texto * texto) (l : list (texto * texto))
    (t : texto) :
  pendiente (kv1 :: kv2 :: l) t ->
  replace (fst kv2) (snd kv2) (replace (fst kv1) (snd kv1) t)
  = replace (fst kv1) (snd kv1) (replace (fst kv2) (snd kv2) t).
Proof.
  intros H.
  pose proof (pendiente_paso _ _ _ H) as (_ & _ & Ht1).
  pose proof (pendiente_paso _ _ _
                (pendiente_permutacion _ _ _ (perm_swap kv2 kv1 l) H))
    as (_ & _ & Ht2).
  destruct H as (_ & [Hc1 [Hc2 _]%Forall_cons]%Forall_cons & Ht).
  destruct (entrada_clasificada_casos kv1 Hc1) as [Ha1|(c1 & Hk1 & Hcc1)];
    destruct (entrada_clasificada_casos kv2 Hc2) as [Ha2|(c2 & Hk2 & Hcc2)].
  - by apply entradas_activas_conmutan.
  - rewrite (entrada_inerte _ _ kv2 c2 t Hk2 Hcc2 Ht).
    by rewrite (entrada_inerte _ _ kv2 c2 _ Hk2 Hcc2 Ht1).
  - rewrite (entrada_inerte _ _ kv1 c1 t Hk1 Hcc1 Ht).
    by rewrite (entrada_inerte _ _ kv1 c1 _ Hk1 Hcc1 Ht2).
  - rewrite (entrada_inerte _ _ kv1 c1 t Hk1 Hcc1 Ht).
    rewrite (entrada_inerte _ _ kv2 c2 t Hk2 Hcc2 Ht).
    by rewrite (entrada_inerte _ _ kv1 c1 t Hk1 Hcc1 Ht).
Qed.

(** C5, amended: on a text in which every U+00C3 is followed neither by a
    character that completes a key of the table, nor by the mis-decoded
    inverted question mark, nor by the mis-decoded inverted exclamation
    mark, and so on every text without U+00C3, the entries applied one
    after the other in any two orders give the same output.  On such a
    text the entries for the two marks, for the euro sign and for the lone
    U+00C3 are the only ones that find their keys, and what they replace
    does not depend on their order. *)
Theorem correcciones_orden_indiferente (orden1 orden2 : list (texto * texto))
    (t : texto) :
  Permutation orden1 correcciones ->
  Permutation orden2 correcciones ->
  a_tilde_suelta t = true ->
  aplicar_correcciones orden1 t = aplicar_correcciones orden2 t.
Proof.
  intros H1 H2 Ht. unfold aplicar_correcciones.
  apply (fold_left_permutacion
           (fun acc kv => replace (fst kv) (snd kv) acc) pendiente
           pendiente_permutacion pendiente_paso pendiente_conmuta);
    [by rewrite H1, H2|].
  apply (pendiente_permutacion correcciones); [done|].
  split; [apply correcciones_sin_repetir|].
  split; [apply correcciones_clasificadas|].
  rewrite <- Ht. unfold a_tilde_suelta.
  f_equal; apply bool_decide_eq_true_2, (bool_decide_unpack _); by vm_compute.
Qed.

Lemma correcciones_orden_indiferente_ejemplo :
  let t := [0xC2; 0xBF; 0x51; 0xC3; 0xC2; 0x78; 0xE2; 0x201A; 0xAC;
            0xC2; 0xA1] in
  aplicar_correcciones correcciones t
  = aplicar_correcciones correcciones_euro_primero t.
Proof.
  apply (correcciones_orden_indiferente correcciones correcciones_euro_primero).
  - reflexivity.
  - apply correcciones_euro_primero_perm.
  - vm_compute. reflexivity.
Defined.

(** On that text four entries act. *)
Example correcciones_cuatro_entradas :
  aplicar_correcciones correcciones
    [0xC2; 0xBF; 0x51; 0xC3; 0xC2; 0x78; 0xE2; 0x201A; 0xAC; 0xC2; 0xA1]
  = [0xBF; 0x51; 0xD2; 0xC2; 0x78; 0x20AC; 0xA1].
Proof. vm_compute. reflexivity. Qed.

(** The exclusion of the two marks cannot be dropped: a U+00C3 before the
    mis-decoded inverted exclamation mark gives two outputs. *)
Example correcciones_a_tilde_ante_exclamacion :
  Permutation correcciones_exclamacion_primero correcciones
  /\ a_tilde_suelta [0xC3; 0xC2; 0xA1] = false
  /\ aplicar_correcciones correcciones [0xC3; 0xC2; 0xA1] = [0xD2; 0xA1]
  /\ aplicar_correcciones correcciones_exclamacion_primero [0xC3; 0xC2; 0xA1]
     = [0xE1].
Proof.
  split; [|repeat split; vm_compute; reflexivity].
  unfold correcciones_exclamacion_primero.
  rewrite <- (firstn_skipn 30 correcciones) at 3.
  apply Permutation_middle.
Qed.

(** *** The crawl loop *)

Lemma extraer_pagina_individual_url m n u p :
  extraer_pagina_individual m n u = Some p -> url p = u.
Proof.
  unfold extraer_pagina_individual. intros H.
  repeat case_match; by simplify_eq.
Qed.

Section Rastreo.
Context (m : Mundo) (max_paginas : Z) (dominio_base : string).

(** What one turn does to the state: either the result list is kept and
    the frontier loses the popped URL, or a page extracted from a URL not
    visited before is appended. *)
Lemma iterar_casos c e :
  (results (iterar m max_paginas dominio_base c e) = results e
   /\ to_visit (iterar m max_paginas dominio_base c e) = (to_visit e ∖ {[c]})
   /\ (visited e ⊆ visited (iterar m max_paginas dominio_base c e)))
  \/ (exists p,
        (c ∉ visited e)
        /\ extraer_pagina_individual m (peticiones e) c = Some p
        /\ results (iterar m max_paginas dominio_base c e)
           = (results e ++ [p])%list
        /\ visited (iterar m max_paginas dominio_base c e) = {[c]} ∪ visited e).
Proof.
  unfold iterar. case_bool_decide as Hv; simpl.
  - left. set_solver.
  - destruct (extraer_pagina_individual m (peticiones e) c) as [p|] eqn:Hp.
    + right. exists p. repeat case_match; simpl; done.
    + left. simpl. set_solver.
Qed.

(** A property kept by every turn holds of every state a run ends in. *)
Lemma bucle_invariante (P : Estado -> Prop) e e' :
  (forall e c, continua max_paginas e = true -> c ∈ to_visit e ->
               P e -> P (iterar m max_paginas dominio_base c e)) ->
  bucle m max_paginas dominio_base e e' -> P e -> P e'.
Proof. intros Hpaso. induction 1; eauto. Qed.

Lemma bucle_termina_falso e e' :
  bucle m max_paginas dominio_base e e' -> continua max_paginas e' = false.
Proof. induction 1; auto. Qed.

Lemma cota_paso e c :
  (0 < max_paginas)%Z ->
  continua max_paginas e = true ->
  (Z.of_nat (length (results e)) <= max_paginas)%Z ->
  (Z.of_nat (length (results (iterar m max_paginas dominio_base c e)))
   <= max_paginas)%Z.
Proof.
  intros HN Hc Hle. unfold continua, faltan_paginas in Hc.
  apply andb_true_iff in Hc as [_ Hc].
  apply orb_true_iff in Hc as [Hc|Hc]; [lia|].
  destruct (iterar_casos c e) as [(-> & _)|(p & _ & _ & -> & _)]; [done|].
  rewrite length_app. simpl. lia.
Qed.

(** With a positive bound no run goes on for ever: a turn either
    lengthens the result list, which the bound caps, or shrinks the
    frontier. *)
Lemma paso_bien_fundado :
  (0 < max_paginas)%Z ->
  forall e, Acc (fun e' e => paso m max_paginas dominio_base e e') e.
Proof.
  intros HN.
  assert (forall k s e,
            (Z.to_nat (max_paginas - Z.of_nat (length (results e))) = k) ->
            size (to_visit e) = s ->
            Acc (fun e' e => paso m max_paginas dominio_base e e') e) as H;
    [|eauto].
  induction k as [k IHk] using lt_wf_ind.
  induction s as [s IHs] using lt_wf_ind.
  intros e Hk Hs. constructor. intros e' (Hc & c & Hin & ->).
  unfold continua, faltan_paginas in Hc.
  apply andb_true_iff in Hc as [_ Hc].
  apply orb_true_iff in Hc as [Hc|Hc]; [lia|].
  destruct (iterar_casos c e) as [(Hr & Ht & _)|(p & _ & _ & Hr & _)].
  - eapply (IHs (size (to_visit (iterar m max_paginas dominio_base c e))));
      [|by rewrite Hr|done].
    rewrite Ht, <- Hs.
    apply subset_size. set_solver.
  - eapply (IHk (Z.to_nat
                   (max_paginas
                    - Z.of_nat (length (results
                        (iterar m max_paginas dominio_base c e))))));
      [|done|done].
    rewrite Hr, length_app. simpl. lia.
Qed.

(** A state from which every run is finite has a run that ends. *)
Lemma bucle_existe e :
  Acc (fun e' e => paso m max_paginas dominio_base e e') e ->
  exists e', bucle m max_paginas dominio_base e e'.
Proof.
  induction 1 as [e _ IH].
  destruct (continua max_paginas e) eqn:Hc.
  - assert (exists c, c ∈ to_visit e) as [c Hin].
    { apply set_choose_L. unfold continua in Hc.
      apply andb_true_iff in Hc as [Hne _]. by apply bool_decide_eq_true in Hne. }
    destruct (IH (iterar m max_paginas dominio_base c e)) as [e' He'];
      [split; eauto|].
    exists e'. by eapply bucle_paso.
  - exists e. by constructor.
Qed.

(** The run with the fixed choice is one of the runs. *)
Lemma bucle_con_correcto pasos e e' :
  bucle_con m max_paginas dominio_base pasos e = Some e' ->
  bucle m max_paginas dominio_base e e'.
Proof.
  revert e. induction pasos as [|k IH]; intros e; simpl.
  - destruct (continua max_paginas e) eqn:Hc; [done|].
    intros [= <-]. by constructor.
  - destruct (continua max_paginas e) eqn:Hc.
    + destruct (elements (to_visit e)) as [|c l] eqn:Hel; [done|].
      intros H. eapply (bucle_paso _ _ _ _ c); [done| |by apply IH].
      apply elem_of_elements. rewrite Hel. left.
    + intros [= <-]. by constructor.
Qed.

Lemma sin_repetidos_paso e c :
  sin_repetidos e -> sin_repetidos (iterar m max_paginas dominio_base c e).
Proof.
  intros [Hnd Hv].
  destruct (iterar_casos c e) as [(Hr & _ & Hs)|(p & Hc & Hp & Hr & Hvis)];
    unfold sin_repetidos; rewrite Hr.
  - split; [done|]. intros q Hq. apply Hs. by apply Hv.
  - apply extraer_pagina_individual_url in Hp.
    rewrite fmap_app, Hvis. simpl. split.
    + apply NoDup_app. split; [done|]. split; [|apply NoDup_singleton].
      intros x Hx ->%list_elem_of_singleton.
      apply list_elem_of_fmap in Hx as (q & Hq & Hin).
      apply Hv in Hin. congruence.
    + intros q [Hq| ->%list_elem_of_singleton]%elem_of_app; [|set_solver].
      apply Hv in Hq. set_solver.
Qed.
End Rastreo.

Lemma rastrear_sitio_web_con_correcto m pasos url_inicio max_paginas res :
  rastrear_sitio_web_con m pasos url_inicio max_paginas = Some res ->
  rastrear_sitio_web m url_inicio max_paginas res.
Proof.
  unfold rastrear_sitio_web_con, rastrear_sitio_web.
  destruct (urlparse url_inicio) as [p|]; [|done].
  destruct (bucle_con _ _ _ _ _) as [e|] eqn:He; [|done].
  intros [= <-]. exists p, e. split; [done|]. split; [|done].
  by eapply bucle_con_correcto.
Qed.

(** C1: with a bound [N > 0] the crawl returns a list of at most [N]
    pages.  It does return one whenever the seed URL parses, whatever the
    site and whatever elements [pop] hands out, no run of its loop being
    infinite. *)
Theorem rastrear_sitio_web_a_lo_sumo_N (m : Mundo) (url_inicio : string) (N : Z) :
  (0 < N)%Z ->
  (is_Some (urlparse url_inicio) ->
   exists res, rastrear_sitio_web m url_inicio N res)
  /\ (forall res, rastrear_sitio_web m url_inicio N res ->
                  (Z.of_nat (length res) <= N)%Z)
  /\ (forall dominio_base e, Acc (fun e' e => paso m N dominio_base e e') e).
Proof.
  intros HN. split; [|split].
  - intros [p Hp].
    destruct (bucle_existe m N (netloc p) (inicial url_inicio)) as [e He].
    { by apply paso_bien_fundado. }
    exists (results e), p, e. done.
  - intros res (p & e & _ & He & ->).
    eapply (bucle_invariante m N (netloc p)
              (fun e => (Z.of_nat (length (results e)) <= N)%Z)); [|done|simpl; lia].
    intros e0 c Hc _. by apply cota_paso.
  - intros dominio_base e. by apply paso_bien_fundado.
Qed.

Lemma rastrear_sitio_web_a_lo_sumo_N_ejemplo :
  rastrear_sitio_web_con mundo_ejemplo 5 url_portada 1 <> None
  /\ (forall res, rastrear_sitio_web mundo_ejemplo url_portada 1 res ->
                  (Z.of_nat (length res) <= 1)%Z).
Proof.
  split; [by vm_compute|].
  apply (rastrear_sitio_web_a_lo_sumo_N mundo_ejemplo url_portada 1). lia.
Defined.

(** C10: the URLs of the pages a crawl returns are pairwise distinct. *)
Theorem rastrear_sitio_web_urls_distintas (m : Mundo) (url_inicio : string)
    (max_paginas : Z) (res : list Pagina) :
  rastrear_sitio_web m url_inicio max_paginas res ->
  NoDup (url <$> res).
Proof.
  intros (p & e & _ & He & ->).
  eapply (bucle_invariante m max_paginas (netloc p)
            (sin_repetidos)); [| done | ].
  - intros e0 c _ _. apply sin_repetidos_paso.
  - split; [constructor | by intros q Hq%elem_of_nil].
Qed.

Lemma rastrear_sitio_web_urls_distintas_ejemplo :
  exists res,
    rastrear_sitio_web_con mundo_ejemplo 5 url_portada 0 = Some res
    /\ url <$> res = [url_portada]
    /\ NoDup (url <$> res).
Proof.
  eexists. split; [vm_compute; reflexivity|]. split; [reflexivity|].
  apply (rastrear_sitio_web_urls_distintas mundo_ejemplo url_portada 0).
  apply (rastrear_sitio_web_con_correcto _ 5). vm_compute. reflexivity.
Defined.

(** *** Rejected pages *)

Lemma contenido_pobre_insuficiente content :
  contenido_pobre content -> contenido_insuficiente content = true.
Proof.
  intros [->|(c & -> & Hc)]; [done|]. simpl.
  apply orb_true_iff. right. by apply Nat.ltb_lt.
Qed.

Lemma extraer_pagina_individual_pobre m n u :
  (forall soup, _obtener_contenido m n u = Some soup ->
                contenido_pobre (_extraer_contenido_principal m soup)) ->
  extraer_pagina_individual m n u = None.
Proof.
  intros H. unfold extraer_pagina_individual.
  destruct (_obtener_contenido m n u) as [soup|]; [|done].
  rewrite (contenido_pobre_insuficiente _ (H soup eq_refl)).
  by repeat case_match.
Qed.

(** C9: a URL whose main content is absent or has fewer than 20 words, at
    whatever moment it is requested, makes [extraer_pagina_individual]
    return [None], and no crawl has a page of that URL among its results. *)
Theorem pagina_pobre_nunca_en_resultados (m : Mundo) (u : string) :
  (forall n soup, _obtener_contenido m n u = Some soup ->
                  contenido_pobre (_extraer_contenido_principal m soup)) ->
  (forall n, extraer_pagina_individual m n u = None)
  /\ (forall url_inicio max_paginas res,
        rastrear_sitio_web m url_inicio max_paginas res -> u ∉ url <$> res).
Proof.
  intros H.
  assert (forall n, extraer_pagina_individual m n u = None) as Hnone.
  { intros n. apply extraer_pagina_individual_pobre. eauto. }
  split; [done|].
  intros url_inicio max_paginas res (p & e & _ & He & ->).
  eapply (bucle_invariante m max_paginas (netloc p)
            (fun e => u ∉ url <$> results e)); [|done|by intros ?%elem_of_nil].
  intros e0 c _ _ Hno.
  destruct (iterar_casos m max_paginas (netloc p) c e0)
    as [(-> & _)|(q & _ & Hq & -> & _)]; [done|].
  rewrite fmap_app. intros [?|Hu%list_elem_of_singleton]%elem_of_app; [done|].
  pose proof (extraer_pagina_individual_url _ _ _ _ Hq) as Hc.
  rewrite <- Hc, <- Hu in Hq. congruence.
Qed.

Lemma pagina_pobre_nunca_en_resultados_ejemplo :
  num_palabras (texto_de_cadena "Hola mundo") = 2%nat
  /\ (forall n, extraer_pagina_individual mundo_ejemplo n url_breve = None)
  /\ (forall url_inicio max_paginas res,
        rastrear_sitio_web mundo_ejemplo url_inicio max_paginas res ->
        url_breve ∉ url <$> res).
Proof.
  split; [reflexivity|].
  apply (pagina_pobre_nunca_en_resultados mundo_ejemplo url_breve).
  intros n soup [= <-]. right. eexists. split; [reflexivity|].
  vm_compute. lia.
Defined.

(** *** The link harvester *)

Lemma tiene_quitar c f s : tiene c (quitar f s) = true -> tiene c s = true.
Proof.
  induction s as [|d r IH]; simpl; [done|].
  destruct (f d); simpl; rewrite ?orb_true_iff; intuition.
Qed.

Lemma tiene_lstrip_c0 c s : tiene c (lstrip_c0 s) = true -> tiene c s = true.
Proof.
  induction s as [|d r IH]; simpl; [done|].
  case_match; simpl; rewrite ?orb_true_iff; intuition.
Qed.

Lemma tiene_partir c d s a b :
  partir d s = Some (a, b) -> tiene c b = true -> tiene c s = true.
Proof.
  revert a. induction s as [|x r IH]; intros a; simpl; [done|].
  destruct (Ascii.eqb d x).
  - intros [= <- <-] ->. apply orb_true_r.
  - destruct (partir d r) as [[a' b']|]; [|done].
    intros [= <- <-] Hb. rewrite (IH _ eq_refl Hb). apply orb_true_r.
Qed.

Lemma tiene_separar_scheme c u :
  tiene c (separar_scheme u).2 = true -> tiene c u = true.
Proof.
  unfold separar_scheme.
  destruct (partir ":" u) as [[[|c0 pre] post]|] eqn:Hp; simpl; [done| |done].
  case_match; simpl; [|done]. by eapply tiene_partir.
Qed.

(** The netloc that [_splitnetloc] cuts holds no slash. *)
Lemma _splitnetloc_sin_barra s : tiene "/" (_splitnetloc s).1 = false.
Proof.
  induction s as [|c r IH]; simpl; [done|].
  destruct (Ascii.eqb c "/") eqn:Hc; simpl; [done|].
  destruct (Ascii.eqb c "?" || Ascii.eqb c "#"); simpl; [done|].
  destruct (_splitnetloc r) as [n u]. cbn [fst tiene] in *.
  by rewrite IH, orb_false_r, Ascii.eqb_sym.
Qed.

Lemma urlparse_inr u p : intentar_urlparse u = inr p -> urlparse u = Some p.
Proof. unfold urlparse. by intros ->. Qed.

Lemma urlparse_inl u e :
  intentar_urlparse u = inl e ->
  urlparse u = None /\ error_de_urlparse u = Some e.
Proof. unfold urlparse, error_de_urlparse. by intros ->. Qed.

Lemma urlparse_Some u p : urlparse u = Some p -> intentar_urlparse u = inr p.
Proof.
  unfold urlparse. destruct (intentar_urlparse u) as [e|q]; [done|].
  by intros [= ->].
Qed.

Lemma urlparse_None u :
  urlparse u = None -> exists e, intentar_urlparse u = inl e.
Proof.
  unfold urlparse. destruct (intentar_urlparse u) as [e|p]; [|done].
  by exists e.
Qed.

Lemma urlparse_netloc_sin_barra u p :
  urlparse u = Some p -> tiene "/" (netloc p) = false.
Proof.
  unfold urlparse, intentar_urlparse.
  destruct (separar_scheme _) as [sch url].
  destruct (tras_barras url) as [resto|]; [|by intros [= <-]].
  pose proof (_splitnetloc_sin_barra resto) as Hs.
  destruct (_splitnetloc resto) as [net url']. simpl in Hs.
  destruct (error_de_netloc net); [done|]. by intros [= <-].
Qed.

Lemma tras_barras_tiene url resto :
  tras_barras url = Some resto -> tiene "/" url = true.
Proof.
  unfold tras_barras. intros H. repeat case_match; by simplify_eq.
Qed.

(** A text without a slash parses to an empty netloc: [urlsplit] reads a
    netloc only after two slashes. *)
Lemma urlparse_sin_barra s :
  tiene "/" s = false ->
  exists q, urlparse s = Some q /\ netloc q = "".
Proof.
  intros Hs. unfold urlparse, intentar_urlparse.
  destruct (separar_scheme _) as [sch url] eqn:Hsep.
  destruct (tras_barras url) as [resto|] eqn:Ht; [|by eexists].
  apply tras_barras_tiene in Ht.
  assert (tiene "/" s = true) as Hs'; [|congruence].
  apply tiene_lstrip_c0, (tiene_quitar _ es_inseguro), tiene_separar_scheme.
  by rewrite Hsep.
Qed.

(** [_es_url_valida] accepts no URL when the base it is given is a netloc,
    the value [rastrear_sitio_web] computes and hands down. *)
Lemma _es_url_valida_con_netloc u0 p x :
  urlparse u0 = Some p -> _es_url_valida x (netloc p) = false.
Proof.
  intros Hp. unfold _es_url_valida.
  destruct (urlparse x) as [parsed|]; [|done].
  destruct (String.eqb (scheme parsed) "") eqn:Hs; [done|].
  destruct (String.eqb (netloc parsed) "") eqn:Hn; [done|]. simpl.
  destruct (urlparse_sin_barra (netloc p)) as (q & -> & ->).
  { by eapply urlparse_netloc_sin_barra. }
  by rewrite Hn.
Qed.

Lemma _procesar_enlaces_ninguna_valida m u soup dominio_base :
  (forall x, _es_url_valida x dominio_base = false) ->
  _procesar_enlaces m u soup dominio_base = ∅.
Proof.
  intros Hno. unfold _procesar_enlaces.
  induction (anchors soup) as [|h l IH] using rev_ind; [done|].
  rewrite fold_left_app. simpl. rewrite IH.
  destruct (urljoin m u (antes_de "#" h)) as [full|]; [|done].
  by rewrite Hno.
Qed.

(** C2, on the code: with the base domain that the crawl passes (the netloc
    of its seed URL) the validity test accepts no URL, so the harvester
    keeps no link at all, whatever the page holds: every link is dropped,
    on the seed's host or not. *)
Theorem procesar_enlaces_vacio_en_rastreo (m : Mundo) (url_inicio : string)
    (p : ParseResult) (u : string) (soup : Soup) :
  urlparse url_inicio = Some p ->
  (forall x, _es_url_valida x (netloc p) = false)
  /\ _procesar_enlaces m u soup (netloc p) = ∅.
Proof.
  intros Hp.
  assert (forall x, _es_url_valida x (netloc p) = false) as Hno.
  { intros x. by eapply _es_url_valida_con_netloc. }
  split; [done|]. by apply _procesar_enlaces_ninguna_valida.
Qed.

Lemma procesar_enlaces_vacio_ejemplo :
  netloc <$> urlparse url_portada = Some "docs.python.org"
  /\ urljoin mundo_ejemplo url_portada url_tutorial = Some url_tutorial
  /\ netloc <$> urlparse url_tutorial = Some "docs.python.org"
  /\ _procesar_enlaces mundo_ejemplo url_portada sopa_portada "docs.python.org" = ∅.
Proof.
  split; [reflexivity|]. split; [reflexivity|]. split; [reflexivity|].
  apply (procesar_enlaces_vacio_en_rastreo mundo_ejemplo url_portada
           {| scheme := "https"; netloc := "docs.python.org"; path := "/es/3/" |}
           url_portada sopa_portada).
  reflexivity.
Defined.

(** Given the seed URL itself as base the same harvester keeps the links of
    the seed's host, fragment cut. *)
Example procesar_enlaces_con_url_base :
  elements (_procesar_enlaces mundo_ejemplo url_portada sopa_portada url_portada)
  = [url_breve; url_tutorial].
Proof. vm_compute. reflexivity. Qed.

(** The extension test looks for the extension anywhere in the URL, not at
    the end of its path. *)
Example _es_url_valida_extension_en_medio :
  _es_url_valida "https://docs.python.org/es/3/guia.pdf.html" url_portada = false
  /\ _es_url_valida "https://docs.python.org/es/3/guia.html" url_portada = true.
Proof. split; vm_compute; reflexivity. Qed.

(** So a crawl never leaves its seed: it returns one page at most. *)
Lemma rastrear_sitio_web_solo_semilla m url_inicio max_paginas res :
  rastrear_sitio_web m url_inicio max_paginas res -> (length res <= 1)%nat.
Proof.
  intros (p & e & Hp & He & ->).
  assert (to_visit e ∪ visited e ⊆ {[url_inicio]} /\ NoDup (url <$> results e)
          /\ forall q, q ∈ results e -> url q ∈ visited e) as (Hs & Hnd & Hv).
  { eapply (bucle_invariante m max_paginas (netloc p)
              (fun e => to_visit e ∪ visited e ⊆ {[url_inicio]}
                        /\ sin_repetidos e)); [|done|].
    - intros e0 c _ Hc [Hsub Hsr]. split; [|by apply sin_repetidos_paso].
      assert (forall u soup, _procesar_enlaces m u soup (netloc p) = ∅) as Hvacio.
      { intros u soup. apply _procesar_enlaces_ninguna_valida.
        intros x. by eapply _es_url_valida_con_netloc. }
      unfold iterar. repeat case_match; simpl; rewrite ?Hvacio; set_solver.
    - split; [set_solver|]. split; [constructor|by intros q ?%elem_of_nil]. }
  destruct (results e) as [|q1 [|q2 l]]; simpl; [lia..|].
  exfalso. apply NoDup_cons in Hnd as [Hnd _]. apply Hnd.
  assert (url q1 = url_inicio) as -> by (specialize (Hv q1); set_solver).
  assert (url q2 = url_inicio) as <- by (specialize (Hv q2); set_solver).
  simpl. left.
Qed.

(** *** Scores *)

(** Every score of [buscar_en_todos_sitios] is one minus the distance, as
    it comes. *)
Lemma formatear_puntuacion r i documents l :
  formatear r i documents = Some l ->
  forall j x, l !! j = Some x ->
    exists d, q_distances r !! (i + j)%nat = Some d
              /\ puntuacion x = (1 - d)%float.
Proof.
  revert i l. induction documents as [|doc resto IH]; intros i l; simpl.
  - intros [= <-] j x Hj. by rewrite lookup_nil in Hj.
  - destruct (q_metadatas r !! i) as [md|]; [|done].
    destruct (q_distances r !! i) as [d|] eqn:Hd; [|done].
    destruct (formatear r (S i) resto) as [l'|] eqn:Hl; [|done].
    intros [= <-] [|j] x Hj; simpl in Hj.
    + simplify_eq. exists d. by rewrite Nat.add_0_r.
    + destruct (IH _ _ Hl j x Hj) as (d' & Hd' & Hx).
      exists d'. split; [|done]. by rewrite <- Nat.add_succ_comm.
Qed.

(** Every score of [convertir_resultados_chromadb] is one minus the
    distance, cut at zero. *)
Lemma convertir_desde_puntuacion r i documents j x :
  convertir_desde r i documents !! j = Some x ->
  app_puntuacion x
  = max0 (1 - default 1%float (q_distances r !! (i + j)%nat))%float.
Proof.
  revert i j. induction documents as [|doc resto IH]; intros i j; simpl.
  - by rewrite lookup_nil.
  - destruct j as [|j]; simpl.
    + intros [= <-]. simpl. by rewrite Nat.add_0_r.
    + intros Hj. rewrite (IH _ _ Hj). by rewrite <- Nat.add_succ_comm.
Qed.

(** C3, on the code: for a document at distance 1.5 the search method
    reports the score -0.5, where [max(0, 1 - distance)], which the
    conversion of [app.py] computes, gives 0. *)
Theorem buscar_en_todos_sitios_puntuacion_negativa :
  puntuacion <$> buscar_en_todos_sitios (fun _ _ => Some respuesta_lejana)
                   (texto_de_cadena "python") 5
  = [(-0.5)%float]
  /\ app_puntuacion <$> convertir_resultados_chromadb (Some respuesta_lejana)
     = [0%float]
  /\ ((-0.5) <? 0)%float = true.
Proof. repeat split; vm_compute; reflexivity. Qed.

(** *** The registry *)

Lemma ya_existe_registrada u l :
  ya_existe u l = true <-> u ∈ fuente_url <$> l.
Proof.
  unfold ya_existe. rewrite existsb_exists, list_elem_of_fmap. split.
  - intros (f & Hin%list_elem_of_In & Heq%String.eqb_eq). by exists f.
  - intros (f & -> & Hin%list_elem_of_In). exists f.
    by rewrite String.eqb_refl.
Qed.

(** C6: [agregar_fuente] answers with a failure, and leaves the source
    list, the index record and both files as they were, when the URL is
    already registered or does not parse to a scheme and a host; the
    failure is an ordinary reply (for a registered URL that parses, "La
    fuente ya existe"). *)
Theorem agregar_fuente_rechaza (escribe : bool) (hoy u : string)
    (nombre descripcion categoria : texto) (idioma : string) (bd : BaseDatos) :
  registrada u bd \/ ~ tiene_esquema_y_host u ->
  exito (agregar_fuente escribe hoy u nombre descripcion categoria idioma bd).1
  = false
  /\ (agregar_fuente escribe hoy u nombre descripcion categoria idioma bd).2 = bd
  /\ (registrada u bd -> tiene_esquema_y_host u ->
      mensaje (agregar_fuente escribe hoy u nombre descripcion categoria idioma bd).1
      = "La fuente ya existe").
Proof.
  intros H. unfold agregar_fuente.
  destruct (intentar_urlparse u) as [e|p] eqn:Hi.
  { apply urlparse_inl in Hi as [Hp _]. split; [done|]. split; [done|].
    intros _ (q & ? & _). congruence. }
  apply urlparse_inr in Hi as Hp.
  destruct (String.eqb (scheme p) "") eqn:Hs.
  { apply String.eqb_eq in Hs. split; [done|]. split; [done|].
    intros _ (q & ? & Hq & _). congruence. }
  destruct (String.eqb (netloc p) "") eqn:Hn.
  { apply String.eqb_eq in Hn. split; [done|]. split; [done|].
    intros _ (q & ? & _ & Hq). congruence. }
  simpl. destruct (ya_existe u (sources bd)) eqn:He; [done|].
  exfalso. destruct H as [H|H].
  - apply ya_existe_registrada in H. congruence.
  - apply H. exists p. apply String.eqb_neq in Hs, Hn. done.
Qed.

Lemma agregar_fuente_rechaza_ejemplo :
  agregar_fuente true "2024-06-01" url_portada [] [] [] "es" bd_ejemplo
  = (fallo "La fuente ya existe", bd_ejemplo)
  /\ exito (agregar_fuente true "2024-06-01" "docs.python.org" [] [] [] "es"
              bd_ejemplo).1 = false
  /\ (agregar_fuente true "2024-06-01" "docs.python.org" [] [] [] "es"
        bd_ejemplo).2 = bd_ejemplo.
Proof.
  split; [reflexivity|].
  assert (~ tiene_esquema_y_host "docs.python.org") as H.
  { intros (p & Hp & Hs & _). vm_compute in Hp. by simplify_eq. }
  destruct (agregar_fuente_rechaza true "2024-06-01" "docs.python.org" [] [] []
              "es" bd_ejemplo (or_intror H)) as (H1 & H2 & _).
  done.
Defined.

(** A URL whose bracketed host is no address is refused with the message
    of the library's error, and nothing changes. *)
Example agregar_fuente_corchetes :
  agregar_fuente true "2024-06-01" "http://[abc]/" [] [] [] "es" bd_ejemplo
  = (fallo "Error: 'abc' does not appear to be an IPv4 or IPv6 address",
     bd_ejemplo).
Proof. reflexivity. Qed.

(** [agregar_fuente] keeps the URLs of the list pairwise distinct. *)
Lemma agregar_fuente_urls_unicas escribe hoy u nombre descripcion categoria
    idioma bd :
  NoDup (fuente_url <$> sources bd) ->
  NoDup (fuente_url
           <$> sources (agregar_fuente escribe hoy u nombre descripcion
                          categoria idioma bd).2).
Proof.
  intros Hnd. unfold agregar_fuente.
  destruct (intentar_urlparse u) as [e|p]; [done|].
  destruct (String.eqb (scheme p) "" || String.eqb (netloc p) ""); [done|].
  destruct (ya_existe u (sources bd)) eqn:He; [done|].
  assert (u ∉ fuente_url <$> sources bd) as Hno.
  { intros Hin%ya_existe_registrada. congruence. }
  destruct escribe; simpl; rewrite fmap_app; apply NoDup_app;
    (split; [done|]); (split; [|apply NoDup_singleton]);
    by intros x Hx ->%list_elem_of_singleton.
Qed.

Lemma quitar_primera_Some u l f r :
  quitar_primera u l = Some (f, r) ->
  exists l1 l2,
    l = (l1 ++ f :: l2)%list /\ r = (l1 ++ l2)%list
    /\ fuente_url f = u /\ u ∉ fuente_url <$> l1.
Proof.
  revert r. induction l as [|g l IH]; intros r; simpl; [done|].
  destruct (String.eqb (fuente_url g) u) eqn:Hg.
  - intros [= <- <-]. apply String.eqb_eq in Hg.
    exists [], l. repeat split; [done|]. by intros ?%elem_of_nil.
  - destruct (quitar_primera u l) as [[f' r']|]; [|done].
    intros [= <- <-].
    destruct (IH _ eq_refl) as (l1 & l2 & -> & -> & Hf & Hno).
    exists (g :: l1), l2. repeat split; [done|].
    apply String.eqb_neq in Hg. rewrite fmap_cons. set_solver.
Qed.

Lemma quitar_primera_registrada u l :
  u ∈ fuente_url <$> l -> is_Some (quitar_primera u l).
Proof.
  induction l as [|g l IH]; simpl; [by intros ?%elem_of_nil|].
  destruct (String.eqb (fuente_url g) u) eqn:Hg; [by eexists|].
  apply String.eqb_neq in Hg.
  intros [?|Hin]%elem_of_cons; [done|].
  destruct (IH Hin) as [[f r] ->]. by eexists.
Qed.

(** C8: [eliminar_fuente] on a registered URL takes the first source with
    that URL out of the list (the only one when URLs are unique) and leaves
    no entry for the URL in the index record, the other entries being kept;
    the files follow when the writes succeed.  A later [indexar_fuente] on
    the URL therefore starts without a timestamp for it: it ends with the
    timestamp of that run, or with none when the crawl found nothing. *)
Theorem eliminar_fuente_quita (escribe_fuentes escribe_indexados : bool)
    (u : string) (bd : BaseDatos) :
  registrada u bd ->
  exito (eliminar_fuente escribe_fuentes escribe_indexados u bd).1 = true
  /\ (exists f l1 l2,
        sources bd = (l1 ++ f :: l2)%list /\ fuente_url f = u
        /\ (u ∉ fuente_url <$> l1)
        /\ sources (eliminar_fuente escribe_fuentes escribe_indexados u bd).2
           = (l1 ++ l2)%list)
  /\ (NoDup (fuente_url <$> sources bd) ->
      ~ registrada u (eliminar_fuente escribe_fuentes escribe_indexados u bd).2)
  /\ indexados (eliminar_fuente escribe_fuentes escribe_indexados u bd).2 !! u
     = None
  /\ (forall v, v <> u ->
        indexados (eliminar_fuente escribe_fuentes escribe_indexados u bd).2 !! v
        = indexados bd !! v)
  /\ (escribe_fuentes = true ->
      fuentes_json (eliminar_fuente escribe_fuentes escribe_indexados u bd).2
      = Some (sources (eliminar_fuente escribe_fuentes escribe_indexados u bd).2))
  /\ (escribe_indexados = true -> is_Some (indexados bd !! u) ->
      indexados_json (eliminar_fuente escribe_fuentes escribe_indexados u bd).2
      = Some (indexados (eliminar_fuente escribe_fuentes escribe_indexados u bd).2))
  /\ (forall m hash escribe marca max_paginas profundidad r bd' lotes,
        indexar_fuente m hash escribe marca u max_paginas profundidad
          (eliminar_fuente escribe_fuentes escribe_indexados u bd).2
          (Some (r, bd', lotes)) ->
        indexados bd' !! u = (if idx_exito r then Some marca else None)).
Proof.
  intros Hreg. unfold eliminar_fuente.
  destruct (quitar_primera_registrada _ _ Hreg) as [[f resto] Hq]. rewrite Hq.
  destruct (quitar_primera_Some _ _ _ _ Hq) as (l1 & l2 & Hl & -> & Hf & Hno).
  set (bd1 := _guardar_fuentes _ _).
  assert (sources bd1 = (l1 ++ l2)%list /\ indexados bd1 = indexados bd
          /\ indexados_json bd1 = indexados_json bd
          /\ (escribe_fuentes = true -> fuentes_json bd1 = Some (l1 ++ l2)%list))
    as (Hs1 & Hi1 & Hj1 & Hf1).
  { subst bd1. by destruct escribe_fuentes. }
  clearbody bd1. cbn [fst snd exito].
  set (bd2 := match indexados bd1 !! u with Some _ => _ | None => bd1 end).
  assert (sources bd2 = (l1 ++ l2)%list
          /\ indexados bd2 = delete u (indexados bd)
          /\ fuentes_json bd2 = fuentes_json bd1
          /\ (escribe_indexados = true -> is_Some (indexados bd !! u) ->
              indexados_json bd2 = Some (indexados bd2)))
    as (Hs2 & Hi2 & Hf2 & Hj2).
  { subst bd2. rewrite Hi1. destruct (indexados bd !! u) as [t|] eqn:Ht.
    - destruct escribe_indexados; simpl; rewrite ?Hi1; repeat split; done.
    - rewrite Hi1, delete_id by done. repeat split; [done|].
      by intros _ [? ?]. }
  clearbody bd2.
  split; [done|]. split; [by exists f, l1, l2|]. split.
  { unfold registrada. rewrite Hs2, Hl, !fmap_app, fmap_cons, Hf.
    intros [_ [Hnd Hnd2]]%NoDup_app Hin.
    apply NoDup_cons in Hnd2 as [Hu _]. set_solver. }
  split; [by rewrite Hi2, lookup_delete_eq|].
  split; [intros v Hv; by rewrite Hi2, lookup_delete_ne|].
  split; [intros He; by rewrite Hf2, Hs2, Hf1|].
  split; [done|].
  intros m hash escribe marca max_paginas profundidad r bd' lotes
    (documentos & _ & Hsal).
  symmetry in Hsal. revert Hsal.
  unfold indexar_documentos. destruct documentos as [|d ds].
  - intros [= <- <- <-]. simpl. by rewrite Hi2, lookup_delete_eq.
  - destruct (agregar_a_base_vectorial _ _) as [ls|]; [|done].
    intros [= <- <- <-]. destruct escribe; simpl; by rewrite lookup_insert_eq.
Qed.

Lemma eliminar_fuente_quita_ejemplo :
  eliminar_fuente true true url_portada bd_ejemplo
  = ({| exito := true; mensaje := "Fuente eliminada exitosamente";
        fuente := None |},
     {| sources := []; indexados := delete url_portada (indexados bd_ejemplo);
        fuentes_json := Some [];
        indexados_json := Some (delete url_portada (indexados bd_ejemplo)) |})
  /\ indexados (eliminar_fuente true true url_portada bd_ejemplo).2 !! url_portada
     = None.
Proof.
  split; [reflexivity|].
  apply (eliminar_fuente_quita true true url_portada bd_ejemplo).
  unfold registrada. simpl. left.
Defined.

(** *** Document identifiers and the index record *)

Lemma armar_lote_ids hash batch l :
  armar_lote hash batch = Some l ->
  ids l = (fun d => doc_id hash (url d)) <$> batch.
Proof.
  revert l. induction batch as [|d r IH]; intros l; simpl.
  - by intros [= <-].
  - destruct (metadata_de d); [|done].
    destruct (armar_lote hash r) as [l'|]; [|done].
    intros [= <-]. simpl. by rewrite (IH _ eq_refl).
Qed.

Lemma trocear_concat n documentos :
  (length documentos <= n)%nat -> concat (trocear n documentos) = documentos.
Proof.
  revert documentos. induction n as [|k IH]; intros documentos Hn.
  - destruct documentos; [done|simpl in Hn; lia].
  - destruct documentos as [|d r]; [done|].
    cbn [trocear concat]. rewrite IH, firstn_skipn; [done|].
    rewrite length_skipn. unfold batch_size. simpl in *. lia.
Qed.

(** The identifiers handed to the collaborator are, in order, those of the
    documents' URLs. *)
Lemma agregar_a_base_vectorial_ids hash documentos lotes :
  agregar_a_base_vectorial hash documentos = Some lotes ->
  concat (ids <$> lotes) = (fun d => doc_id hash (url d)) <$> documentos.
Proof.
  unfold agregar_a_base_vectorial. intros H%mapM_Some.
  assert (concat (ids <$> lotes)
          = (fun d => doc_id hash (url d))
              <$> concat (trocear (length documentos) documentos)) as ->.
  { induction H as [|batch l bs ls Hl _ IH]; [done|].
    rewrite fmap_cons. cbn [concat]. rewrite fmap_app, IH. f_equal.
    by apply armar_lote_ids. }
  by rewrite trocear_concat.
Qed.

(** C7, on the code: the identifier of a URL depends on the hash secret of
    the process that indexes it.  The same URL gets two different
    identifiers in a process started with [PYTHONHASHSEED=0] and in one
    started with [PYTHONHASHSEED=1], where the claim wants one. *)
Theorem doc_id_cambia_entre_procesos :
  doc_id (SipHash.hash (SipHash.clave 0)) url_portada
  = "doc_5893022299826507113"
  /\ doc_id (SipHash.hash (SipHash.clave 1)) url_portada
     = "doc_4317763835508277818"
  /\ (List.map ids
        <$> agregar_a_base_vectorial (SipHash.hash (SipHash.clave 0))
              [pagina_portada])
     = Some [["doc_5893022299826507113"]]
  /\ (List.map ids
        <$> agregar_a_base_vectorial (SipHash.hash (SipHash.clave 1))
              [pagina_portada])
     = Some [["doc_4317763835508277818"]].
Proof. repeat split; vm_compute; reflexivity. Qed.

(** X23: inside one process, with its one [hash], the identifiers submitted
    are a function of the documents' URLs alone, so indexing twice documents of
    the same URLs submits the same identifiers twice; and the index record
    ends with one entry for the source URL, holding the timestamp of the
    second run, its other entries untouched. *)
Lemma reindexar_mismo_proceso (hash : string -> Z) (escribe1 escribe2 : bool)
    (marca1 marca2 u : string) (documentos1 documentos2 : list Pagina)
    (bd bd1 bd2 : BaseDatos) (r1 r2 : ResultadoIndexar) (lotes1 lotes2 : list Lote) :
  documentos1 <> [] ->
  url <$> documentos1 = url <$> documentos2 ->
  indexar_documentos hash escribe1 marca1 u documentos1 bd = Some (r1, bd1, lotes1) ->
  indexar_documentos hash escribe2 marca2 u documentos2 bd1 = Some (r2, bd2, lotes2) ->
  concat (ids <$> lotes1) = doc_id hash <$> (url <$> documentos1)
  /\ concat (ids <$> lotes2) = concat (ids <$> lotes1)
  /\ indexados bd1 = <[u := marca1]> (indexados bd)
  /\ indexados bd2 = <[u := marca2]> (indexados bd)
  /\ indexados bd2 !! u = Some marca2
  /\ dom (indexados bd2) = dom (indexados bd1)
  /\ sources bd2 = sources bd.
Proof.
  intros Hne Hurls H1 H2. unfold indexar_documentos in *.
  destruct documentos1 as [|d1 ds1]; [done|].
  destruct documentos2 as [|d2 ds2]; [done|].
  destruct (agregar_a_base_vectorial hash (d1 :: ds1)) as [ls1|] eqn:Ha1; [|done].
  destruct (agregar_a_base_vectorial hash (d2 :: ds2)) as [ls2|] eqn:Ha2; [|done].
  apply agregar_a_base_vectorial_ids in Ha1, Ha2.
  assert (indexados bd1 = <[u := marca1]> (indexados bd) /\ sources bd1 = sources bd)
    as [Hi1 Hs1] by (destruct escribe1; by simplify_eq).
  assert (indexados bd2 = <[u := marca2]> (indexados bd1) /\ sources bd2 = sources bd1)
    as [Hi2 Hs2] by (destruct escribe2; by simplify_eq).
  assert (lotes1 = ls1) as -> by (destruct escribe1; by simplify_eq).
  assert (lotes2 = ls2) as -> by (destruct escribe2; by simplify_eq).
  rewrite Ha1, Ha2, Hi2, Hi1, insert_insert_eq, lookup_insert_eq, !dom_insert_L.
  rewrite <- !list_fmap_compose.
  split; [done|]. split.
  { rewrite !(list_fmap_compose url (doc_id hash)). by rewrite Hurls. }
  split; [done|]. split; [done|]. split; [done|].
  split; [set_solver|congruence].
Qed.

Lemma reindexar_mismo_proceso_ejemplo :
  let h := SipHash.hash (SipHash.clave 1) in
  exists r1 bd1 lotes1 r2 bd2 lotes2,
    indexar_documentos h true "2024-05-02 08:00:00" url_portada [pagina_portada]
      bd_ejemplo = Some (r1, bd1, lotes1)
    /\ indexar_documentos h true "2024-05-03 08:00:00" url_portada [pagina_portada]
         bd1 = Some (r2, bd2, lotes2)
    /\ concat (ids <$> lotes2) = concat (ids <$> lotes1)
    /\ indexados bd2 !! url_portada = Some "2024-05-03 08:00:00"
    /\ dom (indexados bd2) = dom (indexados bd1).
Proof.
  intros h.
  destruct (indexar_documentos h true "2024-05-02 08:00:00" url_portada
              [pagina_portada] bd_ejemplo) as [[[r1 bd1] lotes1]|] eqn:H1;
    [|by vm_compute in H1].
  destruct (indexar_documentos h true "2024-05-03 08:00:00" url_portada
              [pagina_portada] bd1) as [[[r2 bd2] lotes2]|] eqn:H2;
    [|by vm_compute in H2].
  exists r1, bd1, lotes1, r2, bd2, lotes2. split; [done|]. split; [done|].
  destruct (reindexar_mismo_proceso h true true _ _ url_portada
              [pagina_portada] [pagina_portada] bd_ejemplo bd1 bd2 r1 r2
              lotes1 lotes2 ltac:(done) eq_refl H1 H2)
    as (_ & Hids & _ & _ & Hu & Hdom & _).
  done.
Defined.

(** ** Further properties of the code *)

(** *** The shape of a normalised text *)

Lemma normalizar_espacios_fijos t :
  colapsar false (normalizar_espacios t) = normalizar_espacios t
  /\ lstrip (normalizar_espacios t) = normalizar_espacios t
  /\ rstrip (normalizar_espacios t) = normalizar_espacios t.
Proof.
  unfold normalizar_espacios, strip.
  split; [|split].
  - apply colapsar_fijo_rstrip. eapply colapsar_fijo_lstrip, colapsar_idem.
  - apply lstrip_fijo_rstrip, lstrip_idem.
  - apply rstrip_idem.
Qed.

Lemma colapsar_solo_espacio b t :
  Forall (fun c => es_espacio c = true -> c = 0x20%N) (colapsar b t).
Proof.
  revert b. induction t as [|c r IH]; intros b; simpl; [done|].
  destruct (es_espacio c) eqn:Hc; [destruct b|]; auto.
  constructor; [congruence|auto].
Qed.

Lemma lstrip_fijo_cabeza t c :
  lstrip t = t -> head t = Some c -> es_espacio c = false.
Proof.
  destruct t as [|d r]; [done|]. simpl. intros H [= ->].
  destruct (es_espacio c) eqn:Hc; [|done].
  assert (length (lstrip r) <= length r)%nat as Hl.
  { clear. induction r as [|d r IH]; simpl; [done|].
    destruct (es_espacio d); simpl; lia. }
  rewrite H in Hl. simpl in Hl. lia.
Qed.

Lemma rstrip_fijo_cola t c :
  rstrip t = t -> last t = Some c -> es_espacio c = false.
Proof.
  induction t as [|d r IH]; [done|].
  cbn [rstrip]. destruct r as [|d' r'].
  - simpl. destruct (es_espacio d) eqn:Hd; [done|]. by intros _ [= <-].
  - intros H Hl. rewrite last_cons_cons in Hl.
    destruct (rstrip (d' :: r')) as [|x l] eqn:Hr.
    + destruct (es_espacio d); simplify_eq.
    + apply IH; [|done]. by simplify_eq.
Qed.

Lemma colapsar_fijo_sin_pares b t i x y :
  colapsar b t = t ->
  t !! i = Some x -> t !! S i = Some y ->
  es_espacio x = true -> es_espacio y = false.
Proof.
  revert b i. induction t as [|c r IH]; intros b i H; [done|].
  destruct (colapsar_fijo_cabeza _ _ _ H) as [Hs Hn].
  destruct i as [|i]; simpl.
  - intros [= ->] Hy Hx. destruct (Hs Hx) as (_ & _ & Hr).
    destruct r as [|d r']; [done|]. simpl in Hy. simplify_eq.
    destruct (es_espacio y) eqn:Hsp; [|done].
    destruct (colapsar_fijo_cabeza _ _ _ Hr) as [Hs' _].
    by destruct (Hs' Hsp).
  - intros Hx Hy Hsp.
    destruct (es_espacio c) eqn:Hc.
    + destruct (Hs eq_refl) as (_ & _ & Hr). by eapply (IH true).
    + by eapply (IH false); [apply Hn| | |].
Qed.

(** X1: whatever the input and the NFKC function, the text [_limpiar_texto]
    returns holds no control character and no replacement character, its
    only whitespace is the plain space, it neither starts nor ends with a
    space, and no two spaces are adjacent. *)
Theorem limpiar_texto_forma_normal (nfkc : texto -> texto) (t : texto) :
  Forall (fun c => es_control c = false /\ c <> 0xFFFD%N
                   /\ (es_espacio c = true -> c = 0x20%N))
    (_limpiar_texto nfkc t)
  /\ (forall c, head (_limpiar_texto nfkc t) = Some c -> es_espacio c = false)
  /\ (forall c, last (_limpiar_texto nfkc t) = Some c -> es_espacio c = false)
  /\ (forall i x y,
        _limpiar_texto nfkc t !! i = Some x ->
        _limpiar_texto nfkc t !! S i = Some y ->
        es_espacio x = true -> es_espacio y = false).
Proof.
  destruct t as [|c0 r0].
  { simpl. split; [constructor|]. repeat split; intros; by simplify_eq. }
  unfold _limpiar_texto. cbv zeta.
  set (t3 := quitar_reemplazo (quitar_controles _)).
  destruct (normalizar_espacios_fijos t3) as (Hc & Hl & Hr).
  split; [|split; [|split]].
  - apply Forall_and. split; [|apply Forall_and; split].
    + apply normalizar_espacios_Forall; [done|]. subst t3.
      apply filter_Forall_keep.
      eapply Forall_impl; [apply filter_Forall|].
      intros x Hx. by apply negb_true_iff.
    + apply normalizar_espacios_Forall; [done|]. subst t3.
      eapply Forall_impl; [apply filter_Forall|].
      intros x Hx%negb_true_iff. by apply N.eqb_neq.
    + unfold normalizar_espacios, strip.
      apply rstrip_Forall, lstrip_Forall, colapsar_solo_espacio.
  - intros c. by apply lstrip_fijo_cabeza.
  - intros c. by apply rstrip_fijo_cola.
  - intros i x y. by apply (colapsar_fijo_sin_pares false).
Qed.

(** *** What the harvester keeps *)

(** X2: a URL is in the set [_procesar_enlaces] returns exactly when it is
    what [urljoin] makes of some anchor's [href] cut at its first [#], and
    [_es_url_valida] accepts it for the base given; an [href] on which
    [urljoin] raises adds nothing. *)
Theorem procesar_enlaces_exacto (m : Mundo) (u : string) (soup : Soup)
    (dominio_base x : string) :
  x ∈ _procesar_enlaces m u soup dominio_base
  <-> exists h, h ∈ anchors soup
                /\ urljoin m u (antes_de "#" h) = Some x
                /\ _es_url_valida x dominio_base = true.
Proof.
  unfold _procesar_enlaces.
  induction (anchors soup) as [|h l IH] using rev_ind.
  - simpl. split; [by intros ?%not_elem_of_empty|].
    by intros (h & ?%elem_of_nil & _).
  - rewrite fold_left_app. simpl.
    set (links := fold_left _ l ∅) in *.
    assert ((exists h0, h0 ∈ (l ++ [h])%list
                        /\ urljoin m u (antes_de "#" h0) = Some x
                        /\ _es_url_valida x dominio_base = true)
            <-> (x ∈ links
                 \/ (urljoin m u (antes_de "#" h) = Some x
                     /\ _es_url_valida x dominio_base = true))) as ->.
    { rewrite IH. split.
      - intros (h0 & [Hin| ->%list_elem_of_singleton]%elem_of_app & Hj & Hv);
          [left; by exists h0|by right].
      - intros [(h0 & Hin & Hj & Hv)|[Hj Hv]].
        + exists h0. split; [|done]. apply elem_of_app. by left.
        + exists h. split; [|done]. apply elem_of_app. right.
          by apply list_elem_of_singleton. }
    destruct (urljoin m u (antes_de "#" h)) as [full|] eqn:Hj.
    + destruct (_es_url_valida full dominio_base) eqn:Hv.
      * rewrite elem_of_union, elem_of_singleton. split.
        -- intros [->|?]; [right|left]; done.
        -- intros [?|[[= ->] _]]; [right|left]; done.
      * split; [by left|]. intros [?|[[= ->] ?]]; [done|congruence].
    + split; [by left|]. by intros [?|[? _]].
Qed.

(** *** What a crawl reaches *)

Lemma _procesar_enlaces_netloc m u0 p u soup :
  urlparse u0 = Some p -> _procesar_enlaces m u soup (netloc p) = ∅.
Proof.
  intros Hp. apply _procesar_enlaces_ninguna_valida.
  intros x. by eapply _es_url_valida_con_netloc.
Qed.

(** With the base the crawl computes, a turn only takes the popped URL out
    of the frontier. *)
Lemma iterar_frontera_netloc m max_paginas u0 p c e :
  urlparse u0 = Some p ->
  to_visit (iterar m max_paginas (netloc p) c e) = to_visit e ∖ {[c]}.
Proof.
  intros Hp. unfold iterar. repeat case_match; simpl;
    rewrite ?(_procesar_enlaces_netloc _ _ _ _ _ Hp); set_solver.
Qed.

Lemma bucle_solo_semilla m max_paginas u0 p e :
  urlparse u0 = Some p ->
  bucle m max_paginas (netloc p) (inicial u0) e ->
  to_visit e ∪ visited e ⊆ {[u0]} /\ sin_repetidos e.
Proof.
  intros Hp He.
  eapply (bucle_invariante m max_paginas (netloc p)
            (fun e => to_visit e ∪ visited e ⊆ {[u0]} /\ sin_repetidos e));
    [|done|].
  - intros e0 c _ Hc [Hsub Hsr]. split; [|by apply sin_repetidos_paso].
    rewrite (iterar_frontera_netloc _ _ _ _ _ _ Hp).
    assert (visited (iterar m max_paginas (netloc p) c e0)
            ⊆ {[c]} ∪ visited e0) as Hv.
    { unfold iterar. repeat case_match; simpl; set_solver. }
    set_solver.
  - split; [set_solver|]. split; [constructor|by intros q ?%elem_of_nil].
Qed.

(** X3: a crawl never leaves its seed.  Whatever the site and the bound,
    the list [rastrear_sitio_web] returns has at most one page, and the URL
    of that page is the seed URL. *)
Theorem rastrear_sitio_web_a_lo_sumo_la_semilla (m : Mundo)
    (url_inicio : string) (max_paginas : Z) (res : list Pagina) :
  rastrear_sitio_web m url_inicio max_paginas res ->
  (length res <= 1)%nat /\ forall q, q ∈ res -> url q = url_inicio.
Proof.
  intros (p & e & Hp & He & ->).
  destruct (bucle_solo_semilla _ _ _ _ _ Hp He) as (Hs & Hnd & Hv).
  assert (forall q, q ∈ results e -> url q = url_inicio) as Hu.
  { intros q Hq. specialize (Hv q Hq). set_solver. }
  split; [|done].
  destruct (results e) as [|q1 [|q2 l]]; simpl; [lia..|].
  exfalso. apply NoDup_cons in Hnd as [Hnd _]. apply Hnd.
  rewrite (Hu q1), <- (Hu q2); [|set_solver..]. simpl. left.
Qed.

Lemma rastrear_sitio_web_a_lo_sumo_la_semilla_ejemplo :
  exists res,
    rastrear_sitio_web_con mundo_ejemplo 5 url_portada 0 = Some res
    /\ (length res <= 1)%nat
    /\ forall q, q ∈ res -> url q = url_portada.
Proof.
  eexists. split; [vm_compute; reflexivity|].
  apply (rastrear_sitio_web_a_lo_sumo_la_semilla mundo_ejemplo url_portada 0).
  apply (rastrear_sitio_web_con_correcto _ 5). vm_compute. reflexivity.
Defined.

(** X4: the crawl ends for every bound, the unlimited one (0) included: when
    the seed URL parses, no run of the loop is infinite and the call
    returns a list. *)
Theorem rastrear_sitio_web_siempre_termina (m : Mundo) (url_inicio : string)
    (p : ParseResult) (max_paginas : Z) :
  urlparse url_inicio = Some p ->
  (forall e, Acc (fun e' e => paso m max_paginas (netloc p) e e') e)
  /\ exists res, rastrear_sitio_web m url_inicio max_paginas res.
Proof.
  intros Hp.
  assert (forall e, Acc (fun e' e => paso m max_paginas (netloc p) e e') e)
    as Hacc.
  { intros e. remember (size (to_visit e)) as s eqn:Hs.
    revert e Hs. induction s as [s IH] using lt_wf_ind. intros e ->.
    constructor. intros e' (_ & c & Hin & ->).
    eapply IH; [|done].
    rewrite (iterar_frontera_netloc _ _ _ _ _ _ Hp).
    apply subset_size, subset_difference_elem_of. done. }
  split; [done|].
  destruct (bucle_existe m max_paginas (netloc p) (inicial url_inicio))
    as [e He]; [done|].
  by exists (results e), p, e.
Qed.

Lemma rastrear_sitio_web_siempre_termina_ejemplo :
  exists res, rastrear_sitio_web mundo_ejemplo url_portada 0 res.
Proof.
  apply (rastrear_sitio_web_siempre_termina mundo_ejemplo url_portada
           {| scheme := "https"; netloc := "docs.python.org"; path := "/es/3/" |}
           0).
  reflexivity.
Defined.

(** X5: with a negative bound the loop is not entered: the crawl returns
    the empty list. *)
Theorem rastrear_sitio_web_cota_negativa (m : Mundo) (url_inicio : string)
    (max_paginas : Z) (res : list Pagina) :
  (max_paginas < 0)%Z ->
  rastrear_sitio_web m url_inicio max_paginas res ->
  res = [].
Proof.
  intros HN (p & e & _ & He & ->).
  assert (continua max_paginas (inicial url_inicio) = false) as Hc.
  { unfold continua, faltan_paginas. simpl.
    apply andb_false_iff. right. apply orb_false_iff.
    split; [apply Z.eqb_neq|apply Z.ltb_ge]; lia. }
  inversion He; subst; [done|congruence].
Qed.

Lemma rastrear_sitio_web_cota_negativa_ejemplo :
  rastrear_sitio_web_con mundo_ejemplo 0 url_portada (-1) = Some []
  /\ forall res, rastrear_sitio_web mundo_ejemplo url_portada (-1) res ->
                 res = [].
Proof.
  split; [reflexivity|].
  intros res. apply (rastrear_sitio_web_cota_negativa mundo_ejemplo
                       url_portada (-1) res). lia.
Defined.

(** *** Accepted pages *)

(** X6: a page that [extraer_pagina_individual] returns carries the URL
    asked for, the clock of the request, the cleaned main content of the
    document fetched, of twenty words at least, and, unless the URL is
    empty, a title that is not empty. *)
Theorem extraer_pagina_individual_aceptada (m : Mundo) (n : nat) (u : string)
    (pagina : Pagina) :
  extraer_pagina_individual m n u = Some pagina ->
  url pagina = u
  /\ ultima_actualizacion pagina = ahora m n
  /\ (20 <= num_palabras (contenido pagina))%nat
  /\ (exists soup, _obtener_contenido m n u = Some soup
                   /\ _extraer_contenido_principal m soup
                      = Some (contenido pagina))
  /\ (u <> "" -> titulo pagina <> []).
Proof.
  unfold extraer_pagina_individual.
  destruct (_obtener_contenido m n u) as [soup|]; [|done].
  set (title0 := match title soup with Some _ => _ | None => _ end).
  destruct (_extraer_contenido_principal m soup) as [c|] eqn:Hc.
  2: { by repeat case_match. }
  simpl. destruct (es_vacio c || (num_palabras c <? 20)%nat) eqn:Hins.
  { by repeat case_match. }
  apply orb_false_iff in Hins as [_ Hw%Nat.ltb_ge].
  destruct (es_vacio title0) eqn:Ht.
  - destruct (urlparse u) as [q|]; [|done].
    intros [= <-]. simpl. repeat split; [done|by exists soup|].
    intros Hu. destruct (String.eqb (ultimo_segmento "/" (path q)) "") eqn:Hs.
    + destruct u; [done|]. done.
    + apply String.eqb_neq in Hs.
      destruct (ultimo_segmento "/" (path q)); [done|]. done.
  - intros [= <-]. simpl. repeat split; [done|by exists soup|].
    intros _. by destruct title0.
Qed.

Lemma extraer_pagina_individual_aceptada_ejemplo :
  url <$> extraer_pagina_individual mundo_ejemplo 0 url_portada
  = Some url_portada
  /\ (20 <= num_palabras veinte_palabras)%nat.
Proof.
  split; [reflexivity|].
  destruct (extraer_pagina_individual mundo_ejemplo 0 url_portada)
    as [pagina|] eqn:H; [|by vm_compute in H].
  destruct (extraer_pagina_individual_aceptada mundo_ejemplo 0 url_portada
              pagina H) as (_ & _ & Hw & (soup & Hs & Hc) & _).
  vm_compute in H. injection H as <-. exact Hw.
Defined.

(** *** Batches *)

Lemma armar_lote_paralelo hash batch l :
  armar_lote hash batch = Some l ->
  length (ids l) = length batch
  /\ length (docs l) = length batch
  /\ length (metadatas l) = length batch
  /\ docs l = contenido <$> batch.
Proof.
  revert l. induction batch as [|d r IH]; intros l; simpl.
  - by intros [= <-].
  - destruct (metadata_de d); [|done].
    destruct (armar_lote hash r) as [l'|]; [|done].
    intros [= <-]. simpl. destruct (IH _ eq_refl) as (-> & -> & -> & ->).
    done.
Qed.

Lemma trocear_tamanos n (documentos : list Pagina) :
  (length documentos <= n)%nat ->
  Forall (fun b => (1 <= length b <= batch_size)%nat) (trocear n documentos)
  /\ length (trocear n documentos) = ((length documentos + 99) / 100)%nat.
Proof.
  unfold batch_size.
  revert documentos. induction n as [|k IH]; intros documentos Hn.
  - destruct documentos; [done|simpl in Hn; lia].
  - destruct documentos as [|d r]; [done|].
    cbn [trocear]. unfold batch_size.
    set (l := d :: r) in *.
    assert (1 <= length l)%nat as Hl by (subst l; simpl; lia).
    destruct (IH (skipn 100 l)) as [Hf Hlen].
    { rewrite length_skipn. lia. }
    split.
    + constructor; [|done]. rewrite length_firstn. lia.
    + cbn [length]. rewrite Hlen, length_skipn.
      destruct (Nat.le_gt_cases (length l) 100) as [Hle|Hgt].
      * replace (length l - 100)%nat with O by lia.
        rewrite (Nat.div_small (0 + 99)) by lia.
        assert ((length l + 99) / 100 = 1)%nat as ->; [|done].
        symmetry. apply Nat.div_unique with (r := (length l - 1)%nat); lia.
      * replace (length l + 99)%nat
          with ((length l - 100 + 99) + 1 * 100)%nat by lia.
        rewrite Nat.div_add by lia. lia.
Qed.

(** X7: when [agregar_a_base_vectorial] ends without raising, each batch it
    hands over holds between 1 and 100 documents, with as many identifiers
    as texts as metadata records; the batches are
    ceil(len(documentos) / 100) in number, and put end to end they carry
    the identifiers and the texts of the documents in order. *)
Theorem agregar_a_base_vectorial_lotes (hash : string -> Z)
    (documentos : list Pagina) (lotes : list Lote) :
  agregar_a_base_vectorial hash documentos = Some lotes ->
  Forall (fun l => (1 <= length (ids l) <= 100)%nat
                   /\ length (docs l) = length (ids l)
                   /\ length (metadatas l) = length (ids l)) lotes
  /\ length lotes = ((length documentos + 99) / 100)%nat
  /\ concat (ids <$> lotes) = (fun d => doc_id hash (url d)) <$> documentos
  /\ concat (docs <$> lotes) = contenido <$> documentos.
Proof.
  intros H. pose proof (agregar_a_base_vectorial_ids _ _ _ H) as Hids.
  unfold agregar_a_base_vectorial in H. apply mapM_Some in H.
  destruct (trocear_tamanos (length documentos) documentos) as [Hf Hlen];
    [done|].
  pose proof (trocear_concat (length documentos) documentos) as Hcat.
  split; [|split; [|split; [done|]]].
  - clear Hlen Hids Hcat.
    induction H as [|b l bs ls Hl _ IH]; [constructor|].
    apply Forall_cons in Hf as [Hb Hf].
    destruct (armar_lote_paralelo _ _ _ Hl) as (Hi & Hd & Hm & _).
    constructor; [|by apply IH]. unfold batch_size in Hb. lia.
  - rewrite <- Hlen. symmetry. by eapply Forall2_length.
  - assert (concat (docs <$> lotes)
            = contenido <$> concat (trocear (length documentos) documentos))
      as ->; [|by rewrite Hcat].
    clear Hf Hlen Hids Hcat.
    induction H as [|b l bs ls Hl _ IH]; [done|].
    rewrite fmap_cons. cbn [concat]. rewrite fmap_app, IH. f_equal.
    by destruct (armar_lote_paralelo _ _ _ Hl) as (_ & _ & _ & ->).
Qed.

Lemma agregar_a_base_vectorial_lotes_ejemplo :
  exists lotes,
    agregar_a_base_vectorial (SipHash.hash (SipHash.clave 0))
      (repeat pagina_portada 250) = Some lotes
    /\ length lotes = 3%nat
    /\ Forall (fun l => (1 <= length (ids l) <= 100)%nat
                        /\ length (docs l) = length (ids l)
                        /\ length (metadatas l) = length (ids l)) lotes.
Proof.
  destruct (agregar_a_base_vectorial (SipHash.hash (SipHash.clave 0))
              (repeat pagina_portada 250)) as [lotes|] eqn:H;
    [|by vm_compute in H].
  exists lotes. split; [done|].
  destruct (agregar_a_base_vectorial_lotes _ _ _ H) as (Hf & Hlen & _).
  split; [|done]. rewrite Hlen, repeat_length. reflexivity.
Defined.

(** *** Indexing one source *)

Lemma rastrear_sitio_web_semilla_o_nada m url_inicio max_paginas res :
  rastrear_sitio_web m url_inicio max_paginas res ->
  is_Some (urlparse url_inicio)
  /\ (res = [] \/ exists q, res = [q] /\ url q = url_inicio).
Proof.
  intros (p & e & Hp & He & ->). split; [by eexists|].
  destruct (bucle_solo_semilla _ _ _ _ _ Hp He) as (Hs & Hnd & Hv).
  assert (forall q, q ∈ results e -> url q = url_inicio) as Hu.
  { intros q Hq. specialize (Hv q Hq). set_solver. }
  destruct (results e) as [|q1 [|q2 l]]; [by left| |].
  - right. exists q1. split; [done|]. apply Hu. set_solver.
  - exfalso. apply NoDup_cons in Hnd as [Hnd _]. apply Hnd.
    rewrite (Hu q1), <- (Hu q2); [|set_solver..]. simpl. left.
Qed.

(** X8: a call of [indexar_fuente] whose crawl returns never raises
    afterwards.  It replies either with a failure, the state untouched and
    nothing handed to the collaborator, or with a success for exactly one
    document, whose identifier is the one of the source URL, the index
    record then holding the timestamp of the call under that URL and the
    source list being as before. *)
Theorem indexar_fuente_responde (m : Mundo) (hash : string -> Z)
    (escribe : bool) (marca u : string) (max_paginas : Z)
    (profundidad : option Z) (bd : BaseDatos)
    (salida : option (ResultadoIndexar * BaseDatos * list Lote)) :
  indexar_fuente m hash escribe marca u max_paginas profundidad bd salida ->
  exists r bd' lotes,
    salida = Some (r, bd', lotes)
    /\ (idx_exito r = false ->
        bd' = bd /\ lotes = [] /\ idx_documentos_indexados r = O)
    /\ (idx_exito r = true ->
        idx_documentos_indexados r = 1%nat
        /\ concat (ids <$> lotes) = [doc_id hash u]
        /\ indexados bd' = <[u := marca]> (indexados bd)
        /\ sources bd' = sources bd).
Proof.
  intros (documentos & Hr & ->).
  destruct (rastrear_sitio_web_semilla_o_nada _ _ _ _ Hr)
    as ([p Hp] & [->|(q & -> & Hq)]).
  - simpl. eexists _, _, _. split; [done|]. split; [done|]. done.
  - unfold indexar_documentos, agregar_a_base_vectorial.
    cbn [length trocear]. unfold batch_size. cbn [firstn skipn mapM armar_lote].
    unfold metadata_de. rewrite Hq, Hp. cbn.
    eexists _, _, _. split; [done|]. split; [done|]. intros _.
    destruct escribe; done.
Qed.

Lemma indexar_fuente_responde_ejemplo :
  exists r bd' lotes,
    indexar_fuente mundo_ejemplo (SipHash.hash (SipHash.clave 0)) true
      "2024-05-02 08:00:00" url_portada 0 None bd_ejemplo
      (Some (r, bd', lotes))
    /\ idx_exito r = true
    /\ idx_documentos_indexados r = 1%nat.
Proof.
  assert (exists documentos,
            rastrear_sitio_web_con mundo_ejemplo 5 url_portada 0
            = Some documentos) as [documentos Hd].
  { eexists. vm_compute. reflexivity. }
  assert (indexar_fuente mundo_ejemplo (SipHash.hash (SipHash.clave 0)) true
            "2024-05-02 08:00:00" url_portada 0 None bd_ejemplo
            (indexar_documentos (SipHash.hash (SipHash.clave 0)) true
               "2024-05-02 08:00:00" url_portada documentos bd_ejemplo))
    as H.
  { exists documentos. split; [|done].
    by apply (rastrear_sitio_web_con_correcto _ 5). }
  destruct (indexar_fuente_responde _ _ _ _ _ _ _ _ _ H)
    as (r & bd' & lotes & Heq & _ & Hok).
  rewrite Heq in H. exists r, bd', lotes. split; [done|].
  assert (idx_exito r = true) as Hex.
  { vm_compute in Hd. injection Hd as <-. vm_compute in Heq.
    by injection Heq as <- _ _. }
  split; [done|]. by destruct (Hok Hex).
Defined.

(** *** Adding, removing and updating sources *)

Lemma guardar_fuentes_campos escribe bd :
  sources (_guardar_fuentes escribe bd) = sources bd
  /\ indexados (_guardar_fuentes escribe bd) = indexados bd
  /\ indexados_json (_guardar_fuentes escribe bd) = indexados_json bd
  /\ fuentes_json (_guardar_fuentes escribe bd)
     = (if escribe then Some (sources bd) else fuentes_json bd).
Proof. by destruct escribe. Qed.

Lemma quitar_primera_None u l :
  u ∉ fuente_url <$> l -> quitar_primera u l = None.
Proof.
  induction l as [|f l IH]; simpl; [done|].
  intros Hno. destruct (String.eqb (fuente_url f) u) eqn:Hf.
  - apply String.eqb_eq in Hf. set_solver.
  - rewrite IH; [done|]. set_solver.
Qed.

Lemma quitar_primera_final u f l :
  fuente_url f = u -> u ∉ fuente_url <$> l ->
  quitar_primera u (l ++ [f]) = Some (f, l).
Proof.
  intros Hf. induction l as [|g l IH]; simpl.
  - intros _. apply String.eqb_eq in Hf. by rewrite Hf.
  - intros Hno. destruct (String.eqb (fuente_url g) u) eqn:Hg.
    + apply String.eqb_eq in Hg. set_solver.
    + rewrite IH; [done|]. set_solver.
Qed.

(** X9: [agregar_fuente] with a URL that parses to a scheme and a host and
    is not yet registered succeeds: the new source, active and carrying the
    fields given, is appended at the end of the list, the index record is
    untouched, the file holds the new list exactly when the write
    succeeds, and adding the same URL again is refused and changes
    nothing. *)
Theorem agregar_fuente_nueva (escribe : bool) (hoy u : string)
    (nombre descripcion categoria : texto) (idioma : string) (bd : BaseDatos) :
  tiene_esquema_y_host u ->
  ~ registrada u bd ->
  let nueva :=
    {| fuente_url := u; fuente_nombre := nombre;
       fuente_descripcion := descripcion; fuente_categoria := categoria;
       fuente_fecha_agregada := hoy; fuente_estado := "activo";
       fuente_idioma := idioma |} in
  let r := (agregar_fuente escribe hoy u nombre descripcion categoria idioma bd).1 in
  let bd' := (agregar_fuente escribe hoy u nombre descripcion categoria idioma bd).2 in
  exito r = true
  /\ fuente r = Some nueva
  /\ sources bd' = (sources bd ++ [nueva])%list
  /\ indexados bd' = indexados bd
  /\ fuentes_json bd'
     = (if escribe then Some (sources bd ++ [nueva])%list else fuentes_json bd)
  /\ (forall escribe2 hoy2 nombre2 descripcion2 categoria2 idioma2,
        agregar_fuente escribe2 hoy2 u nombre2 descripcion2 categoria2
          idioma2 bd'
        = (fallo "La fuente ya existe", bd')).
Proof.
  intros (p & Hp & Hs & Hn) Hno nueva. unfold agregar_fuente.
  rewrite (urlparse_Some _ _ Hp).
  apply String.eqb_neq in Hs, Hn. rewrite Hs, Hn. cbn [orb].
  destruct (ya_existe u (sources bd)) eqn:He.
  { apply ya_existe_registrada in He. done. }
  cbn [fst snd]. fold nueva.
  set (bd1 := {| sources := (sources bd ++ [nueva])%list |}).
  destruct (guardar_fuentes_campos escribe bd1) as (H1 & H2 & _ & H4).
  split; [done|]. split; [done|]. split; [done|]. split; [done|].
  split; [done|].
  intros. rewrite H1. cbn [sources bd1].
  assert (ya_existe u (sources bd ++ [nueva]) = true) as ->; [|done].
  apply ya_existe_registrada. rewrite fmap_app. set_solver.
Qed.

Lemma agregar_fuente_nueva_ejemplo :
  let u := "https://example.org/docs/" in
  exito (agregar_fuente true "2024-06-01" u [] [] [] "en" bd_ejemplo).1 = true
  /\ length (sources (agregar_fuente true "2024-06-01" u [] [] [] "en"
                        bd_ejemplo).2) = 2%nat.
Proof.
  intros u.
  assert (tiene_esquema_y_host u) as H1.
  { eexists. split; [reflexivity|]. done. }
  assert (~ registrada u bd_ejemplo) as H2.
  { unfold registrada. simpl. by intros [= ]%list_elem_of_singleton. }
  destruct (agregar_fuente_nueva true "2024-06-01" u [] [] [] "en" bd_ejemplo
              H1 H2) as (He & _ & Hs & _).
  split; [done|]. by rewrite Hs.
Defined.

(** X10: [eliminar_fuente] with a URL that no source of the list has
    replies with the failure "Fuente no encontrada" and leaves the list,
    the index record and both files as they were, also when the index
    record holds an entry for that URL. *)
Theorem eliminar_fuente_desconocida (escribe_fuentes escribe_indexados : bool)
    (u : string) (bd : BaseDatos) :
  ~ registrada u bd ->
  eliminar_fuente escribe_fuentes escribe_indexados u bd
  = (fallo "Fuente no encontrada", bd).
Proof.
  intros Hno. unfold eliminar_fuente. by rewrite quitar_primera_None.
Qed.

Lemma eliminar_fuente_desconocida_ejemplo :
  eliminar_fuente true true url_tutorial bd_ejemplo
  = (fallo "Fuente no encontrada", bd_ejemplo).
Proof.
  apply (eliminar_fuente_desconocida true true url_tutorial bd_ejemplo).
  unfold registrada. simpl. by intros [= ]%list_elem_of_singleton.
Defined.

(** X11: adding a new source and then removing it gives back the source
    list there was, in the same order; the index record comes back without
    an entry for that URL, all its other entries kept. *)
Theorem agregar_y_eliminar (e1 e2 e3 : bool) (hoy u : string)
    (nombre descripcion categoria : texto) (idioma : string) (bd : BaseDatos) :
  tiene_esquema_y_host u ->
  ~ registrada u bd ->
  let bd1 := (agregar_fuente e1 hoy u nombre descripcion categoria idioma bd).2 in
  exito (eliminar_fuente e2 e3 u bd1).1 = true
  /\ sources (eliminar_fuente e2 e3 u bd1).2 = sources bd
  /\ indexados (eliminar_fuente e2 e3 u bd1).2 = delete u (indexados bd).
Proof.
  intros (p & Hp & Hs & Hn) Hno. unfold agregar_fuente.
  rewrite (urlparse_Some _ _ Hp).
  apply String.eqb_neq in Hs, Hn. rewrite Hs, Hn. cbn [orb].
  destruct (ya_existe u (sources bd)) eqn:He.
  { apply ya_existe_registrada in He. done. }
  cbn [snd]. cbv zeta.
  set (nueva := {| fuente_url := u |}).
  set (bd0 := {| sources := (sources bd ++ [nueva])%list |}).
  destruct (guardar_fuentes_campos e1 bd0) as (H1 & H2 & _ & _).
  unfold eliminar_fuente. rewrite H1. cbn [sources bd0].
  rewrite (quitar_primera_final u nueva (sources bd) eq_refl Hno).
  set (bd2 := _guardar_fuentes e2 _).
  destruct (guardar_fuentes_campos e2
              {| sources := sources bd;
                 indexados := indexados (_guardar_fuentes e1 bd0);
                 fuentes_json := fuentes_json (_guardar_fuentes e1 bd0);
                 indexados_json := indexados_json (_guardar_fuentes e1 bd0) |})
    as (G1 & G2 & _ & _).
  fold bd2 in G1, G2. cbn [sources indexados] in G1, G2.
  rewrite H2 in G2. cbn [indexados bd0] in G2.
  split; [done|]. cbn [snd].
  destruct (indexados bd2 !! u) as [t|] eqn:Ht.
  - destruct e3; simpl; rewrite G1, G2; done.
  - rewrite G1, G2. split; [done|]. rewrite G2 in Ht.
    by rewrite delete_id.
Qed.

Lemma agregar_y_eliminar_ejemplo :
  let u := "https://example.org/docs/" in
  sources (eliminar_fuente true true u
             (agregar_fuente true "2024-06-01" u [] [] [] "en" bd_ejemplo).2).2
  = sources bd_ejemplo.
Proof.
  intros u.
  assert (tiene_esquema_y_host u) as H1.
  { eexists. split; [reflexivity|]. done. }
  assert (~ registrada u bd_ejemplo) as H2.
  { unfold registrada. simpl. by intros [= ]%list_elem_of_singleton. }
  by destruct (agregar_y_eliminar true true true "2024-06-01" u [] [] [] "en"
                 bd_ejemplo H1 H2) as (_ & Hs & _).
Defined.

Lemma aplicar_cambios_url kwargs f :
  fuente_url (aplicar_cambios kwargs f) = fuente_url f
  /\ fuente_fecha_agregada (aplicar_cambios kwargs f) = fuente_fecha_agregada f.
Proof.
  unfold aplicar_cambios. revert f.
  induction kwargs as [|c kwargs IH]; intros f; cbn [fold_left]; [done|].
  destruct (IH (if en_lista (campo_de c) campos_permitidos
                then poner_campo f c else f)) as [-> ->].
  destruct (en_lista (campo_de c) campos_permitidos); [|done].
  by destruct c.
Qed.

Lemma actualizar_primera_Some u kwargs l g l' :
  actualizar_primera u kwargs l = Some (g, l') ->
  exists l1 f l2,
    l = (l1 ++ f :: l2)%list /\ fuente_url f = u /\ (u ∉ fuente_url <$> l1)
    /\ g = aplicar_cambios kwargs f /\ l' = (l1 ++ g :: l2)%list.
Proof.
  revert l'. induction l as [|f l IH]; intros l'; simpl; [done|].
  destruct (String.eqb (fuente_url f) u) eqn:Hf.
  - intros [= <- <-]. apply String.eqb_eq in Hf.
    exists [], f, l. repeat split; [done|]. by intros ?%elem_of_nil.
  - destruct (actualizar_primera u kwargs l) as [[g' r']|]; [|done].
    intros [= <- <-].
    destruct (IH _ eq_refl) as (l1 & f0 & l2 & -> & Hu & Hno & -> & ->).
    exists (f :: l1), f0, l2. repeat split; [done|].
    apply String.eqb_neq in Hf. rewrite fmap_cons. set_solver.
Qed.

Lemma actualizar_primera_None u kwargs l :
  actualizar_primera u kwargs l = None <-> u ∉ fuente_url <$> l.
Proof.
  induction l as [|f l IH]; simpl; [split; [by intros _ ?%elem_of_nil|done]|].
  destruct (String.eqb (fuente_url f) u) eqn:Hf.
  - apply String.eqb_eq in Hf. split; [done|]. set_solver.
  - apply String.eqb_neq in Hf.
    destruct (actualizar_primera u kwargs l) as [[g r]|].
    + split; [done|]. intros Hno. exfalso.
      assert (u ∉ fuente_url <$> l) as Hl by set_solver.
      apply IH in Hl. done.
    + split; [|done]. intros _. destruct IH as [IH _]. set_solver.
Qed.

Lemma actualizar_fuente_urls escribe u kwargs bd :
  fuente_url <$> sources (actualizar_fuente escribe u kwargs bd).2
  = fuente_url <$> sources bd.
Proof.
  unfold actualizar_fuente.
  destruct (actualizar_primera u kwargs (sources bd)) as [[g l']|] eqn:Ha;
    [|done].
  destruct (actualizar_primera_Some _ _ _ _ _ Ha)
    as (l1 & f & l2 & Hl & _ & _ & -> & ->).
  cbn [snd].
  destruct (guardar_fuentes_campos escribe
              {| sources := (l1 ++ aplicar_cambios kwargs f :: l2)%list;
                 indexados := indexados bd;
                 fuentes_json := fuentes_json bd;
                 indexados_json := indexados_json bd |}) as (-> & _).
  cbn [sources]. destruct (aplicar_cambios_url kwargs f) as [Hurl _].
  by rewrite Hl, !fmap_app, !fmap_cons, Hurl.
Qed.

(** X12: [actualizar_fuente] never changes a URL, a date of addition, the
    number or the order of the sources, or the index record, whatever
    keywords it is given.  It succeeds exactly when some source has the
    URL; then only the first such source changes, to the one with the
    permitted keywords applied, which is also the source replied.
    Otherwise it replies "Fuente no encontrada" and writes nothing. *)
Theorem actualizar_fuente_conserva (escribe : bool) (u : string)
    (kwargs : list Cambio) (bd : BaseDatos) :
  let r := (actualizar_fuente escribe u kwargs bd).1 in
  let bd' := (actualizar_fuente escribe u kwargs bd).2 in
  fuente_url <$> sources bd' = fuente_url <$> sources bd
  /\ fuente_fecha_agregada <$> sources bd'
     = fuente_fecha_agregada <$> sources bd
  /\ indexados bd' = indexados bd
  /\ (exito r = true <-> registrada u bd)
  /\ (registrada u bd ->
      exists l1 f l2,
        sources bd = (l1 ++ f :: l2)%list /\ fuente_url f = u
        /\ (u ∉ fuente_url <$> l1)
        /\ sources bd' = (l1 ++ aplicar_cambios kwargs f :: l2)%list
        /\ fuente r = Some (aplicar_cambios kwargs f))
  /\ (~ registrada u bd ->
      actualizar_fuente escribe u kwargs bd = (fallo "Fuente no encontrada", bd)).
Proof.
  unfold actualizar_fuente, registrada. cbv zeta.
  destruct (actualizar_primera u kwargs (sources bd)) as [[g l']|] eqn:Ha.
  - destruct (actualizar_primera_Some _ _ _ _ _ Ha)
      as (l1 & f & l2 & Hl & Hu & Hno & -> & ->).
    cbn [fst snd].
    set (bd1 := {| sources := (l1 ++ aplicar_cambios kwargs f :: l2)%list |}).
    destruct (guardar_fuentes_campos escribe bd1) as (-> & -> & _ & _).
    cbn [sources indexados bd1].
    destruct (aplicar_cambios_url kwargs f) as [Hurl Hfecha].
    assert (u ∈ fuente_url <$> sources bd) as Hreg.
    { rewrite Hl, fmap_app, fmap_cons. set_solver. }
    split; [by rewrite Hl, !fmap_app, !fmap_cons, Hurl|].
    split; [by rewrite Hl, !fmap_app, !fmap_cons, Hfecha|].
    split; [done|]. split; [done|].
    split; [|done]. intros _. by exists l1, f, l2.
  - apply actualizar_primera_None in Ha. cbn [fst snd].
    split; [done|]. split; [done|]. split; [done|].
    split; [split; [done|]; intros ?; done|]. split; [done|]. done.
Qed.

(** X13: the URLs of the source list stay pairwise distinct under
    [agregar_fuente], [eliminar_fuente] and [actualizar_fuente]. *)
Theorem urls_unicas_se_conservan (bd : BaseDatos) :
  NoDup (fuente_url <$> sources bd) ->
  (forall escribe hoy u nombre descripcion categoria idioma,
      NoDup (fuente_url
               <$> sources (agregar_fuente escribe hoy u nombre descripcion
                              categoria idioma bd).2))
  /\ (forall e1 e2 u,
        NoDup (fuente_url <$> sources (eliminar_fuente e1 e2 u bd).2))
  /\ (forall escribe u kwargs,
        NoDup (fuente_url <$> sources (actualizar_fuente escribe u kwargs bd).2)).
Proof.
  intros Hnd. split; [|split].
  - intros. by apply agregar_fuente_urls_unicas.
  - intros e1 e2 u. unfold eliminar_fuente.
    destruct (quitar_primera u (sources bd)) as [[f resto]|] eqn:Hq; [|done].
    destruct (quitar_primera_Some _ _ _ _ Hq) as (l1 & l2 & Hl & -> & _ & _).
    cbn [snd].
    set (bd1 := _guardar_fuentes e1 _).
    assert (sources bd1 = (l1 ++ l2)%list) as Hs1.
    { subst bd1. by destruct e1. }
    assert (NoDup (fuente_url <$> (l1 ++ l2)%list)) as Hnd'.
    { rewrite Hl, fmap_app, fmap_cons in Hnd. rewrite fmap_app.
      apply NoDup_app in Hnd as (H1 & H2 & H3%NoDup_cons).
      apply NoDup_app. split; [done|]. split; [|tauto].
      intros x Hx Hx2. apply (H2 x Hx). set_solver. }
    destruct (indexados bd1 !! u); [|by rewrite Hs1].
    destruct e2; simpl; by rewrite Hs1.
  - intros escribe u kwargs.
    by rewrite actualizar_fuente_urls.
Qed.

Lemma urls_unicas_se_conservan_ejemplo :
  NoDup (fuente_url <$> sources bd_dos_fuentes)
  /\ NoDup (fuente_url
              <$> sources (agregar_fuente true "2024-06-01" url_tutorial [] []
                             [] "es" bd_dos_fuentes).2)
  /\ NoDup (fuente_url
              <$> sources (eliminar_fuente true true url_portada
                             bd_dos_fuentes).2).
Proof.
  assert (NoDup (fuente_url <$> sources bd_dos_fuentes)) as H.
  { simpl. apply NoDup_cons. split; [|apply NoDup_singleton].
    by intros [= ]%list_elem_of_singleton. }
  split; [done|].
  destruct (urls_unicas_se_conservan bd_dos_fuentes H) as (Ha & He & _).
  split; [apply Ha|apply He].
Defined.

(** *** Memory and files *)

(** X14: when the writes to disk succeed, every operation on the registry
    and the index record leaves the two files in step with the object: a
    new object started on them would load the same source list and the
    same index record.  This holds from the start, for the object that
    [__init__] builds from whatever files there are. *)
Theorem coherente_con_escrituras (hoy : string) (bd : BaseDatos) :
  coherente hoy bd ->
  (forall hoy' u nombre descripcion categoria idioma,
      coherente hoy
        (agregar_fuente true hoy' u nombre descripcion categoria idioma bd).2)
  /\ (forall u, coherente hoy (eliminar_fuente true true u bd).2)
  /\ (forall u kwargs, coherente hoy (actualizar_fuente true u kwargs bd).2)
  /\ (forall hash marca u documentos r bd' lotes,
        indexar_documentos hash true marca u documentos bd
        = Some (r, bd', lotes) ->
        coherente hoy bd').
Proof.
  intros [Hf Hi]. split; [|split; [|split]].
  - intros. unfold agregar_fuente. by repeat case_match.
  - intros u. unfold eliminar_fuente.
    destruct (quitar_primera u (sources bd)) as [[f resto]|]; [|done].
    cbn [snd _guardar_fuentes indexados].
    destruct (indexados bd !! u); [done|]. done.
  - intros u kwargs. unfold actualizar_fuente. by repeat case_match.
  - intros hash marca u documentos r bd' lotes. unfold indexar_documentos.
    destruct documentos as [|d ds]; [by intros [= <- <- <-]|].
    destruct (agregar_a_base_vectorial hash (d :: ds)); [|done].
    by intros [= <- <- <-].
Qed.

Lemma coherente_con_escrituras_ejemplo :
  coherente "2024-06-01" (iniciar "2024-06-01" None None)
  /\ coherente "2024-06-01"
       (eliminar_fuente true true url_portada
          (iniciar "2024-06-01" None None)).2
  /\ sources (eliminar_fuente true true url_portada
                (iniciar "2024-06-01" None None)).2 = [].
Proof.
  assert (coherente "2024-06-01" (iniciar "2024-06-01" None None)) as H
    by done.
  split; [done|]. split; [|reflexivity].
  by destruct (coherente_con_escrituras _ _ H) as (_ & He & _).
Defined.

(** A failed write breaks the step: the source added stays in memory and a
    restart does not find it. *)
Example escritura_fallida_no_coherente :
  let bd := (agregar_fuente false "2024-06-01" url_tutorial [] [] [] "es"
               bd_ejemplo).2 in
  length (sources bd) = 2%nat
  /\ length (_cargar_fuentes "2024-06-01" (fuentes_json bd)) = 1%nat.
Proof. split; reflexivity. Qed.

(** *** Statistics *)

Section Contar.
Context `{Countable K}.

Lemma contar_snoc (l : list K) k :
  contar (l ++ [k])%list
  = <[k := (default O (contar l !! k) + 1)%nat]> (contar l).
Proof. unfold contar. by rewrite fold_left_app. Qed.

Lemma contar_lookup (l : list K) k :
  default O (contar l !! k)
  = length (List.filter (fun x => bool_decide (x = k)) l).
Proof.
  induction l as [|x l IH] using rev_ind; [done|].
  rewrite contar_snoc, List.filter_app, length_app. simpl.
  case_bool_decide as Hx.
  - subst x. rewrite lookup_insert_eq. simpl. lia.
  - rewrite lookup_insert_ne by done. simpl. lia.
Qed.

Lemma contar_dom (l : list K) k : is_Some (contar l !! k) <-> In k l.
Proof.
  induction l as [|x l IH] using rev_ind.
  - unfold contar. simpl. rewrite lookup_empty. split; [by intros [? ?]|done].
  - rewrite contar_snoc, in_app_iff. simpl.
    destruct (decide (x = k)) as [->|Hx].
    + rewrite lookup_insert_eq. split; [auto|by eexists].
    + rewrite lookup_insert_ne by done. rewrite IH. tauto.
Qed.

Lemma suma_valores_insert (d : gmap K nat) k :
  suma_valores (<[k := (default O (d !! k) + 1)%nat]> d) = S (suma_valores d).
Proof.
  unfold suma_valores.
  destruct (d !! k) as [n|] eqn:Hk.
  - rewrite <- (insert_delete_eq d k (default O (Some n) + 1)%nat).
    rewrite map_fold_insert_L; [|intros; lia|apply lookup_delete_eq].
    rewrite <- (insert_delete_id d k n Hk) at 2.
    rewrite map_fold_insert_L; [|intros; lia|apply lookup_delete_eq].
    simpl. lia.
  - rewrite map_fold_insert_L; [|intros; lia|done]. simpl. lia.
Qed.

Lemma suma_valores_contar (l : list K) : suma_valores (contar l) = length l.
Proof.
  induction l as [|x l IH] using rev_ind; [done|].
  rewrite contar_snoc, suma_valores_insert, IH, length_app. simpl. lia.
Qed.

End Contar.

Lemma contar_positivo `{Countable K} (l : list K) k n :
  contar l !! k = Some n -> (0 < n)%nat.
Proof.
  intros Hk.
  assert (In k l) as Hin by (apply contar_dom; by eexists).
  pose proof (contar_lookup l k) as Hn. rewrite Hk in Hn. simpl in Hn.
  rewrite Hn. clear Hn Hk.
  induction l as [|x l IH]; [done|].
  simpl. case_bool_decide as Hx; simpl; [lia|].
  destruct Hin as [->|Hin]; [done|auto].
Qed.

Lemma filter_fmap_length {A B} (f : A -> B) (p : B -> bool) (l : list A) :
  length (List.filter p (f <$> l)) = length (List.filter (fun a => p (f a)) l).
Proof.
  induction l as [|a l IH]; [done|].
  rewrite fmap_cons. cbn [List.filter].
  destruct (p (f a)); cbn [length]; by rewrite IH.
Qed.

Lemma filter_length_le {A} (p : A -> bool) (l : list A) :
  (length (List.filter p l) <= length l)%nat.
Proof. induction l as [|a l IH]; simpl; [lia|]. destruct (p a); simpl; lia. Qed.

(** X15: in the reply of [obtener_estadisticas], the number kept for a
    category is the number of registered sources of that category, and the
    same for the languages; an entry is never 0; the numbers of the
    categories add up to [total_fuentes], and so do those of the
    languages; and [fuentes_activas] is at most [total_fuentes]. *)
Theorem obtener_estadisticas_cuentas (count : option Z) (marca : string)
    (bd : BaseDatos) :
  let e := obtener_estadisticas count marca bd in
  (forall c,
     default O (categorias e !! c)
     = length (List.filter (fun f => bool_decide (fuente_categoria f = c))
                 (sources bd)))
  /\ (forall i,
        default O (idiomas e !! i)
        = length (List.filter (fun f => bool_decide (fuente_idioma f = i))
                    (sources bd)))
  /\ (forall c n, categorias e !! c = Some n -> (0 < n)%nat)
  /\ (forall i n, idiomas e !! i = Some n -> (0 < n)%nat)
  /\ suma_valores (categorias e) = total_fuentes e
  /\ suma_valores (idiomas e) = total_fuentes e
  /\ (fuentes_activas e <= total_fuentes e)%nat.
Proof.
  intros e. subst e. unfold obtener_estadisticas.
  cbn [categorias idiomas total_fuentes fuentes_activas].
  split; [|split; [|split; [|split; [|split; [|split]]]]].
  - intros c. by rewrite contar_lookup, filter_fmap_length.
  - intros i. by rewrite contar_lookup, filter_fmap_length.
  - intros c n. apply contar_positivo.
  - intros i n. apply contar_positivo.
  - by rewrite suma_valores_contar, length_fmap.
  - by rewrite suma_valores_contar, length_fmap.
  - apply filter_length_le.
Qed.

(** On the sample registry of two sources, one of them active. *)
Example obtener_estadisticas_dos_fuentes :
  let e := obtener_estadisticas None "2024-06-01 10:00:00" bd_dos_fuentes in
  total_fuentes e = 2%nat /\ fuentes_activas e = 1%nat
  /\ documentos_total e = 0%Z
  /\ idiomas e !! "en" = Some 1%nat.
Proof. vm_compute. repeat split. Qed.

(** *** Indexing every source *)

Lemma indexar_fuente_salida m hash escribe marca u max_paginas profundidad bd
    salida :
  indexar_fuente m hash escribe marca u max_paginas profundidad bd salida ->
  exists r bd' lotes,
    salida = Some (r, bd', lotes)
    /\ sources bd' = sources bd
    /\ idx_documentos_indexados r = (if idx_exito r then 1 else 0)%nat
    /\ idx_url r = u
    /\ (idx_exito r = false -> bd' = bd).
Proof.
  intros (documentos & Hr & ->).
  destruct (rastrear_sitio_web_semilla_o_nada _ _ _ _ Hr)
    as ([p Hp] & [->|(q & -> & Hq)]).
  - simpl. by eexists _, _, _.
  - unfold indexar_documentos, agregar_a_base_vectorial.
    cbn [length trocear]. unfold batch_size. cbn [firstn skipn mapM armar_lote].
    unfold metadata_de. rewrite Hq, Hp. cbn.
    eexists _, _, _. split; [done|]. by destruct escribe.
Qed.

(** A call either raises on the seed URL, or replies as [indexar_fuente]
    does; ingestion never raises, the only document being the seed page. *)
Lemma llamar_indexar_fuente_casos m hash escribe marca u max_paginas
    profundidad bd salida :
  llamar_indexar_fuente m hash escribe marca u max_paginas profundidad bd
    salida ->
  (exists e, error_de_urlparse u = Some e /\ salida = inl e)
  \/ exists r bd' lotes,
       salida = inr (r, bd', lotes)
       /\ indexar_fuente m hash escribe marca u max_paginas profundidad bd
            (Some (r, bd', lotes))
       /\ sources bd' = sources bd
       /\ idx_documentos_indexados r = (if idx_exito r then 1 else 0)%nat
       /\ idx_url r = u
       /\ (idx_exito r = false -> bd' = bd).
Proof.
  intros [H|(documentos & Hr & Hs)]; [by left|right].
  assert (indexar_fuente m hash escribe marca u max_paginas profundidad bd
            (indexar_documentos hash escribe marca u documentos bd)) as H.
  { by exists documentos. }
  destruct (indexar_fuente_salida _ _ _ _ _ _ _ _ _ H)
    as (r & bd' & lotes & Heq & Hrest).
  rewrite Heq in Hs, H. by exists r, bd', lotes.
Qed.

Lemma llamar_indexar_fuente_limite m hash escribe marca u max1 max2 p bd
    salida :
  llamar_indexar_fuente m hash escribe marca u max1 (Some p) bd salida ->
  llamar_indexar_fuente m hash escribe marca u max2 (Some p) bd salida.
Proof. intros [H|H]; [by left|by right]. Qed.

Lemma anotar_cuentas f bd m hash escribe marca u max_paginas profundidad
    salida r :
  llamar_indexar_fuente m hash escribe marca u max_paginas profundidad bd
    salida ->
  let bd1 := (anotar f bd salida r).1 in
  let r1 := (anotar f bd salida r).2 in
  sources bd1 = sources bd
  /\ res_total_fuentes r1 = res_total_fuentes r
  /\ (exitosas r1 + fallidas r1 = S (exitosas r + fallidas r))%nat
  /\ (total_documentos r1 + exitosas r = total_documentos r + exitosas r1)%nat
  /\ det_fuente <$> detalles r1
     = ((det_fuente <$> detalles r) ++ [fuente_nombre f])%list.
Proof.
  intros [(e & _ & ->)|(res & bd' & lotes & -> & _ & Hs & Hn & _)]
    %llamar_indexar_fuente_casos.
  - simpl. rewrite fmap_app. repeat split; try done; lia.
  - simpl. destruct (idx_exito res); simpl; rewrite fmap_app, ?Hn;
      repeat split; try done; lia.
Qed.

Lemma indexar_lista_cuentas mundos hash escrituras marcas maximo i fs bd r
    bd' r' :
  indexar_lista mundos hash escrituras marcas maximo i fs bd r bd' r' ->
  sources bd' = sources bd
  /\ res_total_fuentes r' = res_total_fuentes r
  /\ (exitosas r' + fallidas r' = exitosas r + fallidas r + length fs)%nat
  /\ (total_documentos r' + exitosas r = total_documentos r + exitosas r')%nat
  /\ det_fuente <$> detalles r'
     = ((det_fuente <$> detalles r) ++ (fuente_nombre <$> fs))%list.
Proof.
  induction 1 as [i bd r|i f fs bd r salida bd' r' Hl _ IH].
  - simpl. rewrite app_nil_r. repeat split; try done; lia.
  - destruct (anotar_cuentas f _ _ _ _ _ _ _ _ _ r Hl)
      as (Hs & Ht & He & Hd & Hn).
    destruct IH as (Hs' & Ht' & He' & Hd' & Hn').
    rewrite Hs', Hs, Ht', Ht, Hn', Hn, <- app_assoc. simpl.
    repeat split; try done; lia.
Qed.

Lemma indexar_lista_limite mundos hash escrituras marcas max1 max2 i fs bd r
    bd' r' :
  indexar_lista mundos hash escrituras marcas max1 i fs bd r bd' r' ->
  indexar_lista mundos hash escrituras marcas max2 i fs bd r bd' r'.
Proof.
  induction 1 as [i bd r|i f fs bd r salida bd' r' Hl _ IH].
  - constructor.
  - econstructor; [|exact IH].
    by apply (llamar_indexar_fuente_limite _ _ _ _ _ max1).
Qed.

(** The sample registry of two sources can be indexed: its one active
    source is crawled and replied for. *)
Lemma indexar_todas_fuentes_dos_fuentes (max_paginas_por_sitio : Z) :
  exists bd' r,
    indexar_todas_fuentes (fun _ => mundo_ejemplo)
      (SipHash.hash (SipHash.clave 0)) (fun _ => true)
      (fun _ => "2024-05-02 08:00:00") max_paginas_por_sitio bd_dos_fuentes
      bd' r.
Proof.
  assert (rastrear_sitio_web mundo_ejemplo url_portada 10
            (default [] (rastrear_sitio_web_con mundo_ejemplo 5 url_portada
                           10))) as Hr.
  { apply (rastrear_sitio_web_con_correcto _ 5). by vm_compute. }
  set (documentos := default [] _) in Hr.
  assert (indexar_fuente mundo_ejemplo (SipHash.hash (SipHash.clave 0)) true
            "2024-05-02 08:00:00" url_portada max_paginas_por_sitio
            (Some 10%Z) bd_dos_fuentes
            (indexar_documentos (SipHash.hash (SipHash.clave 0)) true
               "2024-05-02 08:00:00" url_portada documentos bd_dos_fuentes))
    as H.
  { by exists documentos. }
  destruct (indexar_fuente_salida _ _ _ _ _ _ _ _ _ H)
    as (res & bd1 & lotes & Heq & _).
  eexists _, _. unfold indexar_todas_fuentes.
  change (List.filter es_activa (sources bd_dos_fuentes))
    with [fuente_python].
  cbv zeta.
  apply (indexar_lista_paso _ _ _ _ _ _ _ _ _ _ (inr (res, bd1, lotes)));
    [|apply indexar_lista_fin].
  right. exists documentos. split; [done|].
  cbv beta. change (fuente_url fuente_python) with url_portada.
  by rewrite Heq.
Qed.

(** X16: a run of [indexar_todas_fuentes] leaves the list of sources as it
    was and replies with tallies that add up: [total_fuentes] is the number
    of active sources, every one of them is counted once as successful or
    failed, the details name the active sources in the order of the
    registry, and [total_documentos] equals [exitosas], a successful source
    having contributed exactly one document. *)
Theorem indexar_todas_fuentes_cuentas (mundos : nat -> Mundo)
    (hash : string -> Z) (escrituras : nat -> bool) (marcas : nat -> string)
    (max_paginas_por_sitio : Z) (bd bd' : BaseDatos) (r : Resumen) :
  indexar_todas_fuentes mundos hash escrituras marcas max_paginas_por_sitio
    bd bd' r ->
  sources bd' = sources bd
  /\ res_total_fuentes r = length (List.filter es_activa (sources bd))
  /\ (exitosas r + fallidas r = res_total_fuentes r)%nat
  /\ total_documentos r = exitosas r
  /\ det_fuente <$> detalles r
     = fuente_nombre <$> List.filter es_activa (sources bd).
Proof.
  intros H. apply indexar_lista_cuentas in H as (Hs & Ht & He & Hd & Hn).
  simpl in *. rewrite Ht. repeat split; try done; lia.
Qed.

Lemma indexar_todas_fuentes_cuentas_ejemplo :
  exists bd' r,
    indexar_todas_fuentes (fun _ => mundo_ejemplo)
      (SipHash.hash (SipHash.clave 0)) (fun _ => true)
      (fun _ => "2024-05-02 08:00:00") 0 bd_dos_fuentes bd' r
    /\ sources bd' = sources bd_dos_fuentes
    /\ res_total_fuentes r
       = length (List.filter es_activa (sources bd_dos_fuentes))
    /\ (exitosas r + fallidas r = res_total_fuentes r)%nat
    /\ total_documentos r = exitosas r
    /\ det_fuente <$> detalles r
       = fuente_nombre <$> List.filter es_activa (sources bd_dos_fuentes).
Proof.
  destruct (indexar_todas_fuentes_dos_fuentes 0) as (bd' & r & H).
  exists bd', r. split; [exact H|].
  exact (indexar_todas_fuentes_cuentas _ _ _ _ _ _ _ _ H).
Defined.

(** X17: the argument [max_paginas_por_sitio] of [indexar_todas_fuentes]
    plays no part: every call of [indexar_fuente] is made with
    [profundidad=10], which replaces it, so a run with one value of the
    argument is a run with any other. *)
Theorem indexar_todas_fuentes_ignora_limite (mundos : nat -> Mundo)
    (hash : string -> Z) (escrituras : nat -> bool) (marcas : nat -> string)
    (max1 max2 : Z) (bd bd' : BaseDatos) (r : Resumen) :
  indexar_todas_fuentes mundos hash escrituras marcas max1 bd bd' r ->
  indexar_todas_fuentes mundos hash escrituras marcas max2 bd bd' r.
Proof. apply indexar_lista_limite. Qed.

Lemma indexar_todas_fuentes_ignora_limite_ejemplo :
  exists bd' r,
    indexar_todas_fuentes (fun _ => mundo_ejemplo)
      (SipHash.hash (SipHash.clave 0)) (fun _ => true)
      (fun _ => "2024-05-02 08:00:00") 1 bd_dos_fuentes bd' r
    /\ indexar_todas_fuentes (fun _ => mundo_ejemplo)
         (SipHash.hash (SipHash.clave 0)) (fun _ => true)
         (fun _ => "2024-05-02 08:00:00") 500 bd_dos_fuentes bd' r.
Proof.
  destruct (indexar_todas_fuentes_dos_fuentes 1) as (bd' & r & H).
  exists bd', r. split; [exact H|].
  exact (indexar_todas_fuentes_ignora_limite _ _ _ _ 1 500 _ _ _ H).
Defined.

(** *** Indexing from the interface *)

Lemma rastrear_sitio_web_devuelve (m : Mundo) (u : string) (p : ParseResult)
    (max_paginas : Z) :
  urlparse u = Some p -> exists res, rastrear_sitio_web m u max_paginas res.
Proof.
  intros Hp.
  destruct (bucle_existe m max_paginas (netloc p) (inicial u)) as [e He].
  - generalize (inicial u). intros e.
    remember (size (to_visit e)) as s eqn:Hs.
    revert e Hs. induction s as [s IH] using lt_wf_ind. intros e ->.
    constructor. intros e' (_ & c & Hin & ->).
    eapply IH; [|done].
    rewrite (iterar_frontera_netloc _ _ _ _ _ _ Hp).
    apply subset_size, subset_difference_elem_of. done.
  - by exists (results e), p, e.
Qed.

(** X18: [indexar_fuente_segura] of [app.py] never raises and always
    replies.  When [urlparse] rejects the URL, the reply is the failure
    [Error en indexación: ] followed by the message of that [ValueError],
    and the state is untouched; this is the only case in which that failure
    is replied.  Otherwise the reply is the one of [indexar_fuente], for the
    URL given, a success counting one document or a failure counting none.
    The list of sources is as before in every case. *)
Theorem indexar_fuente_segura_responde (m : Mundo) (hash : string -> Z)
    (escribe : bool) (marca u : string) (max_paginas : Z) (bd : BaseDatos) :
  (exists respuesta bd',
     indexar_fuente_segura m hash escribe marca u max_paginas bd respuesta bd')
  /\ forall respuesta bd',
       indexar_fuente_segura m hash escribe marca u max_paginas bd respuesta
         bd' ->
       sources bd' = sources bd
       /\ (urlparse u = None ->
           exists e,
             error_de_urlparse u = Some e
             /\ idx_exito respuesta = false
             /\ idx_mensaje respuesta = "Error en indexación: " ++ e
             /\ bd' = bd)
       /\ (is_Some (urlparse u) ->
           idx_url respuesta = u
           /\ idx_documentos_indexados respuesta
              = (if idx_exito respuesta then 1 else 0)%nat
           /\ idx_mensaje respuesta
              = (if idx_exito respuesta then ""
                 else "No se pudo indexar el sitio")).
Proof.
  split.
  - destruct (intentar_urlparse u) as [e|p] eqn:Hi.
    + apply urlparse_inl in Hi as [_ He].
      eexists _, bd, (inl e). split; [|done]. left. by exists e.
    + apply urlparse_inr in Hi as Hp.
      destruct (rastrear_sitio_web_devuelve m u p max_paginas Hp)
        as [documentos Hr].
      assert (indexar_fuente m hash escribe marca u max_paginas None bd
                (indexar_documentos hash escribe marca u documentos bd))
        as H.
      { by exists documentos. }
      destruct (indexar_fuente_salida _ _ _ _ _ _ _ _ _ H)
        as (r & bd' & lotes & Heq & _).
      exists r, bd', (inr (r, bd', lotes)). split; [|done].
      right. exists documentos. split; [done|]. by rewrite Heq.
  - intros respuesta bd' (salida & Hl & Hs).
    pose proof Hl as
      [(e & He & ->)|(r & bd1 & lotes & -> & H & Hsrc & Hn & Hu & _)]
        %llamar_indexar_fuente_casos.
    + destruct Hs as [-> ->]. split; [done|]. split.
      * intros _. by exists e.
      * intros [p Hp]. apply urlparse_Some in Hp.
        unfold error_de_urlparse in He. by rewrite Hp in He.
    + destruct Hs as [-> ->]. split; [done|].
      destruct H as (documentos & Hr & Hsal).
      destruct (rastrear_sitio_web_semilla_o_nada _ _ _ _ Hr) as [Hp Hdoc].
      split.
      * intros Hnone. rewrite Hnone in Hp. by destruct Hp.
      * intros _. split; [done|]. split; [done|].
        destruct Hdoc as [->|(q & -> & Hq)].
        -- simpl in Hsal. by injection Hsal as -> _ _.
        -- unfold indexar_documentos in Hsal.
           destruct (agregar_a_base_vectorial hash [q]); [|done].
           by injection Hsal as -> _ _.
Qed.

(** A bracketed host that is no address: the reply carries the message of
    the library, on whatever site and state. *)
Example indexar_fuente_segura_corchetes (m : Mundo) (hash : string -> Z)
    (escribe : bool) (marca : string) (bd bd' : BaseDatos)
    (respuesta : ResultadoIndexar) :
  indexar_fuente_segura m hash escribe marca "http://[abc]/" 0 bd respuesta
    bd' ->
  idx_mensaje respuesta
  = "Error en indexación: 'abc' does not appear to be an IPv4 or IPv6 address"
  /\ bd' = bd.
Proof.
  intros (salida & Hl & Hs).
  apply llamar_indexar_fuente_casos in Hl
    as [(e & He & ->)|(r & bd1 & lotes & -> & H & _)].
  - destruct Hs as [-> ->]. vm_compute in He. by injection He as <-.
  - destruct H as (documentos & Hr & _).
    destruct (rastrear_sitio_web_semilla_o_nada _ _ _ _ Hr) as [[p Hp] _].
    by vm_compute in Hp.
Qed.

(** *** Search replies *)

Lemma recortar_length (doc : texto) : (length (recortar doc) <= 503)%nat.
Proof.
  unfold recortar. destruct (500 <? length doc)%nat eqn:Hl.
  - rewrite length_app, firstn_length. unfold puntos_suspensivos.
    cbn [length]. pose proof (Nat.le_min_l 500 (length doc)). lia.
  - apply Nat.ltb_ge in Hl. lia.
Qed.

Lemma formatear_lookup r i documents l :
  formatear r i documents = Some l ->
  length l = length documents
  /\ forall j x, l !! j = Some x ->
       exists doc md d,
         documents !! j = Some doc
         /\ q_metadatas r !! (i + j)%nat = Some md
         /\ q_distances r !! (i + j)%nat = Some d
         /\ x = {| res_titulo := md_titulo md;
                   res_contenido := recortar doc;
                   res_fuente := md_fuente md;
                   res_url := md_url md;
                   puntuacion := (1 - d)%float |}.
Proof.
  revert i l. induction documents as [|doc resto IH]; intros i l; simpl.
  - intros [= <-]. split; [done|]. intros j x Hj. by rewrite lookup_nil in Hj.
  - destruct (q_metadatas r !! i) as [md|] eqn:Hmd; [|done].
    destruct (q_distances r !! i) as [d|] eqn:Hd; [|done].
    destruct (formatear r (S i) resto) as [l'|] eqn:Hl; [|done].
    intros [= <-]. destruct (IH _ _ Hl) as [Hlen Hj']. split; [simpl; lia|].
    intros [|j] x Hj; simpl in Hj.
    + simplify_eq. exists doc, md, d. by rewrite Nat.add_0_r.
    + destruct (Hj' j x Hj) as (doc' & md' & d' & H1 & H2 & H3 & Hx).
      exists doc', md', d'. by rewrite <- Nat.add_succ_comm.
Qed.

Lemma formatear_Some r i documents :
  (i + length documents <= length (q_metadatas r))%nat ->
  (i + length documents <= length (q_distances r))%nat ->
  is_Some (formatear r i documents).
Proof.
  revert i. induction documents as [|doc resto IH]; intros i Hm Hd; simpl.
  - by eexists.
  - simpl in Hm, Hd.
    destruct (lookup_lt_is_Some_2 (q_metadatas r) i) as [md ->]; [lia|].
    destruct (lookup_lt_is_Some_2 (q_distances r) i) as [d ->]; [lia|].
    destruct (IH (S i)) as [l ->]; [lia..|]. by eexists.
Qed.

Lemma formatear_None r i documents :
  (length (q_metadatas r) < i + length documents
   \/ length (q_distances r) < i + length documents)%nat ->
  documents <> [] ->
  formatear r i documents = None.
Proof.
  revert i. induction documents as [|doc resto IH]; intros i Hc Hne; [done|].
  simpl in *.
  destruct (q_metadatas r !! i) as [md|] eqn:Hmd; [|done].
  destruct (q_distances r !! i) as [d|] eqn:Hd; [|done].
  apply lookup_lt_Some in Hmd, Hd.
  destruct resto as [|doc' resto].
  - simpl in Hc. lia.
  - rewrite (IH (S i)); [done| |done]. simpl in *. lia.
Qed.

(** X19: the reply of [buscar_en_todos_sitios] is all or nothing.  When
    the collaborator's answer holds a metadata record and a distance for
    every document, there is one result per document, in order, built from
    the three entries at the same index: its content is the document cut to
    500 code points plus an ellipsis when it is longer (so never more than
    503), its score one minus the distance.  When a record or a distance is
    missing for some document, the reply is empty, the complete results
    included. *)
Theorem buscar_en_todos_sitios_todo_o_nada
    (query : texto -> Z -> option QueryResult) (consulta : texto)
    (n_resultados : Z) (r : QueryResult) :
  query consulta n_resultados = Some r ->
  let l := buscar_en_todos_sitios query consulta n_resultados in
  (if (length (q_documents r) <=? length (q_metadatas r))%nat
      && (length (q_documents r) <=? length (q_distances r))%nat
   then
     length l = length (q_documents r)
     /\ forall j x, l !! j = Some x ->
          exists doc md d,
            q_documents r !! j = Some doc
            /\ q_metadatas r !! j = Some md
            /\ q_distances r !! j = Some d
            /\ x = {| res_titulo := md_titulo md;
                      res_contenido := recortar doc;
                      res_fuente := md_fuente md;
                      res_url := md_url md;
                      puntuacion := (1 - d)%float |}
   else l = [])
  /\ Forall (fun x => (length (res_contenido x) <= 503)%nat) l.
Proof.
  intros Hq l. subst l. unfold buscar_en_todos_sitios. rewrite Hq.
  destruct (formatear r O (q_documents r)) as [l|] eqn:Hl; simpl.
  - destruct (formatear_lookup _ _ _ _ Hl) as [Hlen Hj].
    split.
    + destruct ((length (q_documents r) <=? length (q_metadatas r))%nat
                && (length (q_documents r) <=? length (q_distances r))%nat)
        eqn:Hc.
      * done.
      * destruct (q_documents r) as [|doc resto] eqn:Hdocs;
          [by injection Hl as <-|].
        rewrite <- Hdocs in *.
        rewrite formatear_None in Hl; [done| |by rewrite Hdocs].
        apply andb_false_iff in Hc as [Hc|Hc]; apply Nat.leb_gt in Hc; lia.
    + apply Forall_lookup. intros j x Hx.
      destruct (Hj j x Hx) as (doc & md & d & _ & _ & _ & ->).
      apply recortar_length.
  - split; [|done].
    destruct ((length (q_documents r) <=? length (q_metadatas r))%nat
              && (length (q_documents r) <=? length (q_distances r))%nat)
      eqn:Hc; [|done].
    apply andb_true_iff in Hc as [Hm Hd]. apply Nat.leb_le in Hm, Hd.
    destruct (formatear_Some r O (q_documents r)) as [l' Hl']; [done..|].
    congruence.
Qed.

Lemma buscar_en_todos_sitios_todo_o_nada_ejemplo :
  let l := buscar_en_todos_sitios (fun _ _ => Some respuesta_lejana)
             (texto_de_cadena "python") 5 in
  (length l = 1%nat
   /\ forall j x, l !! j = Some x ->
        exists doc md d,
          q_documents respuesta_lejana !! j = Some doc
          /\ q_metadatas respuesta_lejana !! j = Some md
          /\ q_distances respuesta_lejana !! j = Some d
          /\ x = {| res_titulo := md_titulo md;
                    res_contenido := recortar doc;
                    res_fuente := md_fuente md;
                    res_url := md_url md;
                    puntuacion := (1 - d)%float |})
  /\ Forall (fun x => (length (res_contenido x) <= 503)%nat) l.
Proof.
  exact (buscar_en_todos_sitios_todo_o_nada (fun _ _ => Some respuesta_lejana)
           (texto_de_cadena "python") 5 respuesta_lejana eq_refl).
Defined.

(** One distance short: the search method drops both documents, the
    conversion of [app.py] keeps both. *)
Example una_distancia_de_menos :
  let r := {| q_documents := [veinte_palabras; veinte_palabras];
              q_metadatas := [metadata_portada; metadata_portada];
              q_distances := [0.25%float] |} in
  buscar_en_todos_sitios (fun _ _ => Some r) (texto_de_cadena "python") 5 = []
  /\ length (convertir_resultados_chromadb (Some r)) = 2%nat.
Proof. split; reflexivity. Qed.

Lemma max0_no_negativo (x : float) : (0 <=? max0 x)%float = true.
Proof.
  unfold max0. destruct (0 <? x)%float eqn:Hx; [|reflexivity].
  rewrite FloatAxioms.ltb_spec in Hx. rewrite FloatAxioms.leb_spec.
  change (Prim2SF 0) with (S754_zero false) in *.
  unfold SFltb in Hx. unfold SFleb.
  destruct (Prim2SF x) as [s|s| |s m e]; simpl in *; try done;
    by destruct s.
Qed.

Lemma convertir_desde_contenido r i documents :
  app_contenido <$> convertir_desde r i documents = documents.
Proof.
  revert i. induction documents as [|doc resto IH]; intros i; [done|].
  simpl. by rewrite IH.
Qed.

(** X20: [convertir_resultados_chromadb] of [app.py] gives one result per
    document, in order and with the document whole as its content,
    whatever the number of metadata records and distances; no result has a
    negative score or one that is not a number: every score [s] satisfies
    [0 <= s]. *)
Theorem convertir_resultados_chromadb_completo
    (results : option QueryResult) :
  let l := convertir_resultados_chromadb results in
  app_contenido <$> l = from_option q_documents [] results
  /\ Forall (fun x => (0 <=? app_puntuacion x)%float = true) l.
Proof.
  destruct results as [r|]; simpl; [|done].
  split; [apply convertir_desde_contenido|].
  apply Forall_lookup. intros j x Hx.
  rewrite (convertir_desde_puntuacion _ _ _ _ _ Hx).
  apply max0_no_negativo.
Qed.

(** *** The main content of a page *)

Lemma primer_selector_primero soup pre sel post t :
  Forall (fun s => select_one soup s = None) pre ->
  select_one soup sel = Some t ->
  primer_selector soup (pre ++ sel :: post) = Some t.
Proof.
  intros Hpre Hsel. induction Hpre as [|s pre Hs _ IH]; simpl.
  - by rewrite Hsel.
  - by rewrite Hs.
Qed.

(** X21: among the ten selectors of [_extraer_contenido_principal] the
    first that matches decides, and there is no going back: the main
    content is the cleaned text of that element, and when it has fewer than
    twenty words [extraer_pagina_individual] rejects the page, whatever the
    elements of the later selectors and the body hold. *)
Theorem extraer_contenido_principal_sin_marcha_atras (m : Mundo) (n : nat)
    (u : string) (soup : Soup) (pre post : list string) (sel : string)
    (t : texto) :
  _obtener_contenido m n u = Some soup ->
  selectors = (pre ++ sel :: post)%list ->
  Forall (fun s => select_one soup s = None) pre ->
  select_one soup sel = Some t ->
  _extraer_contenido_principal m soup = Some (_limpiar_texto (nfkc m) t)
  /\ ((num_palabras (_limpiar_texto (nfkc m) t) < 20)%nat ->
      extraer_pagina_individual m n u = None).
Proof.
  intros Hsoup Hsels Hpre Hsel.
  assert (_extraer_contenido_principal m soup
          = Some (_limpiar_texto (nfkc m) t)) as Hc.
  { unfold _extraer_contenido_principal.
    by rewrite Hsels, (primer_selector_primero _ _ _ _ t Hpre Hsel). }
  split; [done|]. intros Hn.
  apply extraer_pagina_individual_pobre. intros soup' Hsoup'.
  assert (soup' = soup) as -> by congruence.
  right. by eexists.
Qed.

Lemma extraer_contenido_principal_sin_marcha_atras_ejemplo :
  _extraer_contenido_principal mundo_articulo sopa_articulo_breve
  = Some (_limpiar_texto nfkc_latin1 (texto_de_cadena "Hola mundo"))
  /\ body sopa_articulo_breve = Some veinte_palabras
  /\ extraer_pagina_individual mundo_articulo 0 url_portada = None.
Proof.
  destruct (extraer_contenido_principal_sin_marcha_atras mundo_articulo 0
              url_portada sopa_articulo_breve ["main"] 
              [".content"; ".documentation"; ".doc-content"; ".markdown-body";
               ".page-content"; "#content"; "#main-content"; ".body"]
              "article" (texto_de_cadena "Hola mundo")
              eq_refl eq_refl ltac:(by repeat constructor) eq_refl)
    as [Hc Hn].
  split; [exact Hc|]. split; [reflexivity|].
  apply Hn. vm_compute. lia.
Defined.

(** *** The encoding of a response *)

Lemma primera_que_decodifica_encodings (b : list N) :
  primera_que_decodifica encodings b
  = Some (if utf8_valido b then "utf-8" else "latin-1").
Proof.
  unfold encodings. cbn [primera_que_decodifica]. unfold decodifica.
  cbn [String.eqb Ascii.eqb Bool.eqb].
  by destruct (utf8_valido b).
Qed.

(** X22: when [chardet] answers without a confidence above 0.8,
    [_detectar_codificacion] returns [utf-8] for bytes that are valid
    UTF-8 and [latin-1] for all others: the entries [iso-8859-1] and
    [windows-1252] of its list and its final fallback are never reached.
    The result is an encoding of the list or the one [chardet] named. *)
Theorem detectar_codificacion_sin_confianza
    (detect : list N -> option (option string * float))
    (response_content : list N) (encoding : option string)
    (confidence : float) :
  detect response_content = Some (encoding, confidence) ->
  (0x1.999999999999ap-1 <? confidence)%float = false ->
  _detectar_codificacion detect response_content
  = Some (if utf8_valido response_content then "utf-8" else "latin-1")
  /\ forall detect',
       _detectar_codificacion detect' response_content = Some "utf-8"
       \/ _detectar_codificacion detect' response_content = Some "latin-1"
       \/ exists confidence',
            detect' response_content
            = Some (_detectar_codificacion detect' response_content,
                    confidence')
            /\ (0x1.999999999999ap-1 <? confidence')%float = true.
Proof.
  intros Hd Hc. split.
  - unfold _detectar_codificacion.
    by rewrite Hd, Hc, primera_que_decodifica_encodings.
  - intros detect'. unfold _detectar_codificacion.
    destruct (detect' response_content) as [[e c]|]; [|by left].
    destruct (0x1.999999999999ap-1 <? c)%float eqn:Hc'.
    + right. right. by exists c.
    + rewrite primera_que_decodifica_encodings.
      destruct (utf8_valido response_content); [by left|right; by left].
Qed.

Lemma detectar_codificacion_sin_confianza_ejemplo :
  _detectar_codificacion (fun _ => Some (Some "ascii", 0.5%float))
    [0x63; 0x61; 0x66; 0xE9]%N
  = Some "latin-1".
Proof.
  exact (proj1 (detectar_codificacion_sin_confianza
                  (fun _ => Some (Some "ascii", 0.5%float))
                  [0x63; 0x61; 0x66; 0xE9]%N (Some "ascii") 0.5%float
                  eq_refl eq_refl)).
Defined.
